(** * MarisTestPlat: plugin registry, data references, step orchestration

    A shallow embedding of the automation core (PluginManager, TestDataManager,
    TestEngine, the reference substitution of AutomationCore,
    TestCaseSerializer) and the properties of its specification.

    Conventions of the embedding:
    - [std::string] is [string] (a sequence of 8-bit characters);
    - [int] is [Z]; identifiers are only compared and incremented, and the
      one narrowing conversion (reading an [int] from JSON) is written out;
    - a C++ exception is a value of [exn]; a function that may throw
      returns a [result];
    - calls into plugins and into the loader are recorded in a trace of
      [event]s, so that "was called", "was called once" and "was handed
      this argument" can be stated;
    - wall-clock fields (start time, duration) are left out: no property
      below reads them;
    - console output ([std::cout], [std::cerr]) and the engine's
      [execution_log_] are left out: they are written and never read. *)

From Stdlib Require Import ZArith String Ascii DecimalString.
From stdpp Require Import gmap strings list fin_maps sorting.

Local Open Scope Z_scope.

(** ** Exceptions and results *)

Inductive exn : Type :=
| TestDataException (what : string)   (* derives from std::runtime_error *)
| StdException (what : string)        (* any other std::exception *)
| UnknownException.                   (* a thrown object that is no std::exception *)

(** [e.what()]. *)
Definition what (e : exn) : string :=
  match e with
  | TestDataException w => w
  | StdException w => w
  | UnknownException => EmptyString
  end.

(** What a call into this program does: it returns, it throws, or it steps
    outside the language (a null dereference, a vector index out of range),
    after which nothing is known. *)
Inductive result (A : Type) : Type :=
| Ok (a : A)
| Throw (e : exn)
| Undefined.
Arguments Ok {A} a.
Arguments Throw {A} e.
Arguments Undefined {A}.

#[global] Instance result_ret : MRet result := fun A a => Ok a.
#[global] Instance result_bind : MBind result := fun A B k r =>
  match r with
  | Ok a => k a
  | Throw e => Throw e
  | Undefined => Undefined
  end.

(** What a call into a plugin does: plugins are foreign code behind a
    virtual interface; they return or they throw. *)
Inductive outcome (A : Type) : Type :=
| Returns (a : A)
| Raises (e : exn).
Arguments Returns {A} a.
Arguments Raises {A} e.

(** The largest [int]; incrementing it is undefined. *)
Definition INT_MAX : Z := 2147483647.

(** ** std::string operations used by the sources *)

Module Str.

Definition len (s : string) : nat := String.length s.

Fixpoint starts_with (pat s : string) : bool :=
  match pat, s with
  | EmptyString, _ => true
  | String a pat', String b s' => if Ascii.eqb a b then starts_with pat' s' else false
  | String _ _, EmptyString => false
  end.

Fixpoint drop (n : nat) (s : string) : string :=
  match n, s with
  | O, _ => s
  | S n', String _ s' => drop n' s'
  | S _, EmptyString => EmptyString
  end.

Fixpoint take (n : nat) (s : string) : string :=
  match n, s with
  | O, _ => EmptyString
  | S n', String c s' => String c (take n' s')
  | S _, EmptyString => EmptyString
  end.

(** Offset of the first occurrence of [pat] in [s]. *)
Fixpoint find0 (pat s : string) : option nat :=
  if starts_with pat s then Some O
  else match s with
       | EmptyString => None
       | String _ s' => S <$> find0 pat s'
       end.

(** [s.find(pat, pos)]: [None] is [npos]. *)
Definition find (s pat : string) (pos : nat) : option nat :=
  if (len s <? pos)%nat then None
  else (fun k => (pos + k)%nat) <$> find0 pat (drop pos s).

(** [s.replace(pos, n, v)] for [pos <= s.size()]. *)
Definition replace (s : string) (pos n : nat) (v : string) : string :=
  take pos s +:+ v +:+ drop (pos + n) s.

(** [std::to_string(int)]. *)
Definition to_string (z : Z) : string := NilZero.string_of_int (Z.to_int z).

(** Until the first character that fails [keep]: the run and what follows. *)
Fixpoint span (keep : ascii -> bool) (s : string) : string * string :=
  match s with
  | EmptyString => (EmptyString, EmptyString)
  | String c s' =>
      if keep c then let '(run, rest) := span keep s' in (String c run, rest)
      else (EmptyString, s)
  end.

Fixpoint mem (c : ascii) (s : string) : bool :=
  match s with
  | EmptyString => false
  | String d s' => Ascii.eqb c d || mem c s'
  end.

End Str.

(** ** The reference pattern [\$\{([^.]+)\.([^}]+)\}]

    Both operations of the data manager build
    [std::regex("\\$\\{([^.]+)\\.([^}]+)\\}")].  An ECMAScript matcher takes
    each [+] run greedily and backtracks to shorter runs; here the character
    following a run must be the very character the run excludes, so only the
    longest run can be followed by it, and the matcher below is the whole
    search. *)

Module Regex.

Definition dollar : ascii := "$"%char.
Definition lbrace : ascii := "{"%char.
Definition rbrace : ascii := "}"%char.
Definition dot : ascii := "."%char.

(** What [std::smatch] holds after a successful search. *)
Record smatch : Type := {
  m_prefix : string;    (* match.prefix() *)
  m_full : string;      (* match[0] *)
  m_1 : string;         (* match[1] *)
  m_2 : string;         (* match[2] *)
  m_suffix : string     (* match.suffix() *)
}.

Definition token (dataSetName itemName : string) : string :=
  String dollar (String lbrace (dataSetName +:+ String dot (itemName +:+ String rbrace EmptyString))).

(** The grammar [${<dataset>.<item>}]: a non-empty dataset without [.],
    a non-empty item without [}], nothing around them. *)
Definition is_token (s dataSetName itemName : string) : Prop :=
  s = token dataSetName itemName
  /\ dataSetName <> EmptyString /\ Str.mem dot dataSetName = false
  /\ itemName <> EmptyString /\ Str.mem rbrace itemName = false.

(** A match that starts at the first character of [s]. *)
Definition match_here (s : string) : option (string * string * string) :=
  match s with
  | String c0 (String c1 s1) =>
      if Ascii.eqb c0 dollar && Ascii.eqb c1 lbrace then
        match Str.span (fun c => negb (Ascii.eqb c dot)) s1 with
        | (String a g1, String _ s2) =>
            match Str.span (fun c => negb (Ascii.eqb c rbrace)) s2 with
            | (String b g2, String _ s3) => Some (String a g1, String b g2, s3)
            | _ => None
            end
        | _ => None
        end
      else None
  | _ => None
  end.

(** [std::regex_match]: the pattern must cover the whole string. *)
Definition regex_match (s : string) : option (string * string) :=
  match match_here s with
  | Some (g1, g2, EmptyString) => Some (g1, g2)
  | _ => None
  end.

(** [std::regex_search]: the leftmost match. *)
Fixpoint regex_search (s : string) : option smatch :=
  match match_here s with
  | Some (g1, g2, rest) =>
      Some {| m_prefix := EmptyString; m_full := token g1 g2;
              m_1 := g1; m_2 := g2; m_suffix := rest |}
  | None =>
      match s with
      | EmptyString => None
      | String c s' =>
          match regex_search s' with
          | Some m => Some {| m_prefix := String c (m_prefix m); m_full := m_full m;
                              m_1 := m_1 m; m_2 := m_2 m; m_suffix := m_suffix m |}
          | None => None
          end
      end
  end.

End Regex.

(** ** TestDataManager (ITestDataManager.h, TestDataManager.cpp) *)

Module TestData.

Record TestDataItem : Type := {
  item_id : Z;
  item_name : string;
  item_type : string;
  item_value : string;
  item_description : string;
  item_project_id : Z;
  item_created_at : string;
  item_last_modified : string
}.

Record TestDataSet : Type := {
  id : Z;
  name : string;
  description : string;
  project_id : Z;
  items : list TestDataItem;
  created_at : string;
  last_modified : string
}.

(** The private members of [TestDataManager]. *)
Record TestDataManager : Type := {
  dataSets_ : gmap Z TestDataSet;
  dataSetNameMap_ : gmap string Z;
  nextDataSetId_ : Z;
  nextDataItemId_ : Z
}.

Definition empty : TestDataManager :=
  {| dataSets_ := ∅; dataSetNameMap_ := ∅; nextDataSetId_ := 1; nextDataItemId_ := 1 |}.

Definition no_such_dataSet (dataSetId : Z) : exn :=
  TestDataException ("DataSet with ID " +:+ Str.to_string dataSetId +:+ " does not exist").

Definition checkDataSetExists (m : TestDataManager) (dataSetId : Z) : result unit :=
  match dataSets_ m !! dataSetId with
  | Some _ => Ok tt
  | None => Throw (no_such_dataSet dataSetId)
  end.

(** [checkDataSetExists(dataSetId)] followed by [dataSets_[dataSetId]]. *)
Definition checked_dataSet (m : TestDataManager) (dataSetId : Z) : result TestDataSet :=
  match dataSets_ m !! dataSetId with
  | Some dataSet => Ok dataSet
  | None => Throw (no_such_dataSet dataSetId)
  end.

(** [now] is what [getCurrentTime()] returns at the call. *)
Definition createDataSet (now : string) (m : TestDataManager) (dataSet : TestDataSet)
  : result (Z * TestDataManager) :=
  match dataSetNameMap_ m !! name dataSet with
  | Some _ => Throw (TestDataException
                ("DataSet with name '" +:+ name dataSet +:+ "' already exists"))
  | None =>
      (* [generateDataSetId]: [return nextDataSetId_++;] on an [int] *)
      if nextDataSetId_ m <? INT_MAX then
        let newId := nextDataSetId_ m in
        let newDataSet :=
          {| id := newId; name := name dataSet; description := description dataSet;
             project_id := project_id dataSet; items := items dataSet;
             created_at := now; last_modified := now |} in
        Ok (newId,
            {| dataSets_ := <[newId := newDataSet]> (dataSets_ m);
               dataSetNameMap_ := <[name dataSet := newId]> (dataSetNameMap_ m);
               nextDataSetId_ := nextDataSetId_ m + 1;
               nextDataItemId_ := nextDataItemId_ m |})
      else Undefined
  end.

Definition updateDataSet (now : string) (m : TestDataManager) (dataSet : TestDataSet)
  : result (bool * TestDataManager) :=
  existingDataSet ← checked_dataSet m (id dataSet);
  nameMap ← (if String.eqb (name existingDataSet) (name dataSet)
             then Ok (dataSetNameMap_ m)
             else match dataSetNameMap_ m !! name dataSet with
                  | Some _ => Throw (TestDataException
                                ("DataSet with name '" +:+ name dataSet +:+ "' already exists"))
                  | None => Ok (<[name dataSet := id dataSet]>
                                  (delete (name existingDataSet) (dataSetNameMap_ m)))
                  end);
  let updatedDataSet :=
    {| id := id dataSet; name := name dataSet; description := description dataSet;
       project_id := project_id dataSet; items := items dataSet;
       created_at := created_at existingDataSet; last_modified := now |} in
  Ok (true,
      {| dataSets_ := <[id dataSet := updatedDataSet]> (dataSets_ m);
         dataSetNameMap_ := nameMap;
         nextDataSetId_ := nextDataSetId_ m;
         nextDataItemId_ := nextDataItemId_ m |}).

Definition deleteDataSet (m : TestDataManager) (dataSetId : Z) : result (bool * TestDataManager) :=
  dataSet ← checked_dataSet m dataSetId;
  Ok (true,
      {| dataSets_ := delete dataSetId (dataSets_ m);
         dataSetNameMap_ := delete (name dataSet) (dataSetNameMap_ m);
         nextDataSetId_ := nextDataSetId_ m;
         nextDataItemId_ := nextDataItemId_ m |}).

Definition addDataItem (now : string) (m : TestDataManager) (dataSetId : Z)
    (dataItem : TestDataItem) : result (Z * TestDataManager) :=
  dataSet ← checked_dataSet m dataSetId;
  if existsb (fun item => String.eqb (item_name item) (item_name dataItem)) (items dataSet)
  then Throw (TestDataException
         ("DataItem with name '" +:+ item_name dataItem +:+ "' already exists in DataSet "
          +:+ Str.to_string dataSetId))
  else if nextDataItemId_ m <? INT_MAX then
    (* [generateDataItemId]: [return nextDataItemId_++;] on an [int] *)
    let newItem :=
      {| item_id := nextDataItemId_ m; item_name := item_name dataItem;
         item_type := item_type dataItem; item_value := item_value dataItem;
         item_description := item_description dataItem;
         item_project_id := project_id dataSet;
         item_created_at := now; item_last_modified := now |} in
    let dataSet' :=
      {| id := id dataSet; name := name dataSet; description := description dataSet;
         project_id := project_id dataSet; items := items dataSet ++ [newItem];
         created_at := created_at dataSet; last_modified := now |} in
    Ok (item_id newItem,
        {| dataSets_ := <[dataSetId := dataSet']> (dataSets_ m);
           dataSetNameMap_ := dataSetNameMap_ m;
           nextDataSetId_ := nextDataSetId_ m;
           nextDataItemId_ := nextDataItemId_ m + 1 |})
  else Undefined.

Definition id_le (a b : Z * TestDataSet) : Prop := a.1 <= b.1.

#[global] Instance id_le_dec : RelDecision id_le := fun a b => decide (a.1 <= b.1).

(** [dataSets_] is a [std::map<int, TestDataSet>]: iteration goes by rising id. *)
Definition getAllDataSets (m : TestDataManager) : list TestDataSet :=
  snd <$> merge_sort id_le (map_to_list (dataSets_ m)).

(** The first item of the vector that carries the name. *)
Fixpoint find_item (name : string) (l : list TestDataItem) : option TestDataItem :=
  match l with
  | [] => None
  | item :: l' => if String.eqb (item_name item) name then Some item else find_item name l'
  end.

Definition getDataItemByName (m : TestDataManager) (dataSetId : Z) (name : string)
  : result TestDataItem :=
  dataSet ← checked_dataSet m dataSetId;
  match find_item name (items dataSet) with
  | Some item => Ok item
  | None => Throw (TestDataException
              ("DataItem with name '" +:+ name +:+ "' not found in DataSet "
               +:+ Str.to_string dataSetId))
  end.

Definition resolveDataReference (m : TestDataManager) (reference : string) : result string :=
  match Regex.regex_match reference with
  | None => Throw (TestDataException
              ("Invalid data reference format: " +:+ reference
               +:+ ". Use ${dataset_name.item_name}"))
  | Some (dataSetName, itemName) =>
      match dataSetNameMap_ m !! dataSetName with
      | None => Throw (TestDataException
                  ("DataSet with name '" +:+ dataSetName +:+ "' not found"))
      | Some dataSetId =>
          match getDataItemByName m dataSetId itemName with
          | Ok dataItem => Ok (item_value dataItem)
          | Throw (TestDataException w) =>
              Throw (TestDataException
                ("Failed to resolve reference " +:+ reference +:+ ": " +:+ w))
          | Throw e => Throw e
          | Undefined => Undefined
          end
      end
  end.

(** The inner loop of [substituteDataReferences]:
    [while ((pos = result.find(fullMatch, pos)) != npos)
       { result.replace(pos, fullMatch.length(), value); pos += value.length(); }] *)
Fixpoint replace_loop (fuel : nat) (fullMatch value result : string) (pos : nat) : string :=
  match fuel with
  | O => result
  | S fuel' =>
      match Str.find result fullMatch pos with
      | None => result
      | Some p =>
          replace_loop fuel' fullMatch value
            (Str.replace result p (Str.len fullMatch) value) (p + Str.len value)
      end
  end.

(** One turn of the outer loop acting on [result] for the match [mt].
    The handler is [catch (const TestDataException&)]; [getDataItemByName]
    throws nothing else. *)
Definition substitute_match (m : TestDataManager) (mt : Regex.smatch) (result : string) : string :=
  match dataSetNameMap_ m !! Regex.m_1 mt with
  | Some dataSetId =>
      match getDataItemByName m dataSetId (Regex.m_2 mt) with
      | Ok dataItem =>
          replace_loop (S (Str.len result)) (Regex.m_full mt) (item_value dataItem) result 0
      | Throw _ | Undefined => result
      end
  | None => result
  end.

(** The outer loop: [while (std::regex_search(temp, match, refRegex))
    { ...; temp = match.suffix().str(); }] *)
Fixpoint substitute_loop (fuel : nat) (m : TestDataManager) (temp result : string) : string :=
  match fuel with
  | O => result
  | S fuel' =>
      match Regex.regex_search temp with
      | None => result
      | Some mt => substitute_loop fuel' m (Regex.m_suffix mt) (substitute_match m mt result)
      end
  end.

Definition substituteDataReferences (m : TestDataManager) (input : string) : string :=
  substitute_loop (S (Str.len input)) m input input.

(** The matches the outer loop visits, in order. *)
Fixpoint tokens (fuel : nat) (temp : string) : list Regex.smatch :=
  match fuel with
  | O => []
  | S fuel' =>
      match Regex.regex_search temp with
      | None => []
      | Some mt => mt :: tokens fuel' (Regex.m_suffix mt)
      end
  end.

Definition tokens_of (input : string) : list Regex.smatch :=
  tokens (S (Str.len input)) input.

(** The three exceptions [resolveDataReference] throws on a store whose
    name map is in step with its datasets. *)
Definition invalid_format (reference : string) : exn :=
  TestDataException ("Invalid data reference format: " +:+ reference
                     +:+ ". Use ${dataset_name.item_name}").

Definition unknown_dataSet (dataSetName : string) : exn :=
  TestDataException ("DataSet with name '" +:+ dataSetName +:+ "' not found").

Definition unknown_item (reference itemName : string) (dataSetId : Z) : exn :=
  TestDataException
    ("Failed to resolve reference " +:+ reference +:+ ": " +:+
     ("DataItem with name '" +:+ itemName +:+ "' not found in DataSet "
      +:+ Str.to_string dataSetId)).

(** What [createDataSet], [updateDataSet], [deleteDataSet] and [addDataItem]
    maintain (the remaining mutators only touch the items of one dataset):
    a name in [dataSetNameMap_] leads to a stored dataset of that name, and
    stored ids lie below the next id. *)
Definition consistent (m : TestDataManager) : Prop :=
  (forall n i, dataSetNameMap_ m !! n = Some i ->
      exists ds, dataSets_ m !! i = Some ds /\ name ds = n)
  /\ (forall i ds, dataSets_ m !! i = Some ds -> i < nextDataSetId_ m).

(** *** The remaining operations on datasets and items *)

Definition getDataSet (m : TestDataManager) (dataSetId : Z) : result TestDataSet :=
  checked_dataSet m dataSetId.

Definition getProjectDataSets (m : TestDataManager) (projectId : Z) : list TestDataSet :=
  List.filter (fun ds => Z.eqb (project_id ds) projectId) (getAllDataSets m).

Definition item_not_found (dataItemId dataSetId : Z) : exn :=
  TestDataException ("DataItem with ID " +:+ Str.to_string dataItemId
                     +:+ " not found in DataSet " +:+ Str.to_string dataSetId).

Definition item_exists (itemName : string) (dataSetId : Z) : exn :=
  TestDataException ("DataItem with name '" +:+ itemName
                     +:+ "' already exists in DataSet " +:+ Str.to_string dataSetId).

(** The first item of the vector that carries the id. *)
Fixpoint find_item_by_id (dataItemId : Z) (l : list TestDataItem) : option TestDataItem :=
  match l with
  | [] => None
  | item :: l' => if Z.eqb (item_id item) dataItemId then Some item
                  else find_item_by_id dataItemId l'
  end.

Definition getDataItem (m : TestDataManager) (dataSetId dataItemId : Z) : result TestDataItem :=
  dataSet ← checked_dataSet m dataSetId;
  match find_item_by_id dataItemId (items dataSet) with
  | Some item => Ok item
  | None => Throw (item_not_found dataItemId dataSetId)
  end.

(** The inner loop of [updateDataItem]: another item, by id, already has
    the new name. *)
Definition name_taken (dataItem : TestDataItem) (all : list TestDataItem) : bool :=
  existsb (fun otherItem => negb (Z.eqb (item_id otherItem) (item_id dataItem))
                            && String.eqb (item_name otherItem) (item_name dataItem)) all.

(** What [item = dataItem; item.created_at = created_at;
    item.last_modified = getCurrentTime();] leaves in the slot. *)
Definition updated_item (now : string) (item dataItem : TestDataItem) : TestDataItem :=
  {| item_id := item_id dataItem; item_name := item_name dataItem;
     item_type := item_type dataItem; item_value := item_value dataItem;
     item_description := item_description dataItem;
     item_project_id := item_project_id dataItem;
     item_created_at := item_created_at item; item_last_modified := now |}.

(** The outer loop of [updateDataItem] over [rest], a tail of [all]:
    [None] when no item has the id ([found] stays false). *)
Fixpoint update_loop (now : string) (dataSetId : Z) (dataItem : TestDataItem)
    (all rest : list TestDataItem) : result (option (list TestDataItem)) :=
  match rest with
  | [] => Ok None
  | item :: rest' =>
      if Z.eqb (item_id item) (item_id dataItem) then
        if negb (String.eqb (item_name item) (item_name dataItem)) && name_taken dataItem all
        then Throw (item_exists (item_name dataItem) dataSetId)
        else Ok (Some (updated_item now item dataItem :: rest'))
      else
        r ← update_loop now dataSetId dataItem all rest';
        Ok (match r with
            | Some updated => Some (item :: updated)
            | None => None
            end)
  end.

Definition updateDataItem (now : string) (m : TestDataManager) (dataSetId : Z)
    (dataItem : TestDataItem) : result (bool * TestDataManager) :=
  dataSet ← checked_dataSet m dataSetId;
  r ← update_loop now dataSetId dataItem (items dataSet) (items dataSet);
  match r with
  | None => Throw (item_not_found (item_id dataItem) dataSetId)
  | Some items' =>
      let dataSet' :=
        {| id := id dataSet; name := name dataSet; description := description dataSet;
           project_id := project_id dataSet; items := items';
           created_at := created_at dataSet; last_modified := now |} in
      Ok (true,
          {| dataSets_ := <[dataSetId := dataSet']> (dataSets_ m);
             dataSetNameMap_ := dataSetNameMap_ m;
             nextDataSetId_ := nextDataSetId_ m;
             nextDataItemId_ := nextDataItemId_ m |})
  end.

(** [std::remove_if] keeps, in order, the items whose id differs; the
    returned iterator is [end()] exactly when nothing was dropped. *)
Definition removeDataItem (now : string) (m : TestDataManager) (dataSetId dataItemId : Z)
  : result (bool * TestDataManager) :=
  dataSet ← checked_dataSet m dataSetId;
  let kept := List.filter (fun item => negb (Z.eqb (item_id item) dataItemId)) (items dataSet) in
  if (length kept <? length (items dataSet))%nat then
    let dataSet' :=
      {| id := id dataSet; name := name dataSet; description := description dataSet;
         project_id := project_id dataSet; items := kept;
         created_at := created_at dataSet; last_modified := now |} in
    Ok (true,
        {| dataSets_ := <[dataSetId := dataSet']> (dataSets_ m);
           dataSetNameMap_ := dataSetNameMap_ m;
           nextDataSetId_ := nextDataSetId_ m;
           nextDataItemId_ := nextDataItemId_ m |})
  else Ok (false, m).

Definition removeDataItembyName (now : string) (m : TestDataManager) (dataSetId : Z)
    (itemName : string) : result (bool * TestDataManager) :=
  _ ← checkDataSetExists m dataSetId;
  dataItem ← getDataItemByName m dataSetId itemName;
  removeDataItem now m dataSetId (item_id dataItem).

(** What the operations above keep on top of [consistent]: every stored
    dataset sits under its own id and is listed under its own name, so that
    names and ids of datasets correspond one to one. *)
Definition indexed (m : TestDataManager) : Prop :=
  forall i ds, dataSets_ m !! i = Some ds ->
    id ds = i /\ dataSetNameMap_ m !! name ds = Some i.

End TestData.

(** ** IAutomationPlugin.h *)

Module StepParam.
Record t : Type := {
  action : string;
  target : string;
  value : string;
  params : gmap string string;
  timeout : Z
}.
(** The member initialisers of the struct. *)
Definition default : t :=
  {| action := EmptyString; target := EmptyString; value := EmptyString;
     params := ∅; timeout := 3000 |}.
End StepParam.

(** [ExecutionTimeMs], a wall-clock reading, is left out. *)
Module StepResult.
Record t : Type := {
  success : bool;
  message : string;
  error_code : Z;
  extra_data : string;
  err_info : string;
  action : string
}.
Definition default : t :=
  {| success := false; message := EmptyString; error_code := 0;
     extra_data := EmptyString; err_info := EmptyString; action := EmptyString |}.
End StepResult.

(** What has happened so far to modules and plugin instances, oldest first.
    A module is named by the path it was loaded from, an instance by the
    module that created it or by its [name()]. *)
Inductive event : Type :=
| EvLoadLibrary (dllPath : string)
| EvFreeLibrary (hModule : string)
| EvCreate (hModule : string)
| EvDestroy (hModule : string)
| EvInitialize (name : string)
| EvUninitialize (name : string)
| EvExecuteStep (name : string) (param : StepParam.t).

(** An implementation of the interface.  The three hooks are stateful
    foreign code: each may depend on everything that happened before. *)
Module IAutomationPlugin.
Record t : Type := {
  name : string;
  description : string;
  version : string;
  initialize : list event -> outcome bool;
  uninitialize : list event -> outcome unit;
  executeStep : list event -> StepParam.t -> outcome StepResult.t;
  supportedActions : list string
}.
End IAutomationPlugin.

(** ** PluginManager (IPluginManager.h, PluginManager.h, PluginManager.cpp) *)

Module PluginManager.

(** What [GetProcAddress] finds in a loaded module. *)
Record module : Type := {
  createPlugin : option (option IAutomationPlugin.t);  (* the export; its call may return nullptr *)
  destroyPlugin : bool                                  (* the export is present *)
}.

(** The file system and loader as the manager sees them. *)
Record system : Type := {
  PathFileExistsA : string -> bool;
  LoadLibraryA : string -> option module
}.

(** [name] and [version] of the struct are never assigned and stay empty;
    [createFunc] and [destroyFunc] are those of [hModule]. *)
Record PluginHandle : Type := {
  hModule : string;
  plugin : option IAutomationPlugin.t   (* the unique_ptr; [None] once released *)
}.

(** The registry [plugins_] and the history of the world around it. *)
Record world : Type := {
  plugins_ : gmap string PluginHandle;
  trace : list event
}.

Definition emit (ev : event) (w : world) : world :=
  {| plugins_ := plugins_ w; trace := trace w ++ [ev] |}.

Definition validatePlugin (plugin : option IAutomationPlugin.t) : bool :=
  match plugin with
  | None => false
  | Some p => negb (String.eqb (IAutomationPlugin.name p) EmptyString)
  end.

Definition hasPlugin (w : world) (pluginName : string) : bool :=
  bool_decide (is_Some (plugins_ w !! pluginName)).

Definition getPlugin (w : world) (pluginName : string) : option IAutomationPlugin.t :=
  match plugins_ w !! pluginName with
  | Some handle => plugin handle
  | None => None
  end.

(** [destroyFunc(plugin); FreeLibrary(hModule); return false;] *)
Definition reject (dllPath : string) (w : world) : result bool * world :=
  (Ok false, emit (EvFreeLibrary dllPath) (emit (EvDestroy dllPath) w)).

Definition loadPlugin (sys : system) (dllPath : string) (w : world) : result bool * world :=
  if negb (PathFileExistsA sys dllPath) then (Ok false, w)
  else
    match LoadLibraryA sys dllPath with
    | None => (Ok false, w)
    | Some md =>
        let w := emit (EvLoadLibrary dllPath) w in
        match createPlugin md, destroyPlugin md with
        | Some createFunc, true =>
            let w := emit (EvCreate dllPath) w in
            match createFunc with
            | None => (Ok false, emit (EvFreeLibrary dllPath) w)
            | Some p =>
                if negb (validatePlugin (Some p)) then reject dllPath w
                else
                  let pluginName := IAutomationPlugin.name p in
                  if hasPlugin w pluginName then reject dllPath w
                  else
                    let w1 := emit (EvInitialize pluginName) w in
                    match IAutomationPlugin.initialize p (trace w) with
                    | Raises e => (Throw e, w1)
                    | Returns false => reject dllPath w1
                    | Returns true =>
                        let handle := {| hModule := dllPath; plugin := Some p |} in
                        (Ok true,
                         {| plugins_ := <[pluginName := handle]> (plugins_ w1);
                            trace := trace w1 |})
                    end
            end
        | _, _ => (Ok false, emit (EvFreeLibrary dllPath) w)
        end
    end.

(** The three statements both unload functions run on one handle:
    [plugin->uninitialize(); destroyFunc(plugin.release()); FreeLibrary(hModule);] *)
Definition unload_handle (pluginName : string) (handle : PluginHandle) (w : world)
  : result unit * world :=
  match plugin handle with
  | None => (Undefined, w)
  | Some p =>
      let w1 := emit (EvUninitialize (IAutomationPlugin.name p)) w in
      match IAutomationPlugin.uninitialize p (trace w) with
      | Raises e => (Throw e, w1)
      | Returns _ =>
          let released := {| hModule := hModule handle; plugin := None |} in
          (Ok tt,
           {| plugins_ := <[pluginName := released]> (plugins_ w1);
              trace := trace w1 ++ [EvDestroy (hModule handle); EvFreeLibrary (hModule handle)] |})
      end
  end.

Definition unloadPlugin (pluginName : string) (w : world) : result bool * world :=
  match plugins_ w !! pluginName with
  | None => (Ok false, w)
  | Some handle =>
      match unload_handle pluginName handle w with
      | (Ok _, w') =>
          (Ok true, {| plugins_ := delete pluginName (plugins_ w'); trace := trace w' |})
      | (Throw e, w') => (Throw e, w')
      | (Undefined, w') => (Undefined, w')
      end
  end.

(** [for (auto& pair : plugins_) { ... }] over the map's iteration sequence. *)
Fixpoint unload_loop (pairs : list (string * PluginHandle)) (w : world) : result unit * world :=
  match pairs with
  | [] => (Ok tt, w)
  | (pluginName, handle) :: rest =>
      match unload_handle pluginName handle w with
      | (Ok _, w') => unload_loop rest w'
      | stop => stop
      end
  end.

(** [std::unordered_map] fixes no iteration order: [pairs] is the sequence
    in which the loop meets the entries of [plugins_]. *)
Definition unloadAllPlugins (pairs : list (string * PluginHandle)) (w : world)
  : result unit * world :=
  match unload_loop pairs w with
  | (Ok _, w') => (Ok tt, {| plugins_ := ∅; trace := trace w' |})
  | stop => stop
  end.


(** The vector comes in the map's order, of which [map_to_list] is one. *)
Definition getPlugins (w : world) : list (option IAutomationPlugin.t) :=
  (fun pair => plugin pair.2) <$> map_to_list (plugins_ w).

(** What [loadPlugin] and [unloadPlugin] maintain: every handle of the
    registry owns an instance, filed under that instance's name. *)
Definition registry_ok (w : world) : Prop :=
  forall n handle, plugins_ w !! n = Some handle ->
    exists p, plugin handle = Some p /\ IAutomationPlugin.name p = n.

(** The events one handle's unloading leaves behind. *)
Definition unload_events (pair : string * PluginHandle) : list event :=
  [EvUninitialize pair.1; EvDestroy (hModule pair.2); EvFreeLibrary (hModule pair.2)].

(** [getPluginInfos]: [infos[plugin->name()] = plugin->version();] for each
    handle of the iteration sequence; a released handle would be a null
    dereference. *)
Fixpoint infos_loop (pairs : list (string * PluginHandle)) (infos : gmap string string)
  : result (gmap string string) :=
  match pairs with
  | [] => Ok infos
  | (_, handle) :: rest =>
      match plugin handle with
      | None => Undefined
      | Some p =>
          infos_loop rest (<[IAutomationPlugin.name p := IAutomationPlugin.version p]> infos)
      end
  end.

Definition getPluginInfos (w : world) : result (gmap string string) :=
  infos_loop (map_to_list (plugins_ w)) ∅.

(** What [fs::directory_iterator] reports about one entry. *)
Record directory_entry : Type := {
  path : string;
  is_regular_file : bool;
  extension : string
}.

(** [std::filesystem] as the manager sees it. *)
Record filesystem : Type := {
  is_directory : string -> bool;     (* [fs::exists(p) && fs::is_directory(p)] *)
  directory_iterator : string -> list directory_entry
}.

(** The loop of [loadPluginsFromDirectory]; [loadedCount++] on an [int].
    Errors of the directory iteration itself are left out. *)
Fixpoint load_loop (sys : system) (entries : list directory_entry) (loadedCount : Z)
    (w : world) : result Z * world :=
  match entries with
  | [] => (Ok loadedCount, w)
  | entry :: rest =>
      if is_regular_file entry && String.eqb (extension entry) ".dll" then
        match loadPlugin sys (path entry) w with
        | (Ok true, w') =>
            if loadedCount =? INT_MAX then (Undefined, w')
            else load_loop sys rest (loadedCount + 1) w'
        | (Ok false, w') => load_loop sys rest loadedCount w'
        | (Throw e, w') => (Throw e, w')
        | (Undefined, w') => (Undefined, w')
        end
      else load_loop sys rest loadedCount w
  end.

Definition loadPluginsFromDirectory (fsys : filesystem) (sys : system) (pluginDir : string)
    (w : world) : result Z * world :=
  if negb (is_directory fsys pluginDir) then (Ok 0, w)
  else load_loop sys (directory_iterator fsys pluginDir) 0 w.

(** The entries the loop hands to [loadPlugin]. *)
Definition is_dll (entry : directory_entry) : bool :=
  is_regular_file entry && String.eqb (extension entry) ".dll".

End PluginManager.

(** ** TestEngine (TestEngine.h, TestEngine.cpp) *)

Module TestStep.
Record t : Type := {
  id : Z;
  plugin_name : string;
  param : StepParam.t;
  is_optional : bool;
  stop_on_failure : bool
}.
Definition default : t :=
  {| id := 0; plugin_name := EmptyString; param := StepParam.default;
     is_optional := false; stop_on_failure := true |}.
End TestStep.

Module TestCase.
Record t : Type := {
  id : Z;
  name : string;
  description : string;
  steps : list TestStep.t;
  project_id : Z;
  setup_script : string;
  teardown_script : string;
  created_at : string;
  last_modified : string;
  data_set_ids : list Z
}.
Definition default : t :=
  {| id := 0; name := EmptyString; description := EmptyString; steps := [];
     project_id := 0; setup_script := EmptyString; teardown_script := EmptyString;
     created_at := EmptyString; last_modified := EmptyString; data_set_ids := [] |}.
End TestCase.

Module StepExecutionResult.
Record t : Type := {
  step_id : Z;
  result : StepResult.t
}.
End StepExecutionResult.

Module TestExecutionResult.
Record t : Type := {
  case_id : Z;
  case_name : string;
  overall_success : bool;
  step_results : list StepExecutionResult.t;
  error_message : string
}.
End TestExecutionResult.

Module TestEngine.
Import PluginManager.

(** The engine's members: [plugin_manager_] is the registry inside the
    world, [testDataManager_] the data store.  Calls of [log] and the
    [verbose_logging_] flag only feed [execution_log_] and are left out. *)
Record engine : Type := {
  testDataManager_ : TestData.TestDataManager
}.

(** A default-constructed [StepResult] with the three fields the error
    branches assign. *)
Definition failure (error_code : Z) (message : string) : StepResult.t :=
  {| StepResult.success := false; StepResult.message := message;
     StepResult.error_code := error_code; StepResult.extra_data := EmptyString;
     StepResult.err_info := EmptyString; StepResult.action := EmptyString |}.

Definition is_supported (action : string) (supportedActions : list string) : bool :=
  existsb (String.eqb action) supportedActions.

(** The two handlers: [catch (const std::exception &e)] and [catch (...)]. *)
Definition caught (e : exn) : StepResult.t :=
  match e with
  | TestDataException w | StdException w =>
      failure (-3) ("Exception occurred: " +:+ w)
  | UnknownException => failure (-4) "Unknown exception occurred"
  end.

Definition executeTestStep (eng : engine) (step : TestStep.t) (w : world)
  : StepExecutionResult.t * world :=
  let '(r, w') :=
    match getPlugin w (TestStep.plugin_name step) with
    | None =>
        (failure (-1) ("Plugin not found: " +:+ TestStep.plugin_name step), w)
    | Some plugin =>
        if negb (is_supported (StepParam.action (TestStep.param step))
                   (IAutomationPlugin.supportedActions plugin))
        then
          (failure (-2)
             ("Plugin " +:+ TestStep.plugin_name step +:+ " does not support action: "
              +:+ StepParam.action (TestStep.param step)), w)
        else
          let w1 := emit (EvExecuteStep (IAutomationPlugin.name plugin) (TestStep.param step)) w in
          match IAutomationPlugin.executeStep plugin (trace w) (TestStep.param step) with
          | Returns r => (r, w1)
          | Raises e => (caught e, w1)
          end
    end in
  ({| StepExecutionResult.step_id := TestStep.id step; StepExecutionResult.result := r |}, w').

(** Both hooks are stubs in the source. *)
Definition executeSetup (setup_script : string) : bool := true.
Definition executeTeardown (teardown_script : string) : unit := tt.

(** [for (const auto &step : testCase.steps) { ...; if (...) break; }] *)
Fixpoint run_steps (eng : engine) (steps : list TestStep.t)
    (step_results : list StepExecutionResult.t) (w : world)
  : list StepExecutionResult.t * world :=
  match steps with
  | [] => (step_results, w)
  | step :: rest =>
      let '(stepResult, w') := executeTestStep eng step w in
      let step_results' := step_results ++ [stepResult] in
      if negb (StepResult.success (StepExecutionResult.result stepResult))
         && TestStep.stop_on_failure step
      then (step_results', w')
      else run_steps eng rest step_results' w'
  end.

(** The loop that settles [overall_success]; [i] is
    [&stepResult - &result.step_results[0]], and [testCase.steps[i]] is an
    unchecked vector access. *)
Fixpoint overall_loop (steps : list TestStep.t) (i : nat)
    (step_results : list StepExecutionResult.t) : result bool :=
  match step_results with
  | [] => Ok true
  | stepResult :: rest =>
      if StepResult.success (StepExecutionResult.result stepResult)
      then overall_loop steps (S i) rest
      else
        match steps !! i with
        | None => Undefined
        | Some step =>
            if negb (TestStep.is_optional step) then Ok false
            else overall_loop steps (S i) rest
        end
  end.

(** Inside the [try] nothing throws: the hooks are stubs and
    [executeTestStep] has caught everything, so the two handlers of
    [executeTestCase] are never entered. *)
Definition executeTestCase (eng : engine) (testCase : TestCase.t) (w : world)
  : result TestExecutionResult.t * world :=
  let mk ok rs msg :=
    {| TestExecutionResult.case_id := TestCase.id testCase;
       TestExecutionResult.case_name := TestCase.name testCase;
       TestExecutionResult.overall_success := ok;
       TestExecutionResult.step_results := rs;
       TestExecutionResult.error_message := msg |} in
  if negb (String.eqb (TestCase.setup_script testCase) EmptyString)
     && negb (executeSetup (TestCase.setup_script testCase))
  then (Ok (mk false [] "Setup script failed"), w)
  else
    let '(step_results, w') := run_steps eng (TestCase.steps testCase) [] w in
    let _ := if negb (String.eqb (TestCase.teardown_script testCase) EmptyString)
             then executeTeardown (TestCase.teardown_script testCase) else tt in
    match overall_loop (TestCase.steps testCase) 0 step_results with
    | Ok ok => (Ok (mk ok step_results EmptyString), w')
    | Throw e => (Throw e, w')
    | Undefined => (Undefined, w')
    end.

(** [for (const auto &testCase : testCases) results.push_back(executeTestCase(testCase));] *)
Fixpoint executeTestCases (eng : engine) (testCases : list TestCase.t) (w : world)
  : result (list TestExecutionResult.t) * world :=
  match testCases with
  | [] => (Ok [], w)
  | testCase :: rest =>
      match executeTestCase eng testCase w with
      | (Ok r, w') =>
          match executeTestCases eng rest w' with
          | (Ok results, w'') => (Ok (r :: results), w'')
          | stop => stop
          end
      | (Throw e, w') => (Throw e, w')
      | (Undefined, w') => (Undefined, w')
      end
  end.

(** The plugin call a step leads to in a given registry, if any. *)
Definition dispatched (w : world) (step : TestStep.t) : list event :=
  match getPlugin w (TestStep.plugin_name step) with
  | Some plugin =>
      if is_supported (StepParam.action (TestStep.param step))
           (IAutomationPlugin.supportedActions plugin)
      then [EvExecuteStep (IAutomationPlugin.name plugin) (TestStep.param step)]
      else []
  | None => []
  end.

End TestEngine.

(** ** AutomationCore::resolveDataReferences (AutomationCore.cpp)

    The facade's own substitution: one scan over [result] from left to
    right, looking for [${], the next [}], and a [.] between them. *)

Module AutomationCore.
Import TestData.

Record core : Type := {
  m_initialized : bool;
  m_dataManager : option TestDataManager
}.

(** [s.substr(pos, n)] *)
Definition substr (s : string) (pos n : nat) : string := Str.take n (Str.drop pos s).

(** The [while] loop over the local [result], here [text]; [pos] is where
    the search for [${] resumes. *)
Fixpoint resolve_loop (fuel : nat) (m : TestDataManager) (text : string) (pos : nat)
  : result string :=
  match fuel with
  | O => Ok text
  | S fuel' =>
      match Str.find text "${" pos with
      | None => Ok text
      | Some pos =>
          match Str.find text "}" pos with
          | None => Ok text
          | Some endPos =>
              let ref := substr text (pos + 2) (endPos - pos - 2) in
              match Str.find ref "." 0 with
              | Some dotPos =>
                  let datasetName := substr ref 0 dotPos in
                  let itemName := Str.drop (dotPos + 1) ref in
                  match List.find (fun ds => String.eqb (name ds) datasetName)
                          (getAllDataSets m) with
                  | Some ds =>
                      item ← getDataItemByName m (id ds) itemName;
                      resolve_loop fuel' m
                        (Str.replace text pos (endPos - pos + 1) (item_value item))
                        (pos + Str.len (item_value item))
                  | None => resolve_loop fuel' m text (endPos + 1)
                  end
              | None => resolve_loop fuel' m text (endPos + 1)
              end
          end
      end
  end.

Definition resolveDataReferences (c : core) (text : string) : result string :=
  match m_initialized c, m_dataManager c with
  | true, Some m => resolve_loop (S (Str.len text)) m text 0
  | _, _ => Ok text
  end.

(** The members the plugin queries read.  The plugin manager's registry is
    the one of the world. *)
Record facade : Type := {
  members : core;
  m_pluginManager : bool      (* the pointer is set *)
}.

(** [for (const auto &plugin : plugins) result[plugin->name()] = plugin->version();] *)
Fixpoint infos_of (plugins : list (option IAutomationPlugin.t)) (infos : gmap string string)
  : result (gmap string string) :=
  match plugins with
  | [] => Ok infos
  | None :: _ => Undefined
  | Some plugin :: rest =>
      infos_of rest
        (<[IAutomationPlugin.name plugin := IAutomationPlugin.version plugin]> infos)
  end.

Definition getPluginInfos (c : facade) (w : PluginManager.world)
  : result (gmap string string) :=
  if negb (m_initialized (members c)) || negb (m_pluginManager c) then Ok ∅
  else infos_of (PluginManager.getPlugins w) ∅.

Definition getPluginActions (c : facade) (w : PluginManager.world) (pluginName : string)
  : list string :=
  if negb (m_initialized (members c)) || negb (m_pluginManager c) then []
  else
    match PluginManager.getPlugin w pluginName with
    | None => []
    | Some plugin => IAutomationPlugin.supportedActions plugin
    end.

Definition isPluginAvailable (c : facade) (w : PluginManager.world) (pluginName : string)
  : bool :=
  if negb (m_initialized (members c)) || negb (m_pluginManager c) then false
  else bool_decide (is_Some (PluginManager.getPlugin w pluginName)).

End AutomationCore.

(** ** TestCaseSerializer (TestCaseSerializer.h, TestCaseSerializer.cpp)

    [nlohmann::json] values, one constructor for each [value_t]; an object
    is its key/value pairs with no key twice. *)

Module Json.

(** A [number_float]: the double [m * 2^e], or NaN or an infinity. *)
Inductive double : Type :=
| Finite (m e : Z)
| NotFinite.

(** The integer a finite double is cut down to, toward zero. *)
Definition truncate (x : double) : option Z :=
  match x with
  | Finite m e => Some (if 0 <=? e then m * 2 ^ e else Z.quot m (2 ^ (- e)))
  | NotFinite => None
  end.

#[local] Unset Elimination Schemes.
Inductive json : Type :=
| JNull
| JBool (b : bool)
| JInt (z : Z)                        (* number_integer, an int64 *)
| JString (s : string)
| JArray (elems : list json)
| JObject (fields : list (string * json))
| JUInt (n : Z)                       (* number_unsigned, a uint64 *)
| JFloat (x : double)                 (* number_float *)
| JBinary (bytes : list Z)
| JDiscarded.
#[local] Set Elimination Schemes.

Definition type_name (j : json) : string :=
  match j with
  | JNull => "null"
  | JBool _ => "boolean"
  | JInt _ => "number"
  | JString _ => "string"
  | JArray _ => "array"
  | JObject _ => "object"
  | JUInt _ => "number"
  | JFloat _ => "number"
  | JBinary _ => "binary"
  | JDiscarded => "discarded"
  end.

(** [json::type_error] 302, a [std::exception]. *)
Definition type_error (expected : string) (j : json) : exn :=
  StdException ("[json.exception.type_error.302] type must be " +:+ expected
                +:+ ", but is " +:+ type_name j).

Fixpoint assoc_get (key : string) (fields : list (string * json)) : option json :=
  match fields with
  | [] => None
  | (k, v) :: rest => if String.eqb k key then Some v else assoc_get key rest
  end.

Fixpoint assoc_set (key : string) (v : json) (fields : list (string * json))
  : list (string * json) :=
  match fields with
  | [] => [(key, v)]
  | (k, v0) :: rest =>
      if String.eqb k key then (k, v) :: rest else (k, v0) :: assoc_set key v rest
  end.

(** [j[key] = v]: a null value becomes an object first.  (On a value of
    another type the library throws; the serializer never assigns into
    one.) *)
Definition set (key : string) (v : json) (j : json) : json :=
  match j with
  | JNull => JObject [(key, v)]
  | JObject fields => JObject (assoc_set key v fields)
  | other => other
  end.

(** [j.contains(key)] *)
Definition contains (j : json) (key : string) : bool :=
  match j with
  | JObject fields => bool_decide (is_Some (assoc_get key fields))
  | _ => false
  end.

(** [j[key]] on a const value that holds the key. *)
Definition at_key (j : json) (key : string) : json :=
  match j with
  | JObject fields => default JNull (assoc_get key fields)
  | _ => JNull
  end.

Definition is_array (j : json) : bool :=
  match j with JArray _ => true | _ => false end.

(** [static_cast<int>] of an int64: the low 32 bits, read as signed. *)
Definition to_int32 (z : Z) : Z := (z + 2 ^ 31) mod 2 ^ 32 - 2 ^ 31.

Definition is_int (z : Z) : Prop := - 2 ^ 31 <= z < 2 ^ 31.

(** [static_cast<int>] of a double: its integer part when that is an
    [int], undefined otherwise. *)
Definition float_to_int (x : double) : result Z :=
  match truncate x with
  | Some z => if (- 2 ^ 31 <=? z) && (z <? 2 ^ 31) then Ok z else Undefined
  | None => Undefined
  end.

(** The doubles that conversion is defined on. *)
Definition fits_int (x : double) : Prop := exists z, truncate x = Some z /\ is_int z.

(** The implicit conversions [int x = j], [std::string x = j], [bool x = j]. *)
Definition get_int (j : json) : result Z :=
  match j with
  | JInt z | JUInt z => Ok (to_int32 z)
  | JFloat x => float_to_int x
  | JBool b => Ok (if b then 1 else 0)
  | other => Throw (type_error "number" other)
  end.

Definition get_string (j : json) : result string :=
  match j with
  | JString s => Ok s
  | other => Throw (type_error "string" other)
  end.

Definition get_bool (j : json) : result bool :=
  match j with
  | JBool b => Ok b
  | other => Throw (type_error "boolean" other)
  end.

End Json.

Module TestCaseSerializer.
Import Json.

Definition serializeTestStep (step : TestStep.t) : json :=
  set "stop_on_failure" (JBool (TestStep.stop_on_failure step))
    (set "value" (JString (StepParam.value (TestStep.param step)))
      (set "target" (JString (StepParam.target (TestStep.param step)))
        (set "action" (JString (StepParam.action (TestStep.param step)))
          (set "plugin_name" (JString (TestStep.plugin_name step))
            (set "id" (JInt (TestStep.id step)) JNull))))).

(** [j["steps"] = json::array()] and one [push_back] per step. *)
Definition serializeTestCase (testCase : TestCase.t) : json :=
  set "steps" (JArray (serializeTestStep <$> TestCase.steps testCase))
    (set "project_id" (JInt (TestCase.project_id testCase))
      (set "description" (JString (TestCase.description testCase))
        (set "name" (JString (TestCase.name testCase))
          (set "id" (JInt (TestCase.id testCase)) JNull)))).

(** [if (j.contains(key)) field = j[key];] *)
Definition read_field {A} (get : json -> result A) (j : json) (key : string) (current : A)
  : result A :=
  if contains j key then get (at_key j key) else Ok current.

Definition deserializeTestStep (stepJson : json) : result TestStep.t :=
  let step := TestStep.default in
  id ← read_field get_int stepJson "id" (TestStep.id step);
  plugin_name ← read_field get_string stepJson "plugin_name" (TestStep.plugin_name step);
  action ← read_field get_string stepJson "action" (StepParam.action (TestStep.param step));
  target ← read_field get_string stepJson "target" (StepParam.target (TestStep.param step));
  value ← read_field get_string stepJson "value" (StepParam.value (TestStep.param step));
  stop_on_failure ← read_field get_bool stepJson "stop_on_failure" (TestStep.stop_on_failure step);
  Ok {| TestStep.id := id; TestStep.plugin_name := plugin_name;
        TestStep.param :=
          {| StepParam.action := action; StepParam.target := target;
             StepParam.value := value;
             StepParam.params := StepParam.params (TestStep.param step);
             StepParam.timeout := StepParam.timeout (TestStep.param step) |};
        TestStep.is_optional := TestStep.is_optional step;
        TestStep.stop_on_failure := stop_on_failure |}.

(** [for (const auto& stepJson : j["steps"]) { ...; testCase.steps.push_back(step); }] *)
Fixpoint deserializeSteps (elems : list json) : result (list TestStep.t) :=
  match elems with
  | [] => Ok []
  | stepJson :: rest =>
      step ← deserializeTestStep stepJson;
      steps ← deserializeSteps rest;
      Ok (step :: steps)
  end.

Definition deserializeTestCase (j : json) : result TestCase.t :=
  let testCase := TestCase.default in
  id ← read_field get_int j "id" (TestCase.id testCase);
  name ← read_field get_string j "name" (TestCase.name testCase);
  description ← read_field get_string j "description" (TestCase.description testCase);
  project_id ← read_field get_int j "project_id" (TestCase.project_id testCase);
  steps ← (if contains j "steps" && is_array (at_key j "steps")
           then match at_key j "steps" with
                | JArray elems => deserializeSteps elems
                | _ => Ok []
                end
           else Ok (TestCase.steps testCase));
  Ok {| TestCase.id := id; TestCase.name := name; TestCase.description := description;
        TestCase.steps := steps; TestCase.project_id := project_id;
        TestCase.setup_script := TestCase.setup_script testCase;
        TestCase.teardown_script := TestCase.teardown_script testCase;
        TestCase.created_at := TestCase.created_at testCase;
        TestCase.last_modified := TestCase.last_modified testCase;
        TestCase.data_set_ids := TestCase.data_set_ids testCase |}.

(** What a step and a case come back as after [serializeTestCase] and
    [deserializeTestCase]: the written fields, defaults elsewhere. *)
Definition round_trip_step (step : TestStep.t) : TestStep.t :=
  {| TestStep.id := TestStep.id step; TestStep.plugin_name := TestStep.plugin_name step;
     TestStep.param :=
       {| StepParam.action := StepParam.action (TestStep.param step);
          StepParam.target := StepParam.target (TestStep.param step);
          StepParam.value := StepParam.value (TestStep.param step);
          StepParam.params := ∅; StepParam.timeout := 3000 |};
     TestStep.is_optional := false;
     TestStep.stop_on_failure := TestStep.stop_on_failure step |}.

Definition round_trip (testCase : TestCase.t) : TestCase.t :=
  {| TestCase.id := TestCase.id testCase; TestCase.name := TestCase.name testCase;
     TestCase.description := TestCase.description testCase;
     TestCase.steps := round_trip_step <$> TestCase.steps testCase;
     TestCase.project_id := TestCase.project_id testCase;
     TestCase.setup_script := EmptyString; TestCase.teardown_script := EmptyString;
     TestCase.created_at := EmptyString; TestCase.last_modified := EmptyString;
     TestCase.data_set_ids := [] |}.

(** The [int] members hold 32-bit values. *)
Definition int_fields (testCase : TestCase.t) : Prop :=
  is_int (TestCase.id testCase) /\ is_int (TestCase.project_id testCase)
  /\ Forall (fun step => is_int (TestStep.id step)) (TestCase.steps testCase).

(** [json j = json::array()] and one [push_back] per case. *)
Definition serializeTestCases (testCases : list TestCase.t) : json :=
  JArray (serializeTestCase <$> testCases).

(** [for (const auto& testCaseJson : j) testCases.push_back(deserializeTestCase(testCaseJson));] *)
Fixpoint deserializeCases (elems : list json) : result (list TestCase.t) :=
  match elems with
  | [] => Ok []
  | testCaseJson :: rest =>
      testCase ← deserializeTestCase testCaseJson;
      testCases ← deserializeCases rest;
      Ok (testCase :: testCases)
  end.

Definition deserializeTestCases (j : json) : result (list TestCase.t) :=
  match j with
  | JArray elems => deserializeCases elems
  | _ => Ok []
  end.

(** What every step read from JSON looks like in the members that are not
    written. *)
Definition unwritten_defaults (step : TestStep.t) : Prop :=
  TestStep.is_optional step = false
  /\ StepParam.params (TestStep.param step) = ∅
  /\ StepParam.timeout (TestStep.param step) = 3000.

(** Under [key] sits a floating-point number that no [int] can take. *)
Definition float_beyond_int (j : json) (key : string) : Prop :=
  contains j key = true /\ exists x, at_key j key = JFloat x /\ ~ fits_int x.

(** A reading ends in a value, in a [json::type_error], or, for the cause
    [U], in the undefined. *)
Definition reads {A} (P : A -> Prop) (U : Prop) (r : result A) : Prop :=
  match r with
  | Ok a => P a
  | Throw e => exists expected v, e = type_error expected v
  | Undefined => U
  end.

(** Where a case holds a number that [deserializeTestCase] cannot convert:
    under its [id], its [project_id], or the [id] of one of its steps. *)
Definition unconvertible (j : json) : Prop :=
  float_beyond_int j "id" \/ float_beyond_int j "project_id"
  \/ exists elems stepJson,
       contains j "steps" = true /\ at_key j "steps" = JArray elems
       /\ stepJson ∈ elems /\ float_beyond_int stepJson "id".

End TestCaseSerializer.

(** ** Win32Plugin (Plugins/TestCompnentPlugin/Win32Plugin.cpp)

    The plugin's own members.  The C library's number parsing and the
    Win32 calls are what the plugin is given; window handles are numbers
    and [0] is the null handle. *)

Module Win32Plugin.

(** What [std::stoull] and [std::stoi] do with a text. *)
Inductive parsed : Type :=
| Parsed (z : Z)
| invalid_argument (what : string)
| out_of_range (what : string).

Record os : Type := {
  stoull16 : string -> parsed;            (* [std::stoull(s, nullptr, 16)] *)
  stoi : string -> parsed;
  IsWindow : Z -> bool;
  IsWindowVisible : Z -> bool;
  GetDlgItem : Z -> Z -> Z;
  SendMessage_BM_CLICK : Z -> Z;          (* the [BOOL clickResult] *)
  GetLastError : Z;
  GetClassName : Z -> string;
  SetWindowText : Z -> string -> bool;
  GetWindowText : Z -> string             (* the title copied; [titleLen] is its length *)
}.

Record state : Type := {
  m_isInitialized : bool;
  m_targetWindow : Z
}.

(** A freshly constructed plugin. *)
Definition created : state := {| m_isInitialized := false; m_targetWindow := 0 |}.

Definition name : string := "Win32AutomationPlugin".
Definition version : string := "1.0.0".
Definition supportedActions : list string :=
  ["Win32_Click"; "Win32_SetText"; "Win32_GetWindowTitle"].

(** The file's only export is [CreatePluginInstance]: [GetProcAddress]
    finds neither [createPlugin] nor [destroyPlugin] in its module. *)
Definition exports : PluginManager.module :=
  {| PluginManager.createPlugin := None; PluginManager.destroyPlugin := false |}.

Definition initialize (s : state) : bool * state :=
  if m_isInitialized s then (true, s)
  else (true, {| m_isInitialized := true; m_targetWindow := m_targetWindow s |}).

Definition uninitialize (s : state) : state :=
  if negb (m_isInitialized s) then s
  else {| m_isInitialized := false; m_targetWindow := 0 |}.

(** A default-constructed [StepResult] with [message] and [err_info] set. *)
Definition failed (message err_info : string) : StepResult.t :=
  {| StepResult.success := false; StepResult.message := message;
     StepResult.error_code := 0; StepResult.extra_data := EmptyString;
     StepResult.err_info := err_info; StepResult.action := EmptyString |}.

Definition succeeded (message extra_data : string) : StepResult.t :=
  {| StepResult.success := true; StepResult.message := message;
     StepResult.error_code := 0; StepResult.extra_data := extra_data;
     StepResult.err_info := EmptyString; StepResult.action := EmptyString |}.

(** The loop over [requiredParams]: the first one that is absent or empty. *)
Fixpoint missing_param (requiredParams : list string) (params : gmap string string)
  : option string :=
  match requiredParams with
  | [] => None
  | param :: rest =>
      match params !! param with
      | None => Some param
      | Some v => if String.eqb v EmptyString then Some param else missing_param rest params
      end
  end.

(** [params.at(key)] on a key the loop has found. *)
Definition at_ (params : gmap string string) (key : string) : string :=
  default EmptyString (params !! key).

Definition IsWindowValid (o : os) (hwnd : Z) : bool :=
  negb (hwnd =? 0) && IsWindow o hwnd && IsWindowVisible o hwnd.

(** The [try] block of the two control operations: both conversions, of
    which only [std::invalid_argument] is caught. *)
Definition convert (o : os) (params : gmap string string)
    (k : Z -> Z -> outcome StepResult.t) : outcome StepResult.t :=
  match stoull16 o (at_ params "WindowHandle") with
  | invalid_argument what => Returns (failed "Invalid parameter format" ("Error: " +:+ what))
  | out_of_range what => Raises (StdException what)
  | Parsed hwnd =>
      match stoi o (at_ params "ControlId") with
      | invalid_argument what =>
          Returns (failed "Invalid parameter format" ("Error: " +:+ what))
      | out_of_range what => Raises (StdException what)
      | Parsed controlId => k hwnd controlId
      end
  end.

Definition SimulateButtonClick (o : os) (params : gmap string string)
  : outcome StepResult.t :=
  match missing_param ["WindowHandle"; "ControlId"] params with
  | Some param => Returns (failed "Missing required parameter" ("Parameter: " +:+ param))
  | None =>
      convert o params (fun hwnd controlId =>
        if negb (IsWindowValid o hwnd)
        then Returns (failed "Invalid window handle"
                        ("WindowHandle: " +:+ at_ params "WindowHandle"))
        else
          let hControl := GetDlgItem o hwnd controlId in
          if hControl =? 0
          then Returns (failed "Control not found"
                          ("ControlId: " +:+ at_ params "ControlId" +:+ ", WindowHandle: "
                           +:+ at_ params "WindowHandle"))
          else if SendMessage_BM_CLICK o hControl =? 0
          then Returns (failed "Click operation failed"
                          ("SendMessage(BM_CLICK) returned 0, ErrorCode: "
                           +:+ Str.to_string (GetLastError o)))
          else Returns (succeeded "Button click success" (at_ params "ControlId")))
  end.

Definition SetTextBoxContent (o : os) (params : gmap string string)
  : outcome StepResult.t :=
  match missing_param ["WindowHandle"; "ControlId"; "Text"] params with
  | Some param => Returns (failed "Missing required parameter" ("Parameter: " +:+ param))
  | None =>
      let text := at_ params "Text" in
      convert o params (fun hwnd controlId =>
        if negb (IsWindowValid o hwnd)
        then Returns (failed "Invalid window handle"
                        ("WindowHandle: " +:+ at_ params "WindowHandle"))
        else
          let hControl := GetDlgItem o hwnd controlId in
          if hControl =? 0
          then Returns (failed "Control not found"
                          ("ControlId: " +:+ at_ params "ControlId"))
          else if negb (String.eqb (GetClassName o hControl) "EDIT")
          then Returns (failed "Control is not a text box"
                          ("Control class name: " +:+ GetClassName o hControl))
          else if negb (SetWindowText o hControl text)
          then Returns (failed "Set text failed"
                          ("ErrorCode: " +:+ Str.to_string (GetLastError o)))
          else Returns (succeeded "Set text success" text))
  end.

Definition GetWindowTitle (o : os) (params : gmap string string)
  : outcome StepResult.t :=
  match missing_param ["WindowHandle"] params with
  | Some param => Returns (failed "Missing required parameter" ("Parameter: " +:+ param))
  | None =>
      match stoull16 o (at_ params "WindowHandle") with
      | invalid_argument what =>
          Returns (failed "Invalid WindowHandle format" ("Error: " +:+ what))
      | out_of_range what => Raises (StdException what)
      | Parsed hwnd =>
          if negb (IsWindowValid o hwnd)
          then Returns (failed "Invalid window handle"
                          ("WindowHandle: " +:+ at_ params "WindowHandle"))
          else
            let windowTitle := GetWindowText o hwnd in
            if (Str.len windowTitle =? 0)%nat && negb (GetLastError o =? 0)
            then Returns (failed "Get window title failed"
                            ("ErrorCode: " +:+ Str.to_string (GetLastError o)))
            else Returns (succeeded "Get window title success" windowTitle)
      end
  end.

(** [for (const auto& op : supportedOps) opsStr += op + ", ";] and the
    [substr] that drops the last separator. *)
Definition ops_text (supportedOps : list string) : string :=
  let opsStr := fold_left (fun opsStr op => opsStr +:+ op +:+ ", ") supportedOps EmptyString in
  Str.take (Str.len opsStr - 2) opsStr.

Definition executeStep (o : os) (s : state) (param : StepParam.t) : outcome StepResult.t :=
  let guard message err_info :=
    {| StepResult.success := false; StepResult.message := message;
       StepResult.error_code := 0; StepResult.extra_data := EmptyString;
       StepResult.err_info := err_info; StepResult.action := StepParam.action param |} in
  if negb (m_isInitialized s)
  then Returns (guard "Plugin not initialized" "Call Initialize() before executing steps")
  else if negb (existsb (String.eqb (StepParam.target param)) supportedActions)
  then Returns (guard "Unsupported operation"
                  ("Operation: " +:+ StepParam.target param +:+ ", supported: "
                   +:+ ops_text supportedActions))
  else if String.eqb (StepParam.target param) "Win32_Click"
  then SimulateButtonClick o (StepParam.params param)
  else if String.eqb (StepParam.target param) "Win32_SetText"
  then SetTextBoxContent o (StepParam.params param)
  else if String.eqb (StepParam.target param) "Win32_GetWindowTitle"
  then GetWindowTitle o (StepParam.params param)
  else Returns (guard EmptyString EmptyString).

(** What a step needs in [params] to get past the first check of its
    operation. *)
Definition required (target : string) : list string :=
  if String.eqb target "Win32_Click" then ["WindowHandle"; "ControlId"]
  else if String.eqb target "Win32_SetText" then ["WindowHandle"; "ControlId"; "Text"]
  else ["WindowHandle"].

(** A parameter that is there and not empty. *)
Definition present (params : gmap string string) (key : string) : Prop :=
  exists v, params !! key = Some v /\ v <> EmptyString.

(** What a handler's success tells. *)
Definition handled (o : os) (params : gmap string string) (requiredParams : list string)
    (r : StepResult.t) : Prop :=
  (forall key, key ∈ requiredParams -> present params key)
  /\ (exists hwnd, stoull16 o (at_ params "WindowHandle") = Parsed hwnd
                   /\ IsWindowValid o hwnd = true)
  /\ StepResult.error_code r = 0 /\ StepResult.action r = EmptyString
  /\ StepResult.err_info r = EmptyString.

End Win32Plugin.

(** ** Concrete stores, plugins and cases used to exercise the properties *)

Module Examples.
Import TestData.

Definition from_ok {A} (d : A) (r : result A) : A :=
  match r with Ok a => a | _ => d end.

Definition clock : string := "2025-01-01 00:00:00".

Definition item (n v : string) : TestDataItem :=
  {| item_id := 0; item_name := n; item_type := "string"; item_value := v;
     item_description := EmptyString; item_project_id := 0;
     item_created_at := EmptyString; item_last_modified := EmptyString |}.

Definition dataSet (n : string) : TestDataSet :=
  {| id := 0; name := n; description := EmptyString; project_id := 1; items := [];
     created_at := EmptyString; last_modified := EmptyString |}.

(** One dataset with the given items, built by [createDataSet] and
    [addDataItem]. *)
Definition build_store (setName : string) (pairs : list (string * string))
  : result TestDataManager :=
  '(i, m) ← createDataSet clock TestData.empty (dataSet setName);
  foldl (fun acc kv => m ← acc;
                       '(_, m') ← addDataItem clock m i (item kv.1 kv.2);
                       Ok m')
        (Ok m) pairs.

(** [{A: {x: "5"}}] *)
Definition plain_store : TestDataManager :=
  from_ok TestData.empty (build_store "A" [("x", "5")]).

(** [{A: {x: "${A.y}", y: "5"}}]: the value of [x] is itself a reference. *)
Definition nested_store : TestDataManager :=
  from_ok TestData.empty (build_store "A" [("x", "${A.y}"); ("y", "5")]).

(** [{a}b: {x: "5"}}]: a dataset whose name holds a closing brace. *)
Definition brace_store : TestDataManager :=
  from_ok TestData.empty (build_store "a}b" [("x", "5")]).

(** A plugin that reports what it was handed: [click] succeeds and echoes
    its target, [check] fails, [crash] throws a [std::exception], [abort]
    throws something else. *)
Definition step_done (received : StepParam.t) : StepResult.t :=
  {| StepResult.success := true;
     StepResult.message := "done: " +:+ StepParam.target received;
     StepResult.error_code := 0; StepResult.extra_data := StepParam.value received;
     StepResult.err_info := EmptyString;
     StepResult.action := StepParam.action received |}.

Definition step_failed (received : StepParam.t) : StepResult.t :=
  {| StepResult.success := false; StepResult.message := "no such window";
     StepResult.error_code := 7; StepResult.extra_data := EmptyString;
     StepResult.err_info := "window lookup";
     StepResult.action := StepParam.action received |}.

Definition make_plugin (n : string) (on_uninitialize : outcome unit) : IAutomationPlugin.t :=
  {| IAutomationPlugin.name := n;
     IAutomationPlugin.description := "example plugin";
     IAutomationPlugin.version := "1.0";
     IAutomationPlugin.initialize := fun _ => Returns true;
     IAutomationPlugin.uninitialize := fun _ => on_uninitialize;
     IAutomationPlugin.executeStep := fun _ received =>
       if String.eqb (StepParam.action received) "click" then Returns (step_done received)
       else if String.eqb (StepParam.action received) "check" then Returns (step_failed received)
       else if String.eqb (StepParam.action received) "crash"
            then Raises (StdException "access violation")
            else Raises UnknownException;
     IAutomationPlugin.supportedActions := ["click"; "check"; "crash"; "abort"] |}.

Definition one_plugin_module (p : IAutomationPlugin.t) : PluginManager.module :=
  {| PluginManager.createPlugin := Some (Some p); PluginManager.destroyPlugin := true |}.

(** Three plugin files: [p.dll] and [p_copy.dll] both build a plugin named
    [P]; [q.dll] builds [Q], whose [uninitialize] throws. *)
Definition sys : PluginManager.system :=
  {| PluginManager.PathFileExistsA := fun path =>
       String.eqb path "p.dll" || String.eqb path "p_copy.dll" || String.eqb path "q.dll";
     PluginManager.LoadLibraryA := fun path =>
       if String.eqb path "p.dll" || String.eqb path "p_copy.dll"
       then Some (one_plugin_module (make_plugin "P" (Returns tt)))
       else if String.eqb path "q.dll"
            then Some (one_plugin_module
                         (make_plugin "Q" (Raises (StdException "device busy"))))
            else None |}.

Definition world0 : PluginManager.world :=
  {| PluginManager.plugins_ := ∅; PluginManager.trace := [] |}.

(** The registry after loading [p.dll], then also [q.dll]. *)
Definition world_P : PluginManager.world := (PluginManager.loadPlugin sys "p.dll" world0).2.
Definition world_PQ : PluginManager.world := (PluginManager.loadPlugin sys "q.dll" world_P).2.


(** An engine over the store [{A: {x: "5"}}]. *)
Definition engine_plain : TestEngine.engine :=
  {| TestEngine.testDataManager_ := plain_store |}.

Definition step (i : Z) (pluginName act tgt : string) (optional stop : bool) : TestStep.t :=
  {| TestStep.id := i; TestStep.plugin_name := pluginName;
     TestStep.param :=
       {| StepParam.action := act; StepParam.target := tgt;
          StepParam.value := EmptyString; StepParam.params := ∅;
          StepParam.timeout := 3000 |};
     TestStep.is_optional := optional; TestStep.stop_on_failure := stop |}.

Definition case_of (steps : list TestStep.t) : TestCase.t :=
  {| TestCase.id := 1; TestCase.name := "example case";
     TestCase.description := "three steps"; TestCase.steps := steps;
     TestCase.project_id := 1; TestCase.setup_script := "setup.lua";
     TestCase.teardown_script := "teardown.lua";
     TestCase.created_at := clock; TestCase.last_modified := clock;
     TestCase.data_set_ids := [1] |}.

(** A step whose target is a reference into the store. *)
Definition reference_step : TestStep.t := step 1 "P" "click" "${A.x}" false true.

(** Three steps, the second of which fails with [stop_on_failure] set:
    as a mandatory step, and as an optional one. *)
Definition case_stop : TestCase.t :=
  case_of [step 1 "P" "click" "Edit" false true;
           step 2 "P" "check" "Edit" false true;
           step 3 "P" "click" "Edit" false true].

Definition case_optional_stop : TestCase.t :=
  case_of [step 1 "P" "click" "Edit" false true;
           step 2 "P" "check" "Edit" true true;
           step 3 "P" "click" "Edit" false true].

(** A plugin directory: the three plugin files, a text file, and a
    directory whose name ends in [.dll]. *)
Definition entry (p ext : string) (regular : bool) : PluginManager.directory_entry :=
  {| PluginManager.path := p; PluginManager.is_regular_file := regular;
     PluginManager.extension := ext |}.

Definition fsys : PluginManager.filesystem :=
  {| PluginManager.is_directory := fun p => String.eqb p "plugins";
     PluginManager.directory_iterator := fun p =>
       if String.eqb p "plugins"
       then [entry "plugins/p.dll" ".dll" true; entry "plugins/notes.txt" ".txt" true;
             entry "plugins/p_copy.dll" ".dll" true; entry "plugins/old.dll" ".dll" false;
             entry "plugins/q.dll" ".dll" true]
       else [] |}.

(** The files of [sys], seen under [plugins/]. *)
Definition sys_plugins : PluginManager.system :=
  {| PluginManager.PathFileExistsA := fun path =>
       Str.starts_with "plugins/" path
       && PluginManager.PathFileExistsA sys (Str.drop 8 path);
     PluginManager.LoadLibraryA := fun path =>
       if Str.starts_with "plugins/" path
       then PluginManager.LoadLibraryA sys (Str.drop 8 path)
       else None |}.

(** A desktop with one visible window, handle [0x10], that holds an edit
    control with id [1]; [BM_CLICK] is answered with a non-zero value. *)
Definition desktop : Win32Plugin.os :=
  {| Win32Plugin.stoull16 := fun s =>
       if String.eqb s "0x10" then Win32Plugin.Parsed 16
       else if String.eqb s "0x10000000000000000"
            then Win32Plugin.out_of_range "stoull argument out of range"
            else Win32Plugin.invalid_argument "invalid stoull argument";
     Win32Plugin.stoi := fun s =>
       if String.eqb s "1" then Win32Plugin.Parsed 1
       else Win32Plugin.invalid_argument "invalid stoi argument";
     Win32Plugin.IsWindow := fun hwnd => hwnd =? 16;
     Win32Plugin.IsWindowVisible := fun _ => true;
     Win32Plugin.GetDlgItem := fun hwnd controlId =>
       if (hwnd =? 16) && (controlId =? 1) then 17 else 0;
     Win32Plugin.SendMessage_BM_CLICK := fun _ => 1;
     Win32Plugin.GetLastError := 0;
     Win32Plugin.GetClassName := fun _ => "EDIT";
     Win32Plugin.SetWindowText := fun _ _ => true;
     Win32Plugin.GetWindowText := fun _ => "Editor" |}.

Definition win32_ready : Win32Plugin.state := (Win32Plugin.initialize Win32Plugin.created).2.

(** The Win32 plugin behind the interface, initialized, on that desktop. *)
Definition win32 : IAutomationPlugin.t :=
  {| IAutomationPlugin.name := Win32Plugin.name;
     IAutomationPlugin.description := EmptyString;
     IAutomationPlugin.version := Win32Plugin.version;
     IAutomationPlugin.initialize := fun _ => Returns true;
     IAutomationPlugin.uninitialize := fun _ => Returns tt;
     IAutomationPlugin.executeStep := fun _ param =>
       Win32Plugin.executeStep desktop win32_ready param;
     IAutomationPlugin.supportedActions := Win32Plugin.supportedActions |}.

(** A loader that finds the Win32 plugin's module under every path. *)
Definition win32_sys : PluginManager.system :=
  {| PluginManager.PathFileExistsA := fun _ => true;
     PluginManager.LoadLibraryA := fun _ => Some Win32Plugin.exports |}.

(** A registry that holds the plugin all the same. *)
Definition world_W : PluginManager.world :=
  {| PluginManager.plugins_ :=
       {[ Win32Plugin.name := {| PluginManager.hModule := "win32.dll";
                                 PluginManager.plugin := Some win32 |} ]};
     PluginManager.trace := [] |}.

(** A step for the Win32 plugin. *)
Definition win32_step (act tgt : string) (ps : list (string * string)) : TestStep.t :=
  {| TestStep.id := 1; TestStep.plugin_name := Win32Plugin.name;
     TestStep.param :=
       {| StepParam.action := act; StepParam.target := tgt;
          StepParam.value := EmptyString; StepParam.params := list_to_map ps;
          StepParam.timeout := 3000 |};
     TestStep.is_optional := false; TestStep.stop_on_failure := true |}.

End Examples.

(** * Properties *)

(** ** Strings and the reference pattern *)

Section StringFacts.

Lemma append_nil (t : string) : EmptyString +:+ t = t.
Proof. reflexivity. Qed.

Lemma append_cons c (s t : string) : String c s +:+ t = String c (s +:+ t).
Proof. reflexivity. Qed.

Lemma append_empty_r (s : string) : s +:+ EmptyString = s.
Proof. induction s as [|c s IH]; [reflexivity | now rewrite append_cons, IH]. Qed.

Lemma append_assoc (a b c : string) : (a +:+ b) +:+ c = a +:+ (b +:+ c).
Proof. induction a as [|x a IH]; [reflexivity | now rewrite !append_cons, IH]. Qed.

Lemma length_append (a b : string) :
  String.length (a +:+ b) = (String.length a + String.length b)%nat.
Proof.
  induction a as [|x a IH]; [reflexivity |].
  rewrite append_cons. simpl. now rewrite IH.
Qed.

Lemma span_split keep s run rest :
  Str.span keep s = (run, rest) -> s = run +:+ rest.
Proof.
  revert run rest. induction s as [|c s IH]; simpl; intros run rest H.
  - now inversion H.
  - destruct (keep c).
    + destruct (Str.span keep s) as [run' rest'] eqn:E.
      inversion H; subst. rewrite append_cons. f_equal. now apply IH.
    + now inversion H.
Qed.

(** The run holds only kept characters. *)
Lemma span_run keep s run rest c :
  Str.span keep s = (run, rest) -> Str.mem c run = true -> keep c = true.
Proof.
  revert run rest. induction s as [|d s IH]; simpl; intros run rest H Hm.
  - inversion H; subst. discriminate.
  - destruct (keep d) eqn:Kd.
    + destruct (Str.span keep s) as [run' rest'] eqn:E.
      inversion H; subst. simpl in Hm.
      apply orb_true_iff in Hm as [Hm|Hm].
      * apply Ascii.eqb_eq in Hm. now subst.
      * eapply IH; eauto.
    + inversion H; subst. discriminate.
Qed.

(** What follows the run starts with a character that is not kept. *)
Lemma span_stop keep s run d rest :
  Str.span keep s = (run, String d rest) -> keep d = false.
Proof.
  revert run. induction s as [|c s IH]; simpl; intros run H.
  - inversion H.
  - destruct (keep c) eqn:Kc.
    + destruct (Str.span keep s) as [run' rest'] eqn:E.
      inversion H; subst. eapply IH; eauto.
    + now inversion H; subst.
Qed.

(** A run of kept characters followed by one that is not kept is found whole. *)
Lemma span_app keep run d rest :
  (forall c, Str.mem c run = true -> keep c = true) -> keep d = false ->
  Str.span keep (run +:+ String d rest) = (run, String d rest).
Proof.
  intros Hall Hd. induction run as [|c run IH]; rewrite ?append_nil, ?append_cons; simpl.
  - now rewrite Hd.
  - rewrite (Hall c) by (simpl; now rewrite Ascii.eqb_refl).
    rewrite IH; [reflexivity|].
    intros x Hx. apply Hall. simpl. rewrite Hx. apply orb_true_r.
Qed.

Lemma mem_false_keeps stop s c :
  Str.mem stop s = false -> Str.mem c s = true -> negb (Ascii.eqb c stop) = true.
Proof.
  intros Hs Hc. destruct (Ascii.eqb c stop) eqn:E; [|reflexivity].
  apply Ascii.eqb_eq in E. subst. congruence.
Qed.

Lemma keeps_mem_false stop s :
  (forall c, Str.mem c s = true -> negb (Ascii.eqb c stop) = true) -> Str.mem stop s = false.
Proof.
  intros H. destruct (Str.mem stop s) eqn:E; [|reflexivity].
  specialize (H _ E). now rewrite Ascii.eqb_refl in H.
Qed.

End StringFacts.

Section RegexFacts.
Import Regex.

(** The matcher accepts exactly the strings [${<dataset>.<item>}...] with a
    non-empty dataset free of [.] and a non-empty item free of [}]. *)
Lemma match_here_iff s d i rest :
  match_here s = Some (d, i, rest) <->
  s = String dollar (String lbrace (d +:+ String dot (i +:+ String rbrace rest)))
  /\ d <> EmptyString /\ Str.mem dot d = false
  /\ i <> EmptyString /\ Str.mem rbrace i = false.
Proof.
  split.
  - unfold match_here. destruct s as [|c0 [|c1 s1]]; try discriminate.
    destruct (Ascii.eqb c0 dollar && Ascii.eqb c1 lbrace) eqn:E0; [|discriminate].
    apply andb_true_iff in E0 as [E0 E1].
    apply Ascii.eqb_eq in E0, E1. subst c0 c1.
    destruct (Str.span _ s1) as [g1 r1] eqn:S1.
    destruct g1 as [|a g1]; [discriminate|]. destruct r1 as [|x s2]; [discriminate|].
    destruct (Str.span _ s2) as [g2 r2] eqn:S2.
    destruct g2 as [|b g2]; [discriminate|]. destruct r2 as [|y s3]; [discriminate|].
    intros H. inversion H; subst. clear H.
    pose proof (span_stop _ _ _ _ _ S1) as Hx.
    pose proof (span_stop _ _ _ _ _ S2) as Hy.
    apply negb_false_iff in Hx, Hy. apply Ascii.eqb_eq in Hx, Hy. subst x y.
    repeat split; try discriminate.
    + apply span_split in S1, S2. now rewrite S1, S2.
    + apply keeps_mem_false. intros c Hc. exact (span_run _ _ _ _ _ S1 Hc).
    + apply keeps_mem_false. intros c Hc. exact (span_run _ _ _ _ _ S2 Hc).
  - intros (-> & Hd & Hdm & Hi & Him).
    unfold match_here. rewrite !Ascii.eqb_refl. simpl.
    rewrite span_app; [| intros c Hc; eapply mem_false_keeps; eauto
                       | now rewrite Ascii.eqb_refl].
    destruct d as [|a d]; [congruence|].
    rewrite span_app; [| intros c Hc; eapply mem_false_keeps; eauto
                       | now rewrite Ascii.eqb_refl].
    destruct i as [|b i]; [congruence|]. reflexivity.
Qed.

Lemma regex_match_iff s d i :
  regex_match s = Some (d, i) <-> is_token s d i.
Proof.
  unfold is_token, regex_match, token. split.
  - destruct (match_here s) as [[[g1 g2] rest]|] eqn:E; [|discriminate].
    destruct rest; [|discriminate]. intros H. inversion H; subst.
    now apply match_here_iff in E.
  - intros H. apply (match_here_iff s d i EmptyString) in H. now rewrite H.
Qed.

(** A search result splits the text around the match, and what is left
    to search is shorter. *)
Lemma regex_search_split s m :
  regex_search s = Some m ->
  s = m_prefix m +:+ m_full m +:+ m_suffix m
  /\ m_full m = token (m_1 m) (m_2 m)
  /\ (String.length (m_suffix m) < String.length s)%nat.
Proof.
  revert m. induction s as [|c s IH]; intros m.
  - simpl. discriminate.
  - cbn [regex_search]. destruct (match_here (String c s)) as [[[g1 g2] rest]|] eqn:E.
    + intros H. inversion H; subst; clear H. cbn [m_prefix m_full m_1 m_2 m_suffix].
      apply match_here_iff in E as (E & _). rewrite E. unfold token.
      rewrite append_nil, !append_cons, !append_assoc, !append_cons,
        !append_assoc, !append_cons, append_nil.
      repeat split.
      cbn [String.length]. rewrite !length_append. cbn [String.length].
      rewrite !length_append. cbn [String.length]. lia.
    + destruct (regex_search s) as [m'|] eqn:E'; [|discriminate].
      intros H. inversion H; subst; clear H. cbn [m_prefix m_full m_1 m_2 m_suffix].
      destruct (IH m' eq_refl) as (Hs & Hf & Hl).
      repeat split; [| exact Hf | cbn [String.length]; lia].
      rewrite append_cons. now rewrite <- Hs.
Qed.

End RegexFacts.

(** ** The data store *)

Section StoreFacts.
Import TestData.

Lemma consistent_empty : consistent TestData.empty.
Proof. split; intros ? ? H; simpl in H; now rewrite lookup_empty in H. Qed.

Lemma createDataSet_consistent now m dataSet i m' :
  consistent m -> createDataSet now m dataSet = Ok (i, m') -> consistent m'.
Proof.
  intros [Hn Hi] H. unfold createDataSet in H.
  destruct (dataSetNameMap_ m !! name dataSet) eqn:E; [discriminate|].
  destruct (nextDataSetId_ m <? INT_MAX); [|discriminate].
  inversion H; subst; clear H. split; simpl.
  - intros n j Hl. destruct (decide (n = name dataSet)) as [->|Hne].
    + rewrite lookup_insert_eq in Hl. inversion Hl; subst.
      rewrite lookup_insert_eq. eauto.
    + rewrite lookup_insert_ne in Hl by done.
      destruct (Hn _ _ Hl) as (ds & Hds & Hname).
      exists ds. split; [|done].
      rewrite lookup_insert_ne; [done|]. specialize (Hi _ _ Hds). lia.
  - intros j ds Hl. destruct (decide (nextDataSetId_ m = j)) as [<-|Hne]; [lia|].
    rewrite lookup_insert_ne in Hl by done. specialize (Hi _ _ Hl). lia.
Qed.



Lemma addDataItem_consistent now m dataSetId dataItem i m' :
  consistent m -> addDataItem now m dataSetId dataItem = Ok (i, m') -> consistent m'.
Proof.
  intros [Hn Hi] H. unfold addDataItem, checked_dataSet in H.
  destruct (dataSets_ m !! dataSetId) as [ds0|] eqn:E; [|discriminate].
  simpl in H. destruct (existsb _ _); [discriminate|].
  destruct (nextDataItemId_ m <? INT_MAX); [|discriminate].
  inversion H; subst; clear H. split; simpl.
  - intros n j Hl. destruct (Hn _ _ Hl) as (ds & Hds & Hname).
    destruct (decide (dataSetId = j)) as [->|Hne].
    + rewrite lookup_insert_eq. eexists; split; [done|]. simpl. congruence.
    + rewrite lookup_insert_ne by done. eauto.
  - intros j ds Hl. destruct (decide (dataSetId = j)) as [->|Hne].
    + eauto.
    + rewrite lookup_insert_ne in Hl by done. eauto.
Qed.

(** A lookup by name returns or throws a [TestDataException]. *)
Lemma getDataItemByName_cases m dataSetId itemName :
  match dataSets_ m !! dataSetId with
  | None => getDataItemByName m dataSetId itemName = Throw (no_such_dataSet dataSetId)
  | Some ds =>
      match find_item itemName (items ds) with
      | Some item => getDataItemByName m dataSetId itemName = Ok item
      | None => exists w, getDataItemByName m dataSetId itemName = Throw (TestDataException w)
      end
  end.
Proof.
  unfold getDataItemByName, checked_dataSet.
  destruct (dataSets_ m !! dataSetId) as [ds|]; simpl; [|reflexivity].
  destruct (find_item itemName (items ds)); eauto.
Qed.

Lemma find_item_name itemName l item :
  find_item itemName l = Some item -> item_name item = itemName.
Proof.
  induction l as [|x l IH]; simpl; [discriminate|].
  destruct (String.eqb (item_name x) itemName) eqn:E.
  - intros H. inversion H; subst. now apply String.eqb_eq.
  - exact IH.
Qed.

End StoreFacts.

(** ** Resolving one reference *)

Section ResolveFacts.
Import TestData.

Lemma build_store_consistent setName pairs m :
  Examples.build_store setName pairs = Ok m -> consistent m.
Proof.
  unfold Examples.build_store.
  destruct (createDataSet _ _ _) as [[i m0]| |] eqn:Ec; simpl; try discriminate.
  assert (H0 : forall m1, Ok m0 = Ok m1 -> consistent m1).
  { intros m1 H. inversion H; subst.
    eapply createDataSet_consistent; [apply consistent_empty | exact Ec]. }
  clear Ec. revert H0. generalize (Ok m0). revert m.
  induction pairs as [|kv pairs IH]; simpl; intros m acc Hacc H.
  - now apply Hacc.
  - eapply IH; [|exact H]. intros m1 H1.
    destruct acc as [ma| |]; simpl in H1; try discriminate.
    destruct (addDataItem _ ma i _) as [[j mb]| |] eqn:Ea; simpl in H1; try discriminate.
    inversion H1; subst. eapply addDataItem_consistent; [|exact Ea]. now apply Hacc.
Qed.

Lemma from_ok_consistent setName pairs :
  consistent (Examples.from_ok TestData.empty (Examples.build_store setName pairs)).
Proof.
  destruct (Examples.build_store setName pairs) as [m| |] eqn:E; simpl;
    [ eapply build_store_consistent; eauto | apply consistent_empty.. ].
Qed.

Lemma plain_store_consistent : consistent Examples.plain_store.
Proof. apply from_ok_consistent. Qed.

Lemma errors_distinct r d r' i n :
  invalid_format r <> unknown_dataSet d
  /\ invalid_format r <> unknown_item r' i n
  /\ unknown_dataSet d <> unknown_item r' i n.
Proof. repeat split; discriminate. Qed.

End ResolveFacts.

(** The search of [getDataItemByName], in terms of the list it walks: it
    ends at the first item that carries the name. *)
Lemma find_item_Some itemName l item :
  TestData.find_item itemName l = Some item <->
  exists before after,
    l = before ++ item :: after
    /\ Forall (fun x => TestData.item_name x <> itemName) before
    /\ TestData.item_name item = itemName.
Proof.
  induction l as [|x l IH]; cbn [TestData.find_item].
  - split; [discriminate|]. intros (before & after & H & _). now destruct before.
  - destruct (String.eqb (TestData.item_name x) itemName) eqn:E.
    + apply String.eqb_eq in E. split.
      * intros [= <-]. exists [], l. split_and!; [reflexivity | constructor | exact E].
      * intros (before & after & H & Hb & Hn). destruct before as [|y before].
        -- cbn in H. now injection H as <- _.
        -- cbn in H. injection H as <- _. apply Forall_cons in Hb as [Hy _].
           now destruct Hy.
    + apply String.eqb_neq in E. rewrite IH. split.
      * intros (before & after & -> & Hb & Hn). exists (x :: before), after.
        split_and!; [reflexivity | now constructor | exact Hn].
      * intros (before & after & H & Hb & Hn). destruct before as [|y before].
        -- cbn in H. injection H as -> _. now destruct E.
        -- cbn in H. injection H as <- ->. apply Forall_cons in Hb as [_ Hb].
           exists before, after. auto.
Qed.

Lemma find_item_None itemName l :
  TestData.find_item itemName l = None <->
  Forall (fun x => TestData.item_name x <> itemName) l.
Proof.
  induction l as [|x l IH]; cbn [TestData.find_item].
  - split; [constructor | reflexivity].
  - destruct (String.eqb (TestData.item_name x) itemName) eqn:E.
    + apply String.eqb_eq in E. split; [discriminate|].
      intros H. apply Forall_cons in H as [H _]. now destruct H.
    + apply String.eqb_neq in E. rewrite IH. split.
      * intros H. now constructor.
      * intros H. now apply Forall_cons in H as [_ H].
Qed.

Lemma resolveDataReference_cases (m : TestData.TestDataManager) (reference : string) :
  TestData.consistent m ->
  (forall v, TestData.resolveDataReference m reference = Ok v <->
     exists d i n ds item,
       Regex.is_token reference d i
       /\ TestData.dataSetNameMap_ m !! d = Some n
       /\ TestData.dataSets_ m !! n = Some ds
       /\ TestData.find_item i (TestData.items ds) = Some item
       /\ v = TestData.item_value item)
  /\ ((forall d i, ~ Regex.is_token reference d i) ->
      TestData.resolveDataReference m reference = Throw (TestData.invalid_format reference))
  /\ (forall d i, Regex.is_token reference d i ->
      TestData.dataSetNameMap_ m !! d = None ->
      TestData.resolveDataReference m reference = Throw (TestData.unknown_dataSet d))
  /\ (forall d i n ds, Regex.is_token reference d i ->
      TestData.dataSetNameMap_ m !! d = Some n ->
      TestData.dataSets_ m !! n = Some ds ->
      TestData.find_item i (TestData.items ds) = None ->
      TestData.resolveDataReference m reference = Throw (TestData.unknown_item reference i n))
  /\ ((exists v, TestData.resolveDataReference m reference = Ok v)
      \/ TestData.resolveDataReference m reference = Throw (TestData.invalid_format reference)
      \/ (exists d, TestData.resolveDataReference m reference = Throw (TestData.unknown_dataSet d))
      \/ (exists i n, TestData.resolveDataReference m reference
                      = Throw (TestData.unknown_item reference i n))).
Proof.
  intros [Hn _].
  assert (Hcases :
    match Regex.regex_match reference with
    | None => TestData.resolveDataReference m reference
              = Throw (TestData.invalid_format reference)
    | Some (d, i) =>
        match TestData.dataSetNameMap_ m !! d with
        | None => TestData.resolveDataReference m reference
                  = Throw (TestData.unknown_dataSet d)
        | Some n =>
            exists ds, TestData.dataSets_ m !! n = Some ds /\
            match TestData.find_item i (TestData.items ds) with
            | Some item => TestData.resolveDataReference m reference
                           = Ok (TestData.item_value item)
            | None => TestData.resolveDataReference m reference
                      = Throw (TestData.unknown_item reference i n)
            end
        end
    end).
  { unfold TestData.resolveDataReference.
    destruct (Regex.regex_match reference) as [[d i]|]; [|reflexivity].
    destruct (TestData.dataSetNameMap_ m !! d) as [n|] eqn:En; [|reflexivity].
    destruct (Hn _ _ En) as (ds & Hds & _). exists ds. split; [exact Hds|].
    unfold TestData.getDataItemByName, TestData.checked_dataSet. rewrite Hds. simpl.
    destruct (TestData.find_item i (TestData.items ds)); reflexivity. }
  repeat apply conj.
  - intros v. split.
    + intros Hv. destruct (Regex.regex_match reference) as [[d i]|] eqn:Em;
        [|rewrite Hcases in Hv; discriminate].
      destruct (TestData.dataSetNameMap_ m !! d) as [n|] eqn:En;
        [|rewrite Hcases in Hv; discriminate].
      destruct Hcases as (ds & Hds & Hc).
      destruct (TestData.find_item i (TestData.items ds)) as [item|] eqn:Ei;
        [|rewrite Hc in Hv; discriminate].
      rewrite Hc in Hv. inversion Hv; subst.
      exists d, i, n, ds, item. apply regex_match_iff in Em. auto.
    + intros (d & i & n & ds & item & Ht & En & Hds & Hi & ->).
      apply regex_match_iff in Ht. rewrite Ht, En in Hcases.
      destruct Hcases as (ds' & Hds' & Hc). rewrite Hds in Hds'. inversion Hds'; subst.
      now rewrite Hi in Hc.
  - intros Hno. destruct (Regex.regex_match reference) as [[d i]|] eqn:Em; [|exact Hcases].
    apply regex_match_iff in Em. now destruct (Hno d i).
  - intros d i Ht En. apply regex_match_iff in Ht. now rewrite Ht, En in Hcases.
  - intros d i n ds Ht En Hds Hi. apply regex_match_iff in Ht. rewrite Ht, En in Hcases.
    destruct Hcases as (ds' & Hds' & Hc). rewrite Hds in Hds'. inversion Hds'; subst.
    now rewrite Hi in Hc.
  - destruct (Regex.regex_match reference) as [[d i]|]; [|now right; left].
    destruct (TestData.dataSetNameMap_ m !! d) as [n|]; [|right; right; left; eauto].
    destruct Hcases as (ds & _ & Hc).
    destruct (TestData.find_item i (TestData.items ds)) as [item|].
    + left; eauto.
    + right; right; right; eauto.
Qed.

(** C9: [resolveDataReference] returns a value exactly when its argument is
    one whole token [${<dataset>.<item>}] naming a stored item of a stored
    dataset, and the value is the stored string of the first item of that
    dataset that carries the item name; otherwise it throws one of three
    exceptions, told apart by their text: the format is wrong, the dataset
    name is unknown, or no item of the dataset carries the item name. *)
Theorem resolveDataReference_spec (m : TestData.TestDataManager) (reference : string) :
  TestData.consistent m ->
  (forall v, TestData.resolveDataReference m reference = Ok v <->
     exists d i n ds before item after,
       Regex.is_token reference d i
       /\ TestData.dataSetNameMap_ m !! d = Some n
       /\ TestData.dataSets_ m !! n = Some ds
       /\ TestData.items ds = before ++ item :: after
       /\ Forall (fun x => TestData.item_name x <> i) before
       /\ TestData.item_name item = i
       /\ v = TestData.item_value item)
  /\ ((forall d i, ~ Regex.is_token reference d i) ->
      TestData.resolveDataReference m reference
      = Throw (TestDataException
                 ("Invalid data reference format: " +:+ reference
                  +:+ ". Use ${dataset_name.item_name}")))
  /\ (forall d i, Regex.is_token reference d i ->
      TestData.dataSetNameMap_ m !! d = None ->
      TestData.resolveDataReference m reference
      = Throw (TestDataException ("DataSet with name '" +:+ d +:+ "' not found")))
  /\ (forall d i n ds, Regex.is_token reference d i ->
      TestData.dataSetNameMap_ m !! d = Some n ->
      TestData.dataSets_ m !! n = Some ds ->
      Forall (fun x => TestData.item_name x <> i) (TestData.items ds) ->
      TestData.resolveDataReference m reference
      = Throw (TestDataException
                 ("Failed to resolve reference " +:+ reference +:+ ": "
                  +:+ ("DataItem with name '" +:+ i +:+ "' not found in DataSet "
                       +:+ Str.to_string n))))
  /\ ((exists v, TestData.resolveDataReference m reference = Ok v)
      \/ TestData.resolveDataReference m reference = Throw (TestData.invalid_format reference)
      \/ (exists d, TestData.resolveDataReference m reference = Throw (TestData.unknown_dataSet d))
      \/ (exists i n, TestData.resolveDataReference m reference
                      = Throw (TestData.unknown_item reference i n)))
  /\ (forall r d r' i n,
        TestData.invalid_format r <> TestData.unknown_dataSet d
        /\ TestData.invalid_format r <> TestData.unknown_item r' i n
        /\ TestData.unknown_dataSet d <> TestData.unknown_item r' i n).
Proof.
  intros Hc.
  destruct (resolveDataReference_cases m reference Hc) as (Hok & Hfmt & Hset & Hitem & Hall).
  split_and!.
  - intros v. rewrite Hok. split.
    + intros (d & i & n & ds & item & Ht & Hn & Hds & Hfind & Hv).
      apply find_item_Some in Hfind as (before & after & Hsplit & Hb & Hname).
      exists d, i, n, ds, before, item, after. auto 10.
    + intros (d & i & n & ds & before & item & after & Ht & Hn & Hds & Hsplit & Hb & Hname & Hv).
      exists d, i, n, ds, item. split_and!; try assumption.
      apply find_item_Some. eauto.
  - exact Hfmt.
  - exact Hset.
  - intros d i n ds Ht Hn Hds Hnone. apply (Hitem d i n ds Ht Hn Hds).
    now apply find_item_None.
  - exact Hall.
  - intros. apply errors_distinct.
Qed.

(** On the store [{A: {x: "${A.y}", y: "5"}}] the reference [${A.y}]
    resolves to [5], the value of the second item. *)
Lemma resolveDataReference_spec_witness :
  TestData.resolveDataReference Examples.nested_store "${A.y}" = Ok "5".
Proof.
  destruct (resolveDataReference_spec Examples.nested_store "${A.y}"
              (from_ok_consistent _ _)) as (Hok & _).
  apply (proj2 (Hok "5")).
  assert (Hds : exists ds x y,
            TestData.dataSets_ Examples.nested_store !! 1 = Some ds
            /\ TestData.items ds = [x] ++ y :: []
            /\ TestData.item_name x = "x" /\ TestData.item_name y = "y"
            /\ TestData.item_value y = "5").
  { eexists. eexists. eexists. split; [vm_compute; reflexivity|]. repeat split. }
  destruct Hds as (ds & x & y & Hds & Hitems & Hx & Hy & Hv).
  exists "A", "y", 1, ds, [x], y, []. split_and!.
  - repeat split; discriminate.
  - vm_compute. reflexivity.
  - exact Hds.
  - exact Hitems.
  - constructor; [rewrite Hx; discriminate | constructor].
  - exact Hy.
  - now rewrite Hv.
Defined.

(** ** Substituting every reference of a text *)

Section SubstituteFacts.
Import TestData.

Lemma length_drop n s : String.length (Str.drop n s) = (String.length s - n)%nat.
Proof.
  revert s. induction n as [|n IH]; intros [|c s]; simpl; try reflexivity; try lia.
  apply IH.
Qed.

Lemma length_take n s : String.length (Str.take n s) = Nat.min n (String.length s).
Proof.
  revert s. induction n as [|n IH]; intros [|c s]; simpl; try reflexivity.
  now rewrite IH.
Qed.

Lemma starts_with_length pat s :
  Str.starts_with pat s = true -> (String.length pat <= String.length s)%nat.
Proof.
  revert s. induction pat as [|a pat IH]; intros [|b s]; simpl; try lia; try discriminate.
  destruct (Ascii.eqb a b); [|discriminate]. intros H. apply IH in H. lia.
Qed.

Lemma find0_bound pat s k :
  Str.find0 pat s = Some k -> (k + String.length pat <= String.length s)%nat.
Proof.
  revert k. induction s as [|c s IH]; intros k; cbn [Str.find0].
  - destruct (Str.starts_with pat EmptyString) eqn:E; [|discriminate].
    intros H. inversion H; subst. now apply starts_with_length in E.
  - destruct (Str.starts_with pat (String c s)) eqn:E.
    + intros H. inversion H; subst. now apply starts_with_length in E.
    + destruct (Str.find0 pat s) as [k'|]; [|discriminate].
      intros H. inversion H; subst. specialize (IH _ eq_refl). simpl. lia.
Qed.

Lemma find_bound s pat pos p :
  Str.find s pat pos = Some p ->
  (pos <= p /\ p + String.length pat <= String.length s)%nat.
Proof.
  unfold Str.find, Str.len. destruct (String.length s <? pos)%nat eqn:E; [discriminate|].
  apply Nat.ltb_ge in E.
  destruct (Str.find0 pat (Str.drop pos s)) as [k|] eqn:F; [|discriminate].
  intros H. inversion H; subst. apply find0_bound in F. rewrite length_drop in F. lia.
Qed.

Lemma length_replace s p n v :
  (p + n <= String.length s)%nat ->
  String.length (Str.replace s p n v)
  = (p + String.length v + (String.length s - (p + n)))%nat.
Proof.
  intros H. unfold Str.replace.
  rewrite !length_append, length_take, length_drop. lia.
Qed.

(** The inner loop ends before its fuel does: every turn moves [pos]
    past one occurrence of the non-empty [fullMatch]. *)
Lemma replace_loop_fuel fullMatch value :
  fullMatch <> EmptyString ->
  forall f1 f2 result pos,
    (String.length result - pos < f1)%nat -> (String.length result - pos < f2)%nat ->
    replace_loop f1 fullMatch value result pos = replace_loop f2 fullMatch value result pos.
Proof.
  intros Hne. assert (Hlen : (0 < String.length fullMatch)%nat).
  { destruct fullMatch; [congruence | simpl; lia]. }
  induction f1 as [|f1 IH]; intros f2 result pos H1 H2; [lia|].
  destruct f2 as [|f2]; [lia|]. cbn [replace_loop].
  destruct (Str.find result fullMatch pos) as [p|] eqn:F; [|reflexivity].
  apply find_bound in F as [Hp Hq]. unfold Str.len.
  apply IH; rewrite length_replace by lia; lia.
Qed.

(** The outer loop ends before its fuel does: what is left to search
    shrinks with every match. *)
Lemma substitute_loop_fuel m :
  forall f1 f2 temp result,
    (String.length temp < f1)%nat -> (String.length temp < f2)%nat ->
    substitute_loop f1 m temp result = substitute_loop f2 m temp result.
Proof.
  induction f1 as [|f1 IH]; intros f2 temp result H1 H2; [lia|].
  destruct f2 as [|f2]; [lia|]. cbn [substitute_loop].
  destruct (Regex.regex_search temp) as [mt|] eqn:E; [|reflexivity].
  apply regex_search_split in E as (_ & _ & Hl). apply IH; lia.
Qed.

Lemma tokens_fuel :
  forall f1 f2 temp,
    (String.length temp < f1)%nat -> (String.length temp < f2)%nat ->
    tokens f1 temp = tokens f2 temp.
Proof.
  induction f1 as [|f1 IH]; intros f2 temp H1 H2; [lia|].
  destruct f2 as [|f2]; [lia|]. cbn [tokens].
  destruct (Regex.regex_search temp) as [mt|] eqn:E; [|reflexivity].
  apply regex_search_split in E as (_ & _ & Hl). f_equal. apply IH; lia.
Qed.

(** The facade's loop ends before its fuel does as well. *)
Lemma resolve_loop_fuel m :
  forall f1 f2 text pos,
    (String.length text - pos < f1)%nat -> (String.length text - pos < f2)%nat ->
    AutomationCore.resolve_loop f1 m text pos = AutomationCore.resolve_loop f2 m text pos.
Proof.
  induction f1 as [|f1 IH]; intros f2 text pos H1 H2; [lia|].
  destruct f2 as [|f2]; [lia|]. cbn [AutomationCore.resolve_loop].
  destruct (Str.find text _ pos) as [p|] eqn:F1; [|reflexivity].
  destruct (Str.find text _ p) as [endPos|] eqn:F2; [|reflexivity].
  apply find_bound in F1 as [Hp Hq]. apply find_bound in F2 as [Hp' Hq'].
  cbn [String.length] in Hq, Hq'.
  assert (Hskip : AutomationCore.resolve_loop f1 m text (endPos + 1)
                  = AutomationCore.resolve_loop f2 m text (endPos + 1))
    by (apply IH; lia).
  destruct (Str.find (AutomationCore.substr text (p + 2) (endPos - p - 2)) _ 0);
    [|exact Hskip].
  destruct (List.find _ _) as [ds|]; [|exact Hskip].
  destruct (getDataItemByName m (id ds) _) as [item| |]; try reflexivity.
  unfold Str.len. cbn. apply IH; rewrite length_replace by lia; lia.
Qed.

(** When no visited token names a known dataset the text is never touched. *)
Lemma substitute_loop_unknown m fuel :
  forall temp result,
    Forall (fun mt => dataSetNameMap_ m !! Regex.m_1 mt = None) (tokens fuel temp) ->
    substitute_loop fuel m temp result = result.
Proof.
  induction fuel as [|fuel IH]; intros temp result H; [reflexivity|].
  cbn [substitute_loop tokens] in *.
  destruct (Regex.regex_search temp) as [mt|]; [|reflexivity].
  inversion H as [|? ? Hmt Hrest]; subst.
  unfold substitute_match. rewrite Hmt. now apply IH.
Qed.

End SubstituteFacts.

(** The two sample substitutions of the specification. *)
Example substitute_one_reference :
  TestData.substituteDataReferences Examples.plain_store "${A.x}" = "5".
Proof. vm_compute. reflexivity. Qed.

Example substitute_two_references :
  TestData.substituteDataReferences Examples.nested_store "${A.y} and ${A.y}, not ${A.z}"
  = "5 and 5, not ${A.z}".
Proof. vm_compute. reflexivity. Qed.

(** C4: on the store [{A: {x: "${A.y}", y: "5"}}] the text [${A.x} ${A.y}]
    becomes [5 5]: the reference that the value of [x] brought into the text
    is resolved again when the scan reaches the second token, where a single
    pass would leave [${A.y} 5]. *)
Theorem substituteDataReferences_resolves_inserted_text :
  TestData.substituteDataReferences Examples.nested_store "${A.x} ${A.y}" = "5 5"
  /\ TestData.resolveDataReference Examples.nested_store "${A.x}" = Ok "${A.y}"
  /\ TestData.resolveDataReference Examples.nested_store "${A.y}" = Ok "5".
Proof. repeat split; vm_compute; reflexivity. Qed.

(** The single pass of [AutomationCore::resolveDataReferences] on the same
    store and text leaves the inserted reference alone. *)
Lemma resolveDataReferences_single_pass :
  AutomationCore.resolveDataReferences
    {| AutomationCore.m_initialized := true;
       AutomationCore.m_dataManager := Some Examples.nested_store |}
    "${A.x} ${A.y}" = Ok "${A.y} 5".
Proof. vm_compute. reflexivity. Qed.

(** C8, as stated, fails: on [{A: {x: "${A.y}", y: "5"}}] the text [${A.x}]
    becomes [${A.y}], and substituting again gives [5]. *)
Lemma substituteDataReferences_not_idempotent :
  TestData.substituteDataReferences Examples.nested_store "${A.x}" = "${A.y}"
  /\ TestData.substituteDataReferences Examples.nested_store
       (TestData.substituteDataReferences Examples.nested_store "${A.x}") = "5"
  /\ TestData.substituteDataReferences Examples.nested_store
       (TestData.substituteDataReferences Examples.nested_store "${A.x}")
     <> TestData.substituteDataReferences Examples.nested_store "${A.x}".
Proof. repeat split; vm_compute; try reflexivity; discriminate. Qed.

(** C8, amended: a text all of whose tokens name unknown datasets comes back
    unchanged, so substituting a second time changes nothing either. *)
Theorem substituteDataReferences_unknown_dataSet
    (m : TestData.TestDataManager) (input : string) :
  Forall (fun mt => TestData.dataSetNameMap_ m !! Regex.m_1 mt = None)
         (TestData.tokens_of input) ->
  TestData.substituteDataReferences m input = input
  /\ TestData.substituteDataReferences m (TestData.substituteDataReferences m input)
     = TestData.substituteDataReferences m input.
Proof.
  intros H.
  assert (E : TestData.substituteDataReferences m input = input).
  { unfold TestData.substituteDataReferences. now apply substitute_loop_unknown. }
  now rewrite !E.
Qed.

(** The text [a ${B.y} b] on the store [{A: {x: "5"}}], which has no dataset [B]. *)
Lemma substituteDataReferences_unknown_dataSet_witness :
  TestData.substituteDataReferences Examples.plain_store "a ${B.y} b" = "a ${B.y} b".
Proof.
  apply (substituteDataReferences_unknown_dataSet Examples.plain_store "a ${B.y} b").
  vm_compute. repeat constructor.
Defined.

(** ** The plugin registry *)

Section RegistryFacts.
Import PluginManager.

Lemma registry_ok_empty tr : registry_ok {| plugins_ := ∅; trace := tr |}.
Proof. intros n h H. simpl in H. now rewrite lookup_empty in H. Qed.

Lemma registry_ok_emit ev w : registry_ok w -> registry_ok (emit ev w).
Proof. intros H n h Hl. exact (H n h Hl). Qed.

(** A refused load leaves the registry as it was. *)
Lemma loadPlugin_refused sys dllPath w w' :
  loadPlugin sys dllPath w = (Ok false, w') -> plugins_ w' = plugins_ w.
Proof.
  unfold loadPlugin, reject.
  destruct (negb (PathFileExistsA sys dllPath)); [now inversion 1|].
  destruct (LoadLibraryA sys dllPath) as [md|]; [|now inversion 1].
  destruct (createPlugin md) as [[p|]|], (destroyPlugin md);
    try (now inversion 1).
  destruct (negb (validatePlugin (Some p))); [now inversion 1|].
  destruct (hasPlugin _ _); [now inversion 1|].
  destruct (IAutomationPlugin.initialize p _) as [[|]|]; now inversion 1.
Qed.

Lemma loadPlugin_registry_ok sys dllPath w r w' :
  registry_ok w -> loadPlugin sys dllPath w = (r, w') -> registry_ok w'.
Proof.
  intros Hok. unfold loadPlugin, reject.
  assert (Hkeep : forall w0 r0, registry_ok w0 -> (r0, w0) = (r, w') -> registry_ok w').
  { intros w0 r0 H0 E. inversion E; subst. exact H0. }
  destruct (negb (PathFileExistsA sys dllPath)); [now apply Hkeep|].
  destruct (LoadLibraryA sys dllPath) as [md|]; [|now apply Hkeep].
  destruct (createPlugin md) as [[p|]|], (destroyPlugin md);
    try (apply Hkeep; now repeat apply registry_ok_emit).
  destruct (negb (validatePlugin (Some p)));
    [apply Hkeep; now repeat apply registry_ok_emit|].
  destruct (hasPlugin _ _); [apply Hkeep; now repeat apply registry_ok_emit|].
  destruct (IAutomationPlugin.initialize p _) as [[|]|];
    try (apply Hkeep; now repeat apply registry_ok_emit).
  apply Hkeep. intros n h Hl. simpl in Hl.
  destruct (decide (n = IAutomationPlugin.name p)) as [->|Hne].
  - rewrite lookup_insert_eq in Hl. inversion Hl; subst. simpl. eauto.
  - rewrite lookup_insert_ne in Hl by done. exact (Hok n h Hl).
Qed.

End RegistryFacts.

(** C7: loading a file whose plugin carries a name that is already
    registered is refused; the registry is the same map as before (same
    size, same plugin under that name), and the instance just built is
    destroyed and its module freed without ever being initialized. *)
Theorem loadPlugin_duplicate_name
    (sys : PluginManager.system) (dllPath : string) (w : PluginManager.world)
    (md : PluginManager.module) (p : IAutomationPlugin.t) :
  PluginManager.PathFileExistsA sys dllPath = true ->
  PluginManager.LoadLibraryA sys dllPath = Some md ->
  PluginManager.createPlugin md = Some (Some p) ->
  PluginManager.destroyPlugin md = true ->
  PluginManager.hasPlugin w (IAutomationPlugin.name p) = true ->
  exists w',
    PluginManager.loadPlugin sys dllPath w = (Ok false, w')
    /\ PluginManager.plugins_ w' = PluginManager.plugins_ w
    /\ size (PluginManager.plugins_ w') = size (PluginManager.plugins_ w)
    /\ PluginManager.getPlugin w' (IAutomationPlugin.name p)
       = PluginManager.getPlugin w (IAutomationPlugin.name p)
    /\ PluginManager.trace w'
       = PluginManager.trace w ++ [EvLoadLibrary dllPath; EvCreate dllPath;
                                   EvDestroy dllPath; EvFreeLibrary dllPath].
Proof.
  intros Hfile Hload Hcreate Hdestroy Hhas.
  unfold PluginManager.loadPlugin. rewrite Hfile, Hload, Hcreate, Hdestroy. simpl.
  assert (Hhas' : PluginManager.hasPlugin
            (PluginManager.emit (EvCreate dllPath)
               (PluginManager.emit (EvLoadLibrary dllPath) w))
            (IAutomationPlugin.name p) = true) by exact Hhas.
  rewrite Hhas'.
  destruct (negb (negb (String.eqb (IAutomationPlugin.name p) EmptyString)));
    (eexists; split; [reflexivity|]; simpl;
     repeat split; rewrite <- ?app_assoc; reflexivity).
Qed.

(** With [P] registered from [p.dll], loading [p_copy.dll], which also
    builds a plugin named [P], is refused. *)
Lemma loadPlugin_duplicate_name_witness :
  (PluginManager.loadPlugin Examples.sys "p_copy.dll" Examples.world_P).1 = Ok false
  /\ PluginManager.plugins_ (PluginManager.loadPlugin Examples.sys "p_copy.dll" Examples.world_P).2
     = PluginManager.plugins_ Examples.world_P.
Proof.
  destruct (loadPlugin_duplicate_name Examples.sys "p_copy.dll" Examples.world_P
              (Examples.one_plugin_module (Examples.make_plugin "P" (Returns tt)))
              (Examples.make_plugin "P" (Returns tt)))
    as (w' & Hload & Hsame & _); try (vm_compute; reflexivity).
  rewrite Hload. simpl. split; [reflexivity | exact Hsame].
Defined.

(** ** Tearing the registry down *)

Section TeardownFacts.
Import PluginManager.

Lemma world_P_ok : registry_ok Examples.world_P.
Proof.
  eapply loadPlugin_registry_ok; [apply (registry_ok_empty []) |].
  apply surjective_pairing.
Qed.

(** A handle whose [uninitialize] returns is unloaded in three events. *)
Lemma unload_handle_returns n handle p u w :
  plugin handle = Some p -> IAutomationPlugin.name p = n ->
  IAutomationPlugin.uninitialize p (trace w) = Returns u ->
  unload_handle n handle w
  = (Ok tt, {| plugins_ := <[n := {| hModule := hModule handle; plugin := None |}]> (plugins_ w);
               trace := trace w ++ unload_events (n, handle) |}).
Proof.
  intros Hp Hn Hu. unfold unload_handle. rewrite Hp, Hu, Hn. simpl.
  now rewrite <- app_assoc.
Qed.


Lemma unload_loop_returns pairs :
  forall w,
    (forall n handle, (n, handle) ∈ pairs ->
       exists p, plugin handle = Some p /\ IAutomationPlugin.name p = n
                 /\ forall tr, exists u, IAutomationPlugin.uninitialize p tr = Returns u) ->
    exists w', unload_loop pairs w = (Ok tt, w')
               /\ trace w' = trace w ++ flat_map unload_events pairs.
Proof.
  induction pairs as [|[n handle] pairs IH]; intros w H; simpl.
  - eexists; split; [reflexivity|]. now rewrite app_nil_r.
  - destruct (H n handle) as (p & Hp & Hn & Hu); [left|].
    destruct (Hu (trace w)) as [u Hret].
    rewrite (unload_handle_returns _ _ _ _ _ Hp Hn Hret).
    edestruct IH as (w' & Hloop & Htr);
      [ intros n' h' Hin; apply H; now right |].
    exists w'. split; [exact Hloop|]. rewrite Htr. simpl. now rewrite <- app_assoc.
Qed.




End TeardownFacts.




(** ** Running the steps of a case *)

Section EngineFacts.
Import PluginManager TestEngine.
Variable eng : engine.

(** The engine never consults its data store. *)
Lemma executeTestStep_store_irrelevant eng' step w :
  executeTestStep eng step w = executeTestStep eng' step w.
Proof. reflexivity. Qed.

Lemma run_steps_acc steps :
  forall acc w,
    run_steps eng steps acc w
    = (acc ++ (run_steps eng steps [] w).1, (run_steps eng steps [] w).2).
Proof.
  induction steps as [|step steps IH]; intros acc w; simpl.
  - now rewrite app_nil_r.
  - destruct (executeTestStep eng step w) as [sr w1].
    destruct (negb (StepResult.success (StepExecutionResult.result sr))
              && TestStep.stop_on_failure step); simpl; [reflexivity|].
    rewrite (IH (acc ++ [sr])), (IH [sr]). simpl. now rewrite <- app_assoc.
Qed.

Lemma run_steps_cons step steps w :
  run_steps eng (step :: steps) [] w
  = let '(sr, w1) := executeTestStep eng step w in
    if negb (StepResult.success (StepExecutionResult.result sr))
       && TestStep.stop_on_failure step
    then ([sr], w1)
    else (sr :: (run_steps eng steps [] w1).1, (run_steps eng steps [] w1).2).
Proof.
  simpl. destruct (executeTestStep eng step w) as [sr w1].
  destruct (_ && _); [reflexivity|]. now rewrite run_steps_acc.
Qed.

(** No more results than steps. *)
Lemma run_steps_length steps :
  forall w, (length (run_steps eng steps [] w).1 <= length steps)%nat.
Proof.
  induction steps as [|step steps IH]; intros w; [simpl; lia|].
  rewrite run_steps_cons. destruct (executeTestStep eng step w) as [sr w1].
  destruct (_ && _); simpl; [lia|]. specialize (IH w1). lia.
Qed.

(** A failed step with [stop_on_failure] is the last one to run. *)
Lemma run_steps_stop steps :
  forall w k sr st,
    (run_steps eng steps [] w).1 !! k = Some sr ->
    StepResult.success (StepExecutionResult.result sr) = false ->
    steps !! k = Some st -> TestStep.stop_on_failure st = true ->
    length (run_steps eng steps [] w).1 = S k
    /\ run_steps eng steps [] w = run_steps eng (take (S k) steps) [] w.
Proof.
  induction steps as [|step steps IH]; intros w k sr st Hsr Hfail Hst Hstop;
    [discriminate|].
  rewrite firstn_cons, !run_steps_cons in *.
  destruct (executeTestStep eng step w) as [sr0 w1].
  destruct k as [|k]; simpl in Hst.
  - inversion Hst; subst st. rewrite Hstop, andb_true_r in *.
    destruct (StepResult.success (StepExecutionResult.result sr0)) eqn:E; simpl in *.
    + inversion Hsr; subst. congruence.
    + split; reflexivity.
  - destruct (negb (StepResult.success (StepExecutionResult.result sr0))
              && TestStep.stop_on_failure step); simpl in *; [discriminate|].
    destruct (IH w1 k sr st Hsr Hfail Hst Hstop) as [Hlen Hrun].
    split; [now rewrite Hlen | now rewrite Hrun].
Qed.

(** The closing loop never indexes past the steps, and says [false]
    exactly when a mandatory step has a failed result. *)
Lemma overall_loop_spec steps rs :
  forall i, (i + length rs <= length steps)%nat ->
    exists ok, overall_loop steps i rs = Ok ok
      /\ (ok = false <->
          exists j sr st, rs !! j = Some sr /\ steps !! (i + j)%nat = Some st
            /\ TestStep.is_optional st = false
            /\ StepResult.success (StepExecutionResult.result sr) = false).
Proof.
  induction rs as [|r rs IH]; intros i Hlen; simpl in *.
  - exists true. split; [reflexivity|]. split; [discriminate|].
    intros (j & sr & st & H & _). discriminate.
  - destruct (IH (S i)) as (ok & Hok & Hiff); [lia|].
    assert (Hshift : (exists j sr st, rs !! j = Some sr /\ steps !! (S i + j)%nat = Some st
               /\ TestStep.is_optional st = false
               /\ StepResult.success (StepExecutionResult.result sr) = false) ->
             exists j sr st, (r :: rs) !! j = Some sr /\ steps !! (i + j)%nat = Some st
               /\ TestStep.is_optional st = false
               /\ StepResult.success (StepExecutionResult.result sr) = false).
    { intros (j & sr & st & H1 & H2 & H3). exists (S j), sr, st.
      split; [exact H1|]. split; [|exact H3]. now replace (i + S j)%nat with (S i + j)%nat by lia. }
    destruct (lookup_lt_is_Some_2 steps i) as [st Hst]; [lia|].
    destruct (StepResult.success (StepExecutionResult.result r)) eqn:Er.
    + exists ok. split; [exact Hok|]. rewrite Hiff. split; [exact Hshift|].
      intros (j & sr & st' & H1 & H2 & H3 & H4). destruct j as [|j].
      * simpl in H1. inversion H1; subst. congruence.
      * exists j, sr, st'. simpl in H1. split; [exact H1|].
        split; [now replace (S i + j)%nat with (i + S j)%nat by lia | auto].
    + rewrite Hst. destruct (TestStep.is_optional st) eqn:Eo; simpl.
      * exists ok. split; [exact Hok|]. rewrite Hiff. split; [exact Hshift|].
        intros (j & sr & st' & H1 & H2 & H3 & H4). destruct j as [|j].
        -- rewrite Nat.add_0_r in H2. rewrite Hst in H2. inversion H2; subst. congruence.
        -- exists j, sr, st'. simpl in H1. split; [exact H1|].
           split; [now replace (S i + j)%nat with (i + S j)%nat by lia | auto].
      * exists false. split; [reflexivity|]. split; [|reflexivity].
        intros _. exists 0%nat, r, st. rewrite Nat.add_0_r. auto.
Qed.

(** A case run always returns, with the results of [run_steps] and the
    verdict of the closing loop. *)
Lemma executeTestCase_runs testCase w :
  exists ok,
    overall_loop (TestCase.steps testCase) 0
      (run_steps eng (TestCase.steps testCase) [] w).1 = Ok ok
    /\ executeTestCase eng testCase w
       = (Ok {| TestExecutionResult.case_id := TestCase.id testCase;
                TestExecutionResult.case_name := TestCase.name testCase;
                TestExecutionResult.overall_success := ok;
                TestExecutionResult.step_results :=
                  (run_steps eng (TestCase.steps testCase) [] w).1;
                TestExecutionResult.error_message := EmptyString |},
          (run_steps eng (TestCase.steps testCase) [] w).2).
Proof.
  destruct (overall_loop_spec (TestCase.steps testCase)
              (run_steps eng (TestCase.steps testCase) [] w).1 0) as (ok & Hok & _).
  { simpl. apply run_steps_length. }
  exists ok. split; [exact Hok|].
  unfold executeTestCase, executeSetup. simpl negb. rewrite andb_false_r.
  destruct (run_steps eng (TestCase.steps testCase) [] w) as [rs w1]. simpl in *.
  now rewrite Hok.
Qed.

(** The verdict of a case run, in terms of its step results. *)
Lemma executeTestCase_verdict testCase w :
  exists res w',
    executeTestCase eng testCase w = (Ok res, w')
    /\ TestExecutionResult.step_results res = (run_steps eng (TestCase.steps testCase) [] w).1
    /\ w' = (run_steps eng (TestCase.steps testCase) [] w).2
    /\ (TestExecutionResult.overall_success res = false <->
        exists i sr st,
          TestExecutionResult.step_results res !! i = Some sr
          /\ TestCase.steps testCase !! i = Some st
          /\ TestStep.is_optional st = false
          /\ StepResult.success (StepExecutionResult.result sr) = false).
Proof.
  destruct (executeTestCase_runs testCase w) as (ok & Hok & Hrun).
  destruct (overall_loop_spec (TestCase.steps testCase)
              (run_steps eng (TestCase.steps testCase) [] w).1 0)
    as (ok' & Hok' & Hiff); [simpl; apply run_steps_length|].
  rewrite Hok in Hok'. inversion Hok'; subst ok'.
  eexists. eexists. split; [exact Hrun|]. repeat split; apply Hiff.
Qed.

End EngineFacts.

(** C1: the step [click ${A.x}] run by an engine whose store holds
    [A.x = 5] reaches the plugin with the reference still in it: the plugin
    is handed the target [${A.x}] and echoes it back, although the store
    resolves that text to [5]. *)
Theorem executeTestStep_passes_raw_reference :
  PluginManager.trace
    (TestEngine.executeTestStep Examples.engine_plain Examples.reference_step Examples.world_P).2
  = PluginManager.trace Examples.world_P
    ++ [EvExecuteStep "P" (TestStep.param Examples.reference_step)]
  /\ StepParam.target (TestStep.param Examples.reference_step) = "${A.x}"
  /\ StepResult.message (StepExecutionResult.result
       (TestEngine.executeTestStep Examples.engine_plain Examples.reference_step
          Examples.world_P).1) = "done: ${A.x}"
  /\ TestData.substituteDataReferences
       (TestEngine.testDataManager_ Examples.engine_plain) "${A.x}" = "5".
Proof. repeat split; vm_compute; reflexivity. Qed.

(** C2: every case run returns a result, and its [overall_success] is false
    exactly when some step result in the list is a failure of a step that is
    not optional; failures of optional steps alone leave it true. *)
Theorem executeTestCase_overall_success
    (eng : TestEngine.engine) (testCase : TestCase.t) (w : PluginManager.world) :
  exists res w',
    TestEngine.executeTestCase eng testCase w = (Ok res, w')
    /\ (TestExecutionResult.overall_success res = false <->
        exists i sr st,
          TestExecutionResult.step_results res !! i = Some sr
          /\ TestCase.steps testCase !! i = Some st
          /\ TestStep.is_optional st = false
          /\ StepResult.success (StepExecutionResult.result sr) = false).
Proof.
  destruct (executeTestCase_verdict eng testCase w) as (res & w' & Hrun & _ & _ & Hiff).
  exists res, w'. split; [exact Hrun | exact Hiff].
Qed.

(** C3, as stated, fails: three steps, the second optional, failing, with
    [stop_on_failure] set.  The run stops after two step results, and
    [overall_success] is true. *)
Lemma stop_on_failure_of_optional_step :
  exists res w',
    TestEngine.executeTestCase Examples.engine_plain Examples.case_optional_stop
      Examples.world_P = (Ok res, w')
    /\ length (TestCase.steps Examples.case_optional_stop) = 3%nat
    /\ (StepResult.success ∘ StepExecutionResult.result
        <$> TestExecutionResult.step_results res) = [true; false]
    /\ (TestStep.stop_on_failure <$> TestCase.steps Examples.case_optional_stop)
       = [true; true; true]
    /\ TestExecutionResult.overall_success res = true.
Proof. eexists. eexists. split; [vm_compute; reflexivity|]. repeat split. Qed.

(** C3, amended: when the step at position [k] (counted from 0) fails and
    has [stop_on_failure] set, the run is the run of the first [k + 1] steps
    alone: no later step is executed, the result holds exactly [k + 1] step
    results, and [overall_success] is false provided that step is not
    optional. *)
Theorem executeTestCase_stop_on_failure
    (eng : TestEngine.engine) (testCase : TestCase.t) (w w' : PluginManager.world)
    (res : TestExecutionResult.t) (k : nat) (sr : StepExecutionResult.t) (st : TestStep.t) :
  TestEngine.executeTestCase eng testCase w = (Ok res, w') ->
  TestExecutionResult.step_results res !! k = Some sr ->
  StepResult.success (StepExecutionResult.result sr) = false ->
  TestCase.steps testCase !! k = Some st ->
  TestStep.stop_on_failure st = true ->
  length (TestExecutionResult.step_results res) = S k
  /\ (TestExecutionResult.step_results res, w')
     = TestEngine.run_steps eng (take (S k) (TestCase.steps testCase)) [] w
  /\ (TestStep.is_optional st = false -> TestExecutionResult.overall_success res = false).
Proof.
  intros Hrun Hsr Hfail Hst Hstop.
  destruct (executeTestCase_verdict eng testCase w) as (res0 & w0 & Hrun0 & Hres & Hw & Hiff).
  rewrite Hrun in Hrun0. inversion Hrun0 as [[Hr Hw']]. clear Hrun0. subst res0.
  rewrite Hres in Hsr.
  destruct (run_steps_stop eng _ w k sr st Hsr Hfail Hst Hstop) as [Hlen Hsame].
  split; [now rewrite Hres|]. split.
  - rewrite Hres, Hw, <- Hsame.
    now destruct (TestEngine.run_steps eng (TestCase.steps testCase) [] w).
  - intros Hopt. apply Hiff. exists k, sr, st. rewrite Hres. auto.
Qed.

(** Three steps, the second mandatory, failing, with [stop_on_failure] set:
    two step results and no overall success. *)
Lemma executeTestCase_stop_on_failure_witness :
  exists res w',
    TestEngine.executeTestCase Examples.engine_plain Examples.case_stop Examples.world_P
    = (Ok res, w')
    /\ length (TestExecutionResult.step_results res) = 2%nat
    /\ TestExecutionResult.overall_success res = false.
Proof.
  destruct (executeTestCase_verdict Examples.engine_plain Examples.case_stop
              Examples.world_P) as (res & w' & Hrun & _).
  exists res, w'. split; [exact Hrun|].
  assert (Hres : TestExecutionResult.step_results res
                 !! 1%nat = Some {| StepExecutionResult.step_id := 2;
                                    StepExecutionResult.result :=
                                      Examples.step_failed
                                        (TestStep.param (Examples.step 2 "P" "check" "Edit" false true)) |}).
  { assert (E : (TestEngine.executeTestCase Examples.engine_plain Examples.case_stop
                   Examples.world_P).1 = Ok res) by now rewrite Hrun.
    vm_compute in E. inversion E; subst. reflexivity. }
  destruct (executeTestCase_stop_on_failure Examples.engine_plain Examples.case_stop
              Examples.world_P w' res 1 _ (Examples.step 2 "P" "check" "Edit" false true)
              Hrun Hres eq_refl eq_refl eq_refl) as (Hlen & _ & Hfalse).
  split; [exact Hlen | now apply Hfalse].
Defined.

(** C6, as stated, fails: exceptions out of [executeStep] do not share one
    code.  A [std::exception] gives [-3], any other thrown object gives
    [-4]; and the message for a missing plugin carries the plugin's name. *)
Lemma executeStep_exception_codes_differ :
  IAutomationPlugin.executeStep (Examples.make_plugin "P" (Returns tt))
    (PluginManager.trace Examples.world_P)
    (TestStep.param (Examples.step 1 "P" "crash" "Edit" false true))
  = Raises (StdException "access violation")
  /\ IAutomationPlugin.executeStep (Examples.make_plugin "P" (Returns tt))
       (PluginManager.trace Examples.world_P)
       (TestStep.param (Examples.step 1 "P" "abort" "Edit" false true))
     = Raises UnknownException
  /\ StepResult.error_code (StepExecutionResult.result
       (TestEngine.executeTestStep Examples.engine_plain
          (Examples.step 1 "P" "crash" "Edit" false true) Examples.world_P).1) = -3
  /\ StepResult.error_code (StepExecutionResult.result
       (TestEngine.executeTestStep Examples.engine_plain
          (Examples.step 1 "P" "abort" "Edit" false true) Examples.world_P).1) = -4
  /\ StepResult.message (StepExecutionResult.result
       (TestEngine.executeTestStep Examples.engine_plain
          (Examples.step 1 "X" "click" "Edit" false true) Examples.world_P).1)
     = "Plugin not found: X".
Proof. repeat split; vm_compute; reflexivity. Qed.

(** C6, amended: [executeTestStep] always returns a step result.  A missing
    plugin gives a failure with code [-1] and the message
    [Plugin not found: <name>]; an action the plugin does not list gives a
    failure with code [-2], and the plugin is not called; an exception out
    of [executeStep] gives a failure with code [-3] when it is a
    [std::exception] and [-4] otherwise.  The codes of the three conditions
    never coincide. *)
Theorem executeTestStep_dispatch_errors
    (eng : TestEngine.engine) (step : TestStep.t) (w : PluginManager.world) :
  (PluginManager.getPlugin w (TestStep.plugin_name step) = None ->
   TestEngine.executeTestStep eng step w
   = ({| StepExecutionResult.step_id := TestStep.id step;
         StepExecutionResult.result :=
           TestEngine.failure (-1) ("Plugin not found: " +:+ TestStep.plugin_name step) |}, w))
  /\ (forall plugin,
        PluginManager.getPlugin w (TestStep.plugin_name step) = Some plugin ->
        TestEngine.is_supported (StepParam.action (TestStep.param step))
          (IAutomationPlugin.supportedActions plugin) = false ->
        TestEngine.executeTestStep eng step w
        = ({| StepExecutionResult.step_id := TestStep.id step;
              StepExecutionResult.result :=
                TestEngine.failure (-2)
                  ("Plugin " +:+ TestStep.plugin_name step +:+ " does not support action: "
                   +:+ StepParam.action (TestStep.param step)) |}, w))
  /\ (forall plugin e,
        PluginManager.getPlugin w (TestStep.plugin_name step) = Some plugin ->
        TestEngine.is_supported (StepParam.action (TestStep.param step))
          (IAutomationPlugin.supportedActions plugin) = true ->
        IAutomationPlugin.executeStep plugin (PluginManager.trace w) (TestStep.param step)
        = Raises e ->
        exists sr,
          TestEngine.executeTestStep eng step w
          = (sr, PluginManager.emit
                   (EvExecuteStep (IAutomationPlugin.name plugin) (TestStep.param step)) w)
          /\ StepExecutionResult.step_id sr = TestStep.id step
          /\ StepResult.success (StepExecutionResult.result sr) = false
          /\ StepResult.error_code (StepExecutionResult.result sr)
             = match e with UnknownException => -4 | _ => -3 end
          /\ StepResult.error_code (StepExecutionResult.result sr) <> -1
          /\ StepResult.error_code (StepExecutionResult.result sr) <> -2).
Proof.
  unfold TestEngine.executeTestStep. repeat split.
  - intros H. now rewrite H.
  - intros plugin Hp Hs. now rewrite Hp, Hs.
  - intros plugin e Hp Hs He. rewrite Hp, Hs, He. simpl.
    eexists. split; [reflexivity|]. destruct e; simpl; repeat split; discriminate.
Qed.

(** On the registry holding [P]: a step for the unknown plugin [X], a step
    with the action [drag], which [P] does not list, and a step whose
    execution throws. *)
Lemma executeTestStep_dispatch_errors_witness :
  StepResult.error_code (StepExecutionResult.result
    (TestEngine.executeTestStep Examples.engine_plain
       (Examples.step 1 "X" "click" "Edit" false true) Examples.world_P).1) = -1
  /\ StepResult.error_code (StepExecutionResult.result
       (TestEngine.executeTestStep Examples.engine_plain
          (Examples.step 2 "P" "drag" "Edit" false true) Examples.world_P).1) = -2
  /\ StepResult.error_code (StepExecutionResult.result
       (TestEngine.executeTestStep Examples.engine_plain
          (Examples.step 3 "P" "crash" "Edit" false true) Examples.world_P).1) = -3.
Proof.
  split; [|split].
  - destruct (executeTestStep_dispatch_errors Examples.engine_plain
                (Examples.step 1 "X" "click" "Edit" false true) Examples.world_P)
      as (H & _). rewrite H by (vm_compute; reflexivity). reflexivity.
  - destruct (executeTestStep_dispatch_errors Examples.engine_plain
                (Examples.step 2 "P" "drag" "Edit" false true) Examples.world_P)
      as (_ & H & _).
    rewrite (H (Examples.make_plugin "P" (Returns tt))) by (vm_compute; reflexivity).
    reflexivity.
  - destruct (executeTestStep_dispatch_errors Examples.engine_plain
                (Examples.step 3 "P" "crash" "Edit" false true) Examples.world_P)
      as (_ & _ & H).
    destruct (H (Examples.make_plugin "P" (Returns tt)) (StdException "access violation")
                eq_refl eq_refl eq_refl)
      as (sr & Hrun & _ & _ & Hcode & _).
    rewrite Hrun. exact Hcode.
Defined.

(** ** Serializing a case and reading it back *)

Section SerializerFacts.
Import Json TestCaseSerializer.

Lemma to_int32_id z : is_int z -> to_int32 z = z.
Proof.
  unfold is_int, to_int32. intros H.
  rewrite Z.mod_small by lia. lia.
Qed.

Lemma deserializeTestStep_serialize step :
  is_int (TestStep.id step) ->
  deserializeTestStep (serializeTestStep step) = Ok (round_trip_step step).
Proof.
  intros H. unfold deserializeTestStep, serializeTestStep, read_field. cbn.
  rewrite (to_int32_id _ H). reflexivity.
Qed.

Lemma deserializeSteps_serialize steps :
  Forall (fun step => is_int (TestStep.id step)) steps ->
  deserializeSteps (serializeTestStep <$> steps) = Ok (round_trip_step <$> steps).
Proof.
  induction 1 as [|step steps Hstep _ IH]; [reflexivity|].
  rewrite fmap_cons. cbn [deserializeSteps].
  rewrite (deserializeTestStep_serialize _ Hstep), IH. reflexivity.
Qed.

End SerializerFacts.

(** C10: a case written by [serializeTestCase] and read back by
    [deserializeTestCase] keeps its id, name, description and project id,
    and for each step in order the id, plugin name, action, target, value
    and [stop_on_failure]; every step comes back with [is_optional] false,
    no [params] and the default timeout, and the case comes back without
    setup script, teardown script and dataset ids. *)
Theorem serialize_deserialize_round_trip (testCase : TestCase.t) :
  TestCaseSerializer.int_fields testCase ->
  TestCaseSerializer.deserializeTestCase (TestCaseSerializer.serializeTestCase testCase)
  = Ok (TestCaseSerializer.round_trip testCase).
Proof.
  intros (Hid & Hpid & Hsteps).
  unfold TestCaseSerializer.deserializeTestCase, TestCaseSerializer.serializeTestCase,
    TestCaseSerializer.read_field. cbn.
  rewrite (to_int32_id _ Hid), (to_int32_id _ Hpid).
  rewrite (deserializeSteps_serialize _ Hsteps). reflexivity.
Qed.

(** The three-step example case, whose second step is optional and which
    has scripts and a dataset attached. *)
Lemma serialize_deserialize_round_trip_witness :
  TestCaseSerializer.deserializeTestCase
    (TestCaseSerializer.serializeTestCase Examples.case_optional_stop)
  = Ok (TestCaseSerializer.round_trip Examples.case_optional_stop)
  /\ (TestStep.is_optional <$> TestCase.steps Examples.case_optional_stop)
     = [false; true; false]
  /\ (TestStep.is_optional
      <$> TestCase.steps (TestCaseSerializer.round_trip Examples.case_optional_stop))
     = [false; false; false].
Proof.
  split; [|split; reflexivity].
  apply (serialize_deserialize_round_trip Examples.case_optional_stop).
  unfold TestCaseSerializer.int_fields, Json.is_int. cbn.
  repeat split; try lia. repeat constructor; cbn; lia.
Defined.

(** * Further properties of the sources *)

(** ** The data store: invariants of every mutator *)

Section StoreInvariants.
Import TestData.

Lemma indexed_empty : indexed TestData.empty.
Proof. intros i ds H. simpl in H. now rewrite lookup_empty in H. Qed.


Lemma replace_dataSet_indexed m k ds ds' nextItem :
  indexed m -> dataSets_ m !! k = Some ds -> name ds' = name ds -> id ds' = id ds ->
  indexed {| dataSets_ := <[k := ds']> (dataSets_ m);
             dataSetNameMap_ := dataSetNameMap_ m;
             nextDataSetId_ := nextDataSetId_ m;
             nextDataItemId_ := nextItem |}.
Proof.
  intros Hx Hk Hname Hid j d Hl. simpl in *.
  destruct (decide (j = k)) as [->|Hne].
  - rewrite lookup_insert_eq in Hl. inversion Hl; subst d.
    destruct (Hx _ _ Hk) as [H1 H2]. rewrite Hname, Hid. auto.
  - rewrite lookup_insert_ne in Hl by done. eauto.
Qed.

Lemma createDataSet_indexed now m dataSet i m' :
  indexed m -> createDataSet now m dataSet = Ok (i, m') -> indexed m'.
Proof.
  intros Hx H. unfold createDataSet in H.
  destruct (dataSetNameMap_ m !! name dataSet) eqn:E; [discriminate|].
  destruct (nextDataSetId_ m <? INT_MAX); [|discriminate].
  inversion H; subst; clear H. intros j d Hl. simpl in *.
  destruct (decide (j = nextDataSetId_ m)) as [->|Hne].
  - rewrite lookup_insert_eq in Hl. inversion Hl; subst d. simpl.
    now rewrite lookup_insert_eq.
  - rewrite lookup_insert_ne in Hl by done. destruct (Hx _ _ Hl) as [H1 H2].
    split; [exact H1|]. rewrite lookup_insert_ne; [exact H2|]. intros Heq.
    rewrite Heq in E. congruence.
Qed.



Lemma addDataItem_indexed now m dataSetId dataItem i m' :
  indexed m -> addDataItem now m dataSetId dataItem = Ok (i, m') -> indexed m'.
Proof.
  intros Hx H. unfold addDataItem, checked_dataSet in H.
  destruct (dataSets_ m !! dataSetId) as [ds0|] eqn:E; [|discriminate].
  simpl in H. destruct (existsb _ _); [discriminate|].
  destruct (nextDataItemId_ m <? INT_MAX); [|discriminate].
  inversion H; subst; clear H. eapply replace_dataSet_indexed; eauto.
Qed.




Lemma build_store_indexed setName pairs m :
  Examples.build_store setName pairs = Ok m -> indexed m.
Proof.
  unfold Examples.build_store.
  destruct (createDataSet _ _ _) as [[i m0]| |] eqn:Ec; simpl; try discriminate.
  assert (H0 : forall m1, Ok m0 = Ok m1 -> indexed m1).
  { intros m1 H. inversion H; subst.
    eapply createDataSet_indexed; [apply indexed_empty | exact Ec]. }
  clear Ec. revert H0. generalize (Ok m0). revert m.
  induction pairs as [|kv pairs IH]; simpl; intros m acc Hacc H.
  - now apply Hacc.
  - eapply IH; [|exact H]. intros m1 H1.
    destruct acc as [ma| |]; simpl in H1; try discriminate.
    destruct (addDataItem _ ma i _) as [[j mb]| |] eqn:Ea; simpl in H1; try discriminate.
    inversion H1; subst. eapply addDataItem_indexed; [|exact Ea]. now apply Hacc.
Qed.

Lemma plain_store_indexed : indexed Examples.plain_store.
Proof.
  unfold Examples.plain_store.
  destruct (Examples.build_store "A" [("x", "5")]) as [m| |] eqn:E; simpl;
    [ eapply build_store_indexed; eauto | apply indexed_empty.. ].
Qed.

End StoreInvariants.



(** ** The data store: what each operation leaves behind *)

Section StoreOperations.
Import TestData.

Lemma find_item_app itemName l l' :
  find_item itemName (l ++ l')
  = match find_item itemName l with
    | Some item => Some item
    | None => find_item itemName l'
    end.
Proof.
  induction l as [|x l IH]; simpl; [reflexivity|].
  destruct (String.eqb (item_name x) itemName); [reflexivity | exact IH].
Qed.

Lemma existsb_name_find_item itemName l :
  existsb (fun item => String.eqb (item_name item) itemName) l = false ->
  find_item itemName l = None.
Proof.
  induction l as [|x l IH]; simpl; [reflexivity|].
  destruct (String.eqb (item_name x) itemName); simpl; [discriminate | exact IH].
Qed.

Lemma find_item_existsb itemName l item :
  find_item itemName l = Some item ->
  existsb (fun item => String.eqb (item_name item) itemName) l = true.
Proof.
  induction l as [|x l IH]; simpl; [discriminate|].
  destruct (String.eqb (item_name x) itemName); simpl; [reflexivity | exact IH].
Qed.

Lemma find_item_by_id_id dataItemId l item :
  find_item_by_id dataItemId l = Some item -> item_id item = dataItemId /\ In item l.
Proof.
  induction l as [|x l IH]; simpl; [discriminate|].
  destruct (Z.eqb (item_id x) dataItemId) eqn:E.
  - intros H. inversion H; subst. apply Z.eqb_eq in E. auto.
  - intros H. destruct (IH H). auto.
Qed.

Lemma find_item_In itemName l item :
  find_item itemName l = Some item -> In item l.
Proof.
  induction l as [|x l IH]; simpl; [discriminate|].
  destruct (String.eqb (item_name x) itemName).
  - intros H. inversion H; subst. now left.
  - intros H. right. now apply IH.
Qed.

(** Filtering an id out: it is gone, every other id is found as before. *)
Lemma find_item_by_id_filter dropped wanted l :
  find_item_by_id wanted
    (List.filter (fun item => negb (Z.eqb (item_id item) dropped)) l)
  = if Z.eqb wanted dropped then None else find_item_by_id wanted l.
Proof.
  induction l as [|x l IH]; simpl; [now destruct (Z.eqb wanted dropped)|].
  destruct (Z.eqb (item_id x) dropped) eqn:Ed; simpl.
  - rewrite IH. destruct (Z.eqb wanted dropped) eqn:Ew; [reflexivity|].
    destruct (Z.eqb (item_id x) wanted) eqn:Ex; [|reflexivity].
    apply Z.eqb_eq in Ed, Ex. apply Z.eqb_neq in Ew. congruence.
  - destruct (Z.eqb (item_id x) wanted) eqn:Ex.
    + apply Z.eqb_eq in Ex. subst wanted. now rewrite Ed.
    + exact IH.
Qed.

Lemma filter_shorter_iff dropped l :
  (length (List.filter (fun item => negb (Z.eqb (item_id item) dropped)) l) <? length l)%nat
  = match find_item_by_id dropped l with Some _ => true | None => false end.
Proof.
  assert (Hle : forall l', (length (List.filter
                 (fun item => negb (Z.eqb (item_id item) dropped)) l') <= length l')%nat).
  { induction l' as [|y l' IH']; simpl; [lia|]. destruct (negb _); simpl; lia. }
  induction l as [|x l IH]; [reflexivity|].
  cbn [List.filter find_item_by_id].
  destruct (Z.eqb (item_id x) dropped) eqn:Ed; cbn [negb length].
  - apply Nat.ltb_lt. specialize (Hle l). lia.
  - rewrite <- IH. apply eq_iff_eq_true. rewrite !Nat.ltb_lt. lia.
Qed.

(** After dropping the id of the only item of a name, the name is gone. *)
Lemma find_item_fresh itemName l :
  itemName ∉ item_name <$> l -> find_item itemName l = None.
Proof.
  induction l as [|y l IH]; [reflexivity|].
  rewrite fmap_cons. cbn [find_item]. intros Hy.
  apply not_elem_of_cons in Hy as [Hy1 Hy2].
  destruct (String.eqb (item_name y) itemName) eqn:Ey.
  - apply String.eqb_eq in Ey. congruence.
  - now apply IH.
Qed.

Lemma find_item_filter_unique itemName l item :
  NoDup (item_name <$> l) -> find_item itemName l = Some item ->
  find_item itemName
    (List.filter (fun other => negb (Z.eqb (item_id other) (item_id item))) l) = None.
Proof.
  induction l as [|x l IH]; [discriminate|].
  rewrite fmap_cons. cbn [find_item List.filter]. intros Hnd.
  apply NoDup_cons in Hnd as [Hx Hnd].
  destruct (String.eqb (item_name x) itemName) eqn:En.
  - intros H. inversion H; subst x. rewrite Z.eqb_refl. cbn [negb].
    apply String.eqb_eq in En. apply find_item_fresh. rewrite <- En.
    intros Hin. apply Hx. apply list_elem_of_fmap in Hin as (y & Hy & Hin).
    apply list_elem_of_fmap. exists y. split; [exact Hy|].
    apply list_elem_of_In in Hin. apply filter_In in Hin as [Hin _].
    now apply list_elem_of_In.
  - intros H. destruct (negb (Z.eqb (item_id x) (item_id item))); cbn [find_item].
    + rewrite En. now apply IH.
    + now apply IH.
Qed.

(** The loop of [updateDataItem], case by case. *)
Lemma update_loop_cases now k dataItem all rest :
  match find_item_by_id (item_id dataItem) rest with
  | None => update_loop now k dataItem all rest = Ok None
  | Some old =>
      if negb (String.eqb (item_name old) (item_name dataItem)) && name_taken dataItem all
      then update_loop now k dataItem all rest = Throw (item_exists (item_name dataItem) k)
      else exists updated,
          update_loop now k dataItem all rest = Ok (Some updated)
          /\ length updated = length rest
          /\ find_item_by_id (item_id dataItem) updated = Some (updated_item now old dataItem)
          /\ forall other, other <> item_id dataItem ->
               find_item_by_id other updated = find_item_by_id other rest
  end.
Proof.
  induction rest as [|x rest IH]; simpl; [reflexivity|].
  destruct (Z.eqb (item_id x) (item_id dataItem)) eqn:Ex.
  - destruct (negb _ && _); [reflexivity|].
    eexists. split; [reflexivity|]. simpl. rewrite Z.eqb_refl.
    repeat split. intros other Hne. apply Z.eqb_eq in Ex. rewrite Ex.
    destruct (Z.eqb (item_id dataItem) other) eqn:E; [|reflexivity].
    apply Z.eqb_eq in E. congruence.
  - destruct (find_item_by_id (item_id dataItem) rest) as [old|].
    + destruct (negb _ && _).
      * now rewrite IH.
      * destruct IH as (updated & Hrun & Hlen & Hfind & Hother).
        exists (x :: updated). rewrite Hrun. simpl. rewrite Ex.
        repeat split; [now rewrite Hlen | exact Hfind |].
        intros other Hne. destruct (Z.eqb (item_id x) other); [reflexivity|].
        now apply Hother.
    + now rewrite IH.
Qed.

(** The same loop in terms of the vector it walks. *)
Lemma update_loop_none now k dataItem all rest :
  Forall (fun x => item_id x <> item_id dataItem) rest ->
  update_loop now k dataItem all rest = Ok None.
Proof.
  induction 1 as [|x rest Hx _ IH]; cbn [update_loop]; [reflexivity|].
  apply Z.eqb_neq in Hx. now rewrite Hx, IH.
Qed.

Lemma update_loop_split now k dataItem all before old after :
  Forall (fun x => item_id x <> item_id dataItem) before ->
  item_id old = item_id dataItem ->
  update_loop now k dataItem all (before ++ old :: after)
  = if negb (String.eqb (item_name old) (item_name dataItem)) && name_taken dataItem all
    then Throw (item_exists (item_name dataItem) k)
    else Ok (Some (before ++ updated_item now old dataItem :: after)).
Proof.
  intros Hb Hold. induction Hb as [|x before Hx _ IH]; cbn [app update_loop].
  - apply Z.eqb_eq in Hold. rewrite Hold. now destruct (negb _ && _).
  - apply Z.eqb_neq in Hx. rewrite Hx, IH. now destruct (negb _ && _).
Qed.

Lemma name_taken_iff dataItem all :
  name_taken dataItem all = true <->
  exists other, other ∈ all /\ item_id other <> item_id dataItem
                /\ item_name other = item_name dataItem.
Proof.
  unfold name_taken. rewrite existsb_exists. split.
  - intros (other & Hin & H). apply andb_true_iff in H as [Hid Hname].
    apply negb_true_iff, Z.eqb_neq in Hid. apply String.eqb_eq in Hname.
    exists other. split; [now apply list_elem_of_In | auto].
  - intros (other & Hin & Hid & Hname). exists other.
    split; [now apply list_elem_of_In|].
    apply Z.eqb_neq in Hid. apply String.eqb_eq in Hname. now rewrite Hid, Hname.
Qed.

Lemma find_item_by_id_split wanted before item after :
  Forall (fun x => item_id x <> wanted) before -> item_id item = wanted ->
  find_item_by_id wanted (before ++ item :: after) = Some item.
Proof.
  intros Hb Hitem. induction Hb as [|x before Hx _ IH]; cbn [app find_item_by_id].
  - apply Z.eqb_eq in Hitem. now rewrite Hitem.
  - apply Z.eqb_neq in Hx. now rewrite Hx.
Qed.

Lemma find_item_by_id_replace wanted before item item' after :
  item_id item = item_id item' -> item_id item <> wanted ->
  find_item_by_id wanted (before ++ item' :: after)
  = find_item_by_id wanted (before ++ item :: after).
Proof.
  intros Hsame Hne. induction before as [|x before IH]; cbn [app find_item_by_id].
  - rewrite <- Hsame. apply Z.eqb_neq in Hne. now rewrite Hne.
  - now rewrite IH.
Qed.

End StoreOperations.

(** X2: [createDataSet] returns only while the id counter, an [int], is
    below [INT_MAX].  The dataset it creates under a free name gets the
    counter's value as id, which no dataset had before, and the counter
    moves on by one; the dataset can be read back under that id with the
    given fields and the creation time, the other datasets are untouched,
    and creating a second dataset of the same name is refused. *)
Theorem createDataSet_registers
    (now : string) (m m' : TestData.TestDataManager) (dataSet : TestData.TestDataSet) (i : Z) :
  TestData.consistent m ->
  TestData.createDataSet now m dataSet = Ok (i, m') ->
  i = TestData.nextDataSetId_ m
  /\ TestData.dataSets_ m !! i = None
  /\ TestData.getDataSet m' i
     = Ok {| TestData.id := i; TestData.name := TestData.name dataSet;
             TestData.description := TestData.description dataSet;
             TestData.project_id := TestData.project_id dataSet;
             TestData.items := TestData.items dataSet;
             TestData.created_at := now; TestData.last_modified := now |}
  /\ TestData.dataSetNameMap_ m' !! TestData.name dataSet = Some i
  /\ i < INT_MAX
  /\ TestData.nextDataSetId_ m' = i + 1
  /\ (forall j, j <> i -> TestData.dataSets_ m' !! j = TestData.dataSets_ m !! j)
  /\ (forall now' other, TestData.name other = TestData.name dataSet ->
        TestData.createDataSet now' m' other
        = Throw (TestDataException
                   ("DataSet with name '" +:+ TestData.name dataSet +:+ "' already exists"))).
Proof.
  intros [_ Hi] H. unfold TestData.createDataSet in H.
  destruct (TestData.dataSetNameMap_ m !! TestData.name dataSet) eqn:E; [discriminate|].
  destruct (TestData.nextDataSetId_ m <? INT_MAX) eqn:Hmax; [|discriminate].
  apply Z.ltb_lt in Hmax.
  injection H as <- <-. repeat apply conj; try reflexivity; try exact Hmax.
  - destruct (TestData.dataSets_ m !! TestData.nextDataSetId_ m) as [ds|] eqn:Ed;
      [|reflexivity]. specialize (Hi _ _ Ed). lia.
  - unfold TestData.getDataSet, TestData.checked_dataSet. simpl.
    now rewrite lookup_insert_eq.
  - simpl. now rewrite lookup_insert_eq.
  - intros j Hne. simpl. now rewrite lookup_insert_ne.
  - intros now' other Hname. unfold TestData.createDataSet. simpl.
    rewrite Hname, lookup_insert_eq. reflexivity.
Qed.

(** Creating a dataset [B] beside [A]. *)
Lemma createDataSet_registers_witness :
  exists m',
    TestData.createDataSet Examples.clock Examples.plain_store (Examples.dataSet "B")
    = Ok (2, m')
    /\ TestData.dataSetNameMap_ m' !! "B" = Some 2.
Proof.
  destruct (TestData.createDataSet Examples.clock Examples.plain_store (Examples.dataSet "B"))
    as [[i m']| |] eqn:E; try (vm_compute in E; discriminate).
  destruct (createDataSet_registers Examples.clock Examples.plain_store m'
              (Examples.dataSet "B") i plain_store_consistent E)
    as (Hi & _ & _ & Hname & _).
  assert (H2 : i = 2) by (rewrite Hi; vm_compute; reflexivity).
  subst i. exists m'. split; [reflexivity | exact Hname].
Defined.

(** X3: once an item has been added to a dataset, the reference
    [${<dataset>.<item>}] resolves to the value it was added with; the item
    got the next item id, lookups of other names in the dataset answer as
    before, and a second item of the same name is refused. *)
Theorem addDataItem_then_resolve
    (now : string) (m m' : TestData.TestDataManager) (k i : Z)
    (ds : TestData.TestDataSet) (dataItem : TestData.TestDataItem) :
  TestData.indexed m ->
  TestData.dataSets_ m !! k = Some ds ->
  TestData.addDataItem now m k dataItem = Ok (i, m') ->
  Regex.is_token (Regex.token (TestData.name ds) (TestData.item_name dataItem))
    (TestData.name ds) (TestData.item_name dataItem) ->
  TestData.resolveDataReference m'
    (Regex.token (TestData.name ds) (TestData.item_name dataItem))
  = Ok (TestData.item_value dataItem)
  /\ i = TestData.nextDataItemId_ m
  /\ (forall n, n <> TestData.item_name dataItem ->
        TestData.getDataItemByName m' k n = TestData.getDataItemByName m k n)
  /\ (forall now' again,
        TestData.item_name again = TestData.item_name dataItem ->
        TestData.addDataItem now' m' k again
        = Throw (TestData.item_exists (TestData.item_name dataItem) k)).
Proof.
  intros Hx Hk H Htok. destruct (Hx _ _ Hk) as [_ Hname].
  unfold TestData.addDataItem, TestData.checked_dataSet in H. rewrite Hk in H. simpl in H.
  destruct (existsb _ (TestData.items ds)) eqn:Efree; [discriminate|].
  destruct (TestData.nextDataItemId_ m <? INT_MAX); [|discriminate].
  injection H as <- <-. apply existsb_name_find_item in Efree.
  repeat apply conj.
  - unfold TestData.resolveDataReference.
    apply regex_match_iff in Htok. rewrite Htok. simpl. rewrite Hname.
    unfold TestData.getDataItemByName, TestData.checked_dataSet. simpl.
    rewrite lookup_insert_eq. simpl. rewrite find_item_app, Efree. simpl.
    now rewrite String.eqb_refl.
  - reflexivity.
  - intros n Hne. unfold TestData.getDataItemByName, TestData.checked_dataSet. simpl.
    rewrite lookup_insert_eq, Hk. simpl. rewrite find_item_app.
    destruct (TestData.find_item n (TestData.items ds)); [reflexivity|]. simpl.
    destruct (String.eqb (TestData.item_name dataItem) n) eqn:E; [|reflexivity].
    apply String.eqb_eq in E. congruence.
  - intros now' again Hagain. unfold TestData.addDataItem, TestData.checked_dataSet. simpl.
    rewrite lookup_insert_eq. simpl. rewrite existsb_app. simpl.
    rewrite Hagain, String.eqb_refl, orb_true_r. reflexivity.
Qed.

(** Adding [y = "7"] to the dataset [A] of the store [{A: {x: "5"}}]. *)
Lemma addDataItem_then_resolve_witness :
  exists i m',
    TestData.addDataItem Examples.clock Examples.plain_store 1 (Examples.item "y" "7")
    = Ok (i, m')
    /\ TestData.resolveDataReference m' "${A.y}" = Ok "7".
Proof.
  destruct (TestData.addDataItem Examples.clock Examples.plain_store 1 (Examples.item "y" "7"))
    as [[i m']| |] eqn:E; try (vm_compute in E; discriminate).
  exists i, m'. split; [reflexivity|].
  assert (Hk : exists ds, TestData.dataSets_ Examples.plain_store !! 1 = Some ds
                          /\ TestData.name ds = "A").
  { eexists. split; [vm_compute; reflexivity | reflexivity]. }
  destruct Hk as (ds & Hk & Hn).
  destruct (addDataItem_then_resolve Examples.clock Examples.plain_store m' 1 i ds
              (Examples.item "y" "7") plain_store_indexed Hk E) as (Hres & _).
  - rewrite Hn. repeat split; discriminate.
  - rewrite Hn in Hres. exact Hres.
Defined.

(** X4: deleting a stored dataset succeeds and leaves nothing of it: its
    id no longer reads, its name is free, references into it fail with
    "dataset not found", a second deletion throws, and the other datasets
    are untouched. *)
Theorem deleteDataSet_forgets
    (m : TestData.TestDataManager) (k : Z) (ds : TestData.TestDataSet) :
  TestData.dataSets_ m !! k = Some ds ->
  exists m',
    TestData.deleteDataSet m k = Ok (true, m')
    /\ TestData.getDataSet m' k = Throw (TestData.no_such_dataSet k)
    /\ TestData.dataSetNameMap_ m' !! TestData.name ds = None
    /\ (forall itemName,
          Regex.is_token (Regex.token (TestData.name ds) itemName) (TestData.name ds) itemName ->
          TestData.resolveDataReference m' (Regex.token (TestData.name ds) itemName)
          = Throw (TestData.unknown_dataSet (TestData.name ds)))
    /\ TestData.deleteDataSet m' k = Throw (TestData.no_such_dataSet k)
    /\ (forall j, j <> k -> TestData.dataSets_ m' !! j = TestData.dataSets_ m !! j).
Proof.
  intros Hk. unfold TestData.deleteDataSet, TestData.checked_dataSet. rewrite Hk. simpl.
  eexists. split; [reflexivity|]. repeat apply conj.
  - unfold TestData.getDataSet, TestData.checked_dataSet. simpl.
    now rewrite lookup_delete_eq.
  - simpl. now rewrite lookup_delete_eq.
  - intros itemName Htok. unfold TestData.resolveDataReference.
    apply regex_match_iff in Htok. rewrite Htok. simpl. now rewrite lookup_delete_eq.
  - simpl. now rewrite lookup_delete_eq.
  - intros j Hne. simpl. now rewrite lookup_delete_ne.
Qed.

(** Deleting the only dataset of the store [{A: {x: "5"}}]. *)
Lemma deleteDataSet_forgets_witness :
  exists m',
    TestData.deleteDataSet Examples.plain_store 1 = Ok (true, m')
    /\ TestData.resolveDataReference m' "${A.x}" = Throw (TestData.unknown_dataSet "A").
Proof.
  assert (Hk : exists ds, TestData.dataSets_ Examples.plain_store !! 1 = Some ds
                          /\ TestData.name ds = "A").
  { eexists. split; [vm_compute; reflexivity | reflexivity]. }
  destruct Hk as (ds & Hk & Hn).
  destruct (deleteDataSet_forgets Examples.plain_store 1 ds Hk)
    as (m' & Hdel & _ & _ & Hres & _).
  exists m'. split; [exact Hdel|].
  specialize (Hres "x"). rewrite Hn in Hres. apply Hres. repeat split; discriminate.
Defined.

(** X5: [removeDataItem] answers true exactly when some item of the dataset
    has the id, and false leaves the store as it was; afterwards the
    dataset holds the other items in their old order, the id no longer
    reads, and every other id reads as before. *)
Theorem removeDataItem_spec
    (now : string) (m : TestData.TestDataManager) (k dataItemId : Z)
    (ds : TestData.TestDataSet) :
  TestData.dataSets_ m !! k = Some ds ->
  exists b m',
    TestData.removeDataItem now m k dataItemId = Ok (b, m')
    /\ (b = true <-> exists item, In item (TestData.items ds)
                                  /\ TestData.item_id item = dataItemId)
    /\ (b = false -> m' = m)
    /\ (exists ds', TestData.dataSets_ m' !! k = Some ds'
          /\ TestData.name ds' = TestData.name ds
          /\ TestData.items ds'
             = List.filter (fun item => negb (Z.eqb (TestData.item_id item) dataItemId))
                 (TestData.items ds))
    /\ TestData.getDataItem m' k dataItemId = Throw (TestData.item_not_found dataItemId k)
    /\ (forall other, other <> dataItemId ->
          TestData.getDataItem m' k other = TestData.getDataItem m k other).
Proof.
  intros Hk. unfold TestData.removeDataItem, TestData.checked_dataSet. rewrite Hk. simpl.
  rewrite filter_shorter_iff.
  destruct (TestData.find_item_by_id dataItemId (TestData.items ds)) as [found|] eqn:Ef;
    cbv iota.
  - exists true. eexists. split; [reflexivity|]. split_and!.
    + split; [|reflexivity]. intros _. exists found.
      apply find_item_by_id_id in Ef. tauto.
    + discriminate.
    + eexists. simpl. rewrite lookup_insert_eq. repeat split.
    + unfold TestData.getDataItem, TestData.checked_dataSet. simpl.
      rewrite lookup_insert_eq. simpl. rewrite find_item_by_id_filter, Z.eqb_refl. reflexivity.
    + intros other Hne. unfold TestData.getDataItem, TestData.checked_dataSet. simpl.
      rewrite lookup_insert_eq, Hk. simpl. rewrite find_item_by_id_filter.
      apply Z.eqb_neq in Hne. now rewrite Hne.
  - assert (Hsame : List.filter
              (fun item => negb (Z.eqb (TestData.item_id item) dataItemId)) (TestData.items ds)
              = TestData.items ds).
    { clear Hk. induction (TestData.items ds) as [|x l IH]; [reflexivity|].
      simpl in Ef |- *. destruct (Z.eqb (TestData.item_id x) dataItemId); [discriminate|].
      simpl. f_equal. now apply IH. }
    exists false, m. split; [reflexivity|]. split_and!.
    + split; [discriminate|]. intros (item & Hin & Hid). exfalso.
      clear Hk Hsame. induction (TestData.items ds) as [|x l IH]; [inversion Hin|].
      simpl in Ef. destruct (Z.eqb (TestData.item_id x) dataItemId) eqn:Ex; [discriminate|].
      destruct Hin as [->|Hin]; [|now apply IH].
      apply Z.eqb_neq in Ex. congruence.
    + reflexivity.
    + exists ds. rewrite Hsame. auto.
    + unfold TestData.getDataItem, TestData.checked_dataSet. rewrite Hk. simpl.
      now rewrite Ef.
    + reflexivity.
Qed.

(** Removing the item with id 1, the only item of [{A: {x: "5"}}]. *)
Lemma removeDataItem_spec_witness :
  exists m',
    TestData.removeDataItem Examples.clock Examples.plain_store 1 1 = Ok (true, m')
    /\ TestData.getDataItem m' 1 1 = Throw (TestData.item_not_found 1 1).
Proof.
  assert (Hk : exists ds, TestData.dataSets_ Examples.plain_store !! 1 = Some ds
                          /\ TestData.item_id <$> TestData.items ds = [1]).
  { eexists. split; [vm_compute; reflexivity | reflexivity]. }
  destruct Hk as (ds & Hk & Hids).
  destruct (removeDataItem_spec Examples.clock Examples.plain_store 1 1 ds Hk)
    as (b & m' & Hrun & Hb & _ & _ & Hget & _).
  assert (b = true).
  { apply Hb. destruct (TestData.items ds) as [|x [|y l]]; try discriminate.
    exists x. split; [now left|]. now inversion Hids. }
  subst b. exists m'. split; [exact Hrun | exact Hget].
Defined.

(** X6: [updateDataItem] on a stored dataset.  It throws "not found" when
    no item of the dataset has the given item's id.  Otherwise the first
    item with that id is the one updated: when the update changes its name
    to a name that an item with another id carries, it throws "already
    exists"; in every other case it answers [true], and the item's place in
    the dataset is taken by the given item with the old creation time and
    the time of the update as modification time.  The other items, their
    order and the other datasets are untouched, the dataset's modification
    time is the time of the update, and the id then reads as the new item. *)
Theorem updateDataItem_spec
    (now : string) (m : TestData.TestDataManager) (k : Z)
    (ds : TestData.TestDataSet) (dataItem : TestData.TestDataItem) :
  TestData.dataSets_ m !! k = Some ds ->
  (Forall (fun x => TestData.item_id x <> TestData.item_id dataItem) (TestData.items ds) ->
   TestData.updateDataItem now m k dataItem
   = Throw (TestDataException
              ("DataItem with ID " +:+ Str.to_string (TestData.item_id dataItem)
               +:+ " not found in DataSet " +:+ Str.to_string k)))
  /\ (forall before old after,
        TestData.items ds = before ++ old :: after ->
        Forall (fun x => TestData.item_id x <> TestData.item_id dataItem) before ->
        TestData.item_id old = TestData.item_id dataItem ->
        (TestData.item_name old <> TestData.item_name dataItem ->
         (exists other, other ∈ TestData.items ds
                        /\ TestData.item_id other <> TestData.item_id dataItem
                        /\ TestData.item_name other = TestData.item_name dataItem) ->
         TestData.updateDataItem now m k dataItem
         = Throw (TestDataException
                    ("DataItem with name '" +:+ TestData.item_name dataItem
                     +:+ "' already exists in DataSet " +:+ Str.to_string k)))
        /\ (TestData.item_name old = TestData.item_name dataItem
            \/ ~ (exists other, other ∈ TestData.items ds
                                /\ TestData.item_id other <> TestData.item_id dataItem
                                /\ TestData.item_name other = TestData.item_name dataItem) ->
            let new :=
              {| TestData.item_id := TestData.item_id dataItem;
                 TestData.item_name := TestData.item_name dataItem;
                 TestData.item_type := TestData.item_type dataItem;
                 TestData.item_value := TestData.item_value dataItem;
                 TestData.item_description := TestData.item_description dataItem;
                 TestData.item_project_id := TestData.item_project_id dataItem;
                 TestData.item_created_at := TestData.item_created_at old;
                 TestData.item_last_modified := now |} in
            exists m',
              TestData.updateDataItem now m k dataItem = Ok (true, m')
              /\ TestData.dataSets_ m' !! k
                 = Some {| TestData.id := TestData.id ds; TestData.name := TestData.name ds;
                           TestData.description := TestData.description ds;
                           TestData.project_id := TestData.project_id ds;
                           TestData.items := before ++ new :: after;
                           TestData.created_at := TestData.created_at ds;
                           TestData.last_modified := now |}
              /\ (forall j, j <> k ->
                    TestData.dataSets_ m' !! j = TestData.dataSets_ m !! j)
              /\ TestData.dataSetNameMap_ m' = TestData.dataSetNameMap_ m
              /\ TestData.getDataItem m' k (TestData.item_id dataItem) = Ok new
              /\ (forall other, other <> TestData.item_id dataItem ->
                    TestData.getDataItem m' k other = TestData.getDataItem m k other))).
Proof.
  intros Hk. unfold TestData.updateDataItem, TestData.checked_dataSet. rewrite Hk.
  cbn [mbind result_bind]. split.
  - intros Hnone. now rewrite (update_loop_none _ _ _ _ _ Hnone).
  - intros before old after Hsplit Hb Hold.
    pose proof (update_loop_split now k dataItem (TestData.items ds) before old after
                  Hb Hold) as Hloop.
    rewrite <- Hsplit in Hloop. rewrite Hloop. clear Hloop. split.
    + intros Hname Htaken. apply String.eqb_neq in Hname.
      apply name_taken_iff in Htaken. now rewrite Hname, Htaken.
    + intros Hfree.
      assert (Hguard : negb (String.eqb (TestData.item_name old) (TestData.item_name dataItem))
                       && TestData.name_taken dataItem (TestData.items ds) = false).
      { destruct Hfree as [Hsame|Hfree].
        - apply String.eqb_eq in Hsame. now rewrite Hsame.
        - destruct (TestData.name_taken dataItem (TestData.items ds)) eqn:Ht;
            [|apply andb_false_r].
          apply name_taken_iff in Ht. now destruct Hfree. }
      rewrite Hguard. cbn zeta. eexists. split; [reflexivity|].
      cbn [TestData.dataSets_ TestData.dataSetNameMap_].
      split_and!.
      * now rewrite lookup_insert_eq.
      * intros j Hj. now apply lookup_insert_ne.
      * reflexivity.
      * unfold TestData.getDataItem, TestData.checked_dataSet.
        cbn [TestData.dataSets_]. rewrite lookup_insert_eq.
        cbn [mbind result_bind TestData.items].
        rewrite find_item_by_id_split; [reflexivity | exact Hb | reflexivity].
      * intros other Hne. unfold TestData.getDataItem, TestData.checked_dataSet.
        cbn [TestData.dataSets_]. rewrite lookup_insert_eq, Hk.
        cbn [mbind result_bind TestData.items]. rewrite Hsplit.
        rewrite (find_item_by_id_replace other before old); [reflexivity | | congruence].
        exact Hold.
Qed.

(** In the store [{A: {x: "${A.y}", y: "5"}}]: giving [y] the value [6]
    succeeds and keeps [x] in front of it. *)
Lemma updateDataItem_spec_witness :
  exists m',
    TestData.updateDataItem "2025-02-02 00:00:00" Examples.nested_store 1
      {| TestData.item_id := 2; TestData.item_name := "y"; TestData.item_type := "int";
         TestData.item_value := "6"; TestData.item_description := EmptyString;
         TestData.item_project_id := 1; TestData.item_created_at := EmptyString;
         TestData.item_last_modified := EmptyString |} = Ok (true, m')
    /\ TestData.resolveDataReference m' "${A.y}" = Ok "6".
Proof.
  set (new := {| TestData.item_id := 2; TestData.item_name := "y";
                 TestData.item_type := "int"; TestData.item_value := "6";
                 TestData.item_description := EmptyString; TestData.item_project_id := 1;
                 TestData.item_created_at := EmptyString;
                 TestData.item_last_modified := EmptyString |}).
  assert (Hk : exists ds x y,
            TestData.dataSets_ Examples.nested_store !! 1 = Some ds
            /\ TestData.items ds = [x] ++ y :: []
            /\ TestData.item_id x = 1 /\ TestData.item_id y = 2
            /\ TestData.item_name y = "y").
  { eexists. eexists. eexists. split; [vm_compute; reflexivity|]. repeat split. }
  destruct Hk as (ds & x & y & Hk & Hitems & Hx & Hy & Hname).
  destruct (updateDataItem_spec "2025-02-02 00:00:00" Examples.nested_store 1 ds new Hk)
    as (_ & Hfound).
  destruct (Hfound [x] y [] Hitems) as (_ & Hok).
  { constructor; [rewrite Hx; discriminate | constructor]. }
  { exact Hy. }
  destruct (Hok (or_introl Hname)) as (m' & Hrun & _).
  exists m'. split; [exact Hrun|].
  assert (E : (TestData.updateDataItem "2025-02-02 00:00:00" Examples.nested_store 1 new)
              = Ok (true, m')) by exact Hrun.
  vm_compute in E. injection E as <-. vm_compute. reflexivity.
Defined.

(** X7: [removeDataItembyName] throws "not found" when no item of the
    dataset carries the name; otherwise it removes by the id of the first
    item that carries it: that id no longer reads, and when item names are
    distinct within the dataset the name no longer reads either. *)
Theorem removeDataItembyName_spec
    (now : string) (m : TestData.TestDataManager) (k : Z)
    (ds : TestData.TestDataSet) (itemName : string) :
  TestData.dataSets_ m !! k = Some ds ->
  (TestData.find_item itemName (TestData.items ds) = None ->
   TestData.removeDataItembyName now m k itemName
   = Throw (TestDataException ("DataItem with name '" +:+ itemName
                               +:+ "' not found in DataSet " +:+ Str.to_string k)))
  /\ (forall item,
        TestData.find_item itemName (TestData.items ds) = Some item ->
        exists m',
          TestData.removeDataItembyName now m k itemName = Ok (true, m')
          /\ TestData.getDataItem m' k (TestData.item_id item)
             = Throw (TestData.item_not_found (TestData.item_id item) k)
          /\ (NoDup (TestData.item_name <$> TestData.items ds) ->
              TestData.getDataItemByName m' k itemName
              = Throw (TestDataException ("DataItem with name '" +:+ itemName
                         +:+ "' not found in DataSet " +:+ Str.to_string k)))).
Proof.
  intros Hk. unfold TestData.removeDataItembyName, TestData.checkDataSetExists,
    TestData.getDataItemByName, TestData.checked_dataSet. rewrite Hk. simpl. split.
  - intros Hnone. now rewrite Hnone.
  - intros item Hitem. rewrite Hitem. simpl.
    unfold TestData.removeDataItem, TestData.checked_dataSet. rewrite Hk. simpl.
    rewrite filter_shorter_iff.
    assert (Hid : exists found, TestData.find_item_by_id (TestData.item_id item)
                                  (TestData.items ds) = Some found).
    { apply find_item_In in Hitem. clear Hk.
      induction (TestData.items ds) as [|x l IH]; [inversion Hitem|]. simpl.
      destruct (Z.eqb (TestData.item_id x) (TestData.item_id item)) eqn:E; [eauto|].
      destruct Hitem as [->|Hin]; [|now apply IH].
      now rewrite Z.eqb_refl in E. }
    destruct Hid as [found Hfound]. rewrite Hfound.
    eexists. split; [reflexivity|]. split.
    + unfold TestData.getDataItem, TestData.checked_dataSet. simpl.
      rewrite lookup_insert_eq. simpl. rewrite find_item_by_id_filter, Z.eqb_refl.
      reflexivity.
    + intros Hnd. simpl. rewrite lookup_insert_eq. simpl.
      now rewrite (find_item_filter_unique _ _ _ Hnd Hitem).
Qed.

(** Removing [x] from [{A: {x: "5"}}] by name. *)
Lemma removeDataItembyName_spec_witness :
  exists m',
    TestData.removeDataItembyName Examples.clock Examples.plain_store 1 "x" = Ok (true, m')
    /\ TestData.getDataItem m' 1 1 = Throw (TestData.item_not_found 1 1).
Proof.
  assert (Hk : exists ds item,
            TestData.dataSets_ Examples.plain_store !! 1 = Some ds
            /\ TestData.find_item "x" (TestData.items ds) = Some item
            /\ TestData.item_id item = 1).
  { eexists. eexists. split; [vm_compute; reflexivity|]. split; reflexivity. }
  destruct Hk as (ds & item & Hk & Hitem & Hid).
  destruct (removeDataItembyName_spec Examples.clock Examples.plain_store 1 ds "x" Hk)
    as (_ & Hok).
  destruct (Hok item Hitem) as (m' & Hrun & Hget & _).
  exists m'. rewrite Hid in Hget. split; [exact Hrun | exact Hget].
Defined.

(** ** Searching in strings *)

Section SearchFacts.

Lemma drop_append a b : Str.drop (String.length a) (a +:+ b) = b.
Proof. induction a as [|c a IH]; [reflexivity|]. rewrite append_cons. simpl. exact IH. Qed.

Lemma take_append a b : Str.take (String.length a) (a +:+ b) = a.
Proof.
  induction a as [|c a IH]; [now destruct b|]. rewrite append_cons. simpl. now rewrite IH.
Qed.

Lemma drop_add n k s : Str.drop (n + k) s = Str.drop k (Str.drop n s).
Proof.
  revert s. induction n as [|n IH]; intros s; [reflexivity|].
  destruct s as [|c s]; simpl; [now destruct k | apply IH].
Qed.

Lemma mem_append c a b : Str.mem c (a +:+ b) = Str.mem c a || Str.mem c b.
Proof.
  induction a as [|x a IH]; [reflexivity|]. rewrite append_cons. simpl.
  now rewrite IH, orb_assoc.
Qed.

Lemma starts_with_append pat s : Str.starts_with pat (pat +:+ s) = true.
Proof.
  induction pat as [|c pat IH]; [reflexivity|]. rewrite append_cons. simpl.
  now rewrite Ascii.eqb_refl.
Qed.

(** A pattern cannot start where its first character does not occur. *)
Lemma starts_with_first c pat s :
  Str.starts_with (String c pat) s = true -> Str.mem c s = true.
Proof.
  destruct s as [|d s]; simpl; [discriminate|].
  destruct (Ascii.eqb c d); [reflexivity | discriminate].
Qed.

Lemma find0_absent c pat s :
  Str.mem c s = false -> Str.find0 (String c pat) s = None.
Proof.
  induction s as [|d s IH]; intros Hm; cbn [Str.find0].
  - reflexivity.
  - destruct (Str.starts_with (String c pat) (String d s)) eqn:E.
    + apply starts_with_first in E. congruence.
    + simpl in Hm. apply orb_false_iff in Hm as [_ Hm]. now rewrite IH.
Qed.

Lemma find0_skip c pat pre s :
  Str.mem c pre = false ->
  Str.find0 (String c pat) (pre +:+ s)
  = (fun k => (String.length pre + k)%nat) <$> Str.find0 (String c pat) s.
Proof.
  induction pre as [|d pre IH]; intros Hm.
  - rewrite append_nil. now destruct (Str.find0 (String c pat) s).
  - rewrite append_cons. cbn [Str.find0]. simpl in Hm.
    apply orb_false_iff in Hm as [Hd Hm].
    assert (E : Str.starts_with (String c pat) (String d (pre +:+ s)) = false)
      by (simpl; now rewrite Hd).
    rewrite E, (IH Hm). now destruct (Str.find0 (String c pat) s).
Qed.

Lemma find0_here pat s : Str.find0 pat (pat +:+ s) = Some O.
Proof.
  destruct pat as [|c pat]; [now destruct s|].
  rewrite append_cons. cbn [Str.find0]. rewrite <- append_cons.
  now rewrite starts_with_append.
Qed.

(** The first occurrence of a pattern behind a prefix free of its first
    character. *)
Lemma find_behind c pat pre s :
  Str.mem c pre = false ->
  Str.find (pre +:+ String c pat +:+ s) (String c pat) 0 = Some (String.length pre).
Proof.
  intros Hm. unfold Str.find. simpl Str.drop.
  rewrite find0_skip by exact Hm. rewrite find0_here. simpl. f_equal. lia.
Qed.

(** No occurrence from a position on when what is left lacks the first
    character. *)
Lemma find_none_after c pat a b :
  Str.mem c b = false -> Str.find (a +:+ b) (String c pat) (String.length a) = None.
Proof.
  intros Hm. unfold Str.find, Str.len. rewrite length_append.
  destruct (_ <? _)%nat eqn:E; [reflexivity|].
  rewrite drop_append, find0_absent by exact Hm. reflexivity.
Qed.

Lemma replace_middle a b c v :
  Str.replace (a +:+ b +:+ c) (String.length a) (String.length b) v = a +:+ v +:+ c.
Proof.
  unfold Str.replace. rewrite take_append, drop_add, drop_append, drop_append. reflexivity.
Qed.

End SearchFacts.

Section TokenFacts.
Import Regex.

Lemma token_append d i post :
  token d i +:+ post
  = String dollar (String lbrace (d +:+ String dot (i +:+ String rbrace post))).
Proof.
  unfold token. rewrite !append_cons, !append_assoc, !append_cons, !append_assoc,
    !append_cons, append_nil. reflexivity.
Qed.

Lemma match_here_absent s : Str.mem dollar s = false -> regex_search s = None.
Proof.
  induction s as [|c s IH]; intros Hm; [reflexivity|].
  cbn [Str.mem] in Hm. apply orb_false_iff in Hm as [Hc Hm].
  cbn [regex_search]. rewrite (IH Hm).
  assert (E : match_here (String c s) = None).
  { unfold match_here. destruct s as [|c1 s1]; [reflexivity|].
    rewrite (Ascii.eqb_sym c dollar), Hc. reflexivity. }
  now rewrite E.
Qed.

(** The search finds a token behind a prefix without [$]. *)
Lemma regex_search_behind pre d i post :
  Str.mem dollar pre = false -> is_token (token d i) d i ->
  regex_search (pre +:+ token d i +:+ post)
  = Some {| m_prefix := pre; m_full := token d i; m_1 := d; m_2 := i; m_suffix := post |}.
Proof.
  intros Hm (_ & Hd & Hdm & Hi & Him).
  assert (Hhere : match_here (token d i +:+ post) = Some (d, i, post)).
  { apply match_here_iff. split; [apply token_append | auto]. }
  induction pre as [|c pre IH].
  - rewrite append_nil. destruct (token d i +:+ post) eqn:E; cbn [regex_search];
      now rewrite Hhere.
  - cbn [Str.mem] in Hm. apply orb_false_iff in Hm as [Hc Hm].
    rewrite append_cons. cbn [regex_search].
    assert (E : match_here (String c (pre +:+ token d i +:+ post)) = None).
    { unfold match_here. destruct (pre +:+ token d i +:+ post) as [|c1 s1]; [reflexivity|].
      rewrite (Ascii.eqb_sym c dollar), Hc. reflexivity. }
    rewrite E, (IH Hm). reflexivity.
Qed.

End TokenFacts.

(** ** Substitution on simple texts *)

Section SimpleTexts.
Import TestData.

(** One occurrence between texts without [$] is replaced, and the loop
    stops behind the inserted value. *)
Lemma replace_loop_single fuel pre d i post v :
  Str.mem Regex.dollar pre = false -> Str.mem Regex.dollar post = false ->
  replace_loop (S (S fuel)) (Regex.token d i) v (pre +:+ Regex.token d i +:+ post) 0
  = pre +:+ v +:+ post.
Proof.
  intros Hpre Hpost. unfold Regex.token.
  cbn [replace_loop]. rewrite find_behind by exact Hpre.
  unfold Str.len. rewrite replace_middle.
  rewrite <- length_append, <- append_assoc.
  rewrite find_none_after by exact Hpost. now rewrite append_assoc.
Qed.

End SimpleTexts.

(** X8: a text without the character [$] holds no reference: both
    [TestDataManager::substituteDataReferences] and
    [AutomationCore::resolveDataReferences] return it unchanged. *)
Theorem no_dollar_unchanged
    (m : TestData.TestDataManager) (c : AutomationCore.core) (text : string) :
  Str.mem Regex.dollar text = false ->
  TestData.substituteDataReferences m text = text
  /\ AutomationCore.resolveDataReferences c text = Ok text.
Proof.
  intros Hm. split.
  - unfold TestData.substituteDataReferences. cbn [TestData.substitute_loop].
    now rewrite match_here_absent.
  - unfold AutomationCore.resolveDataReferences.
    destruct (AutomationCore.m_initialized c), (AutomationCore.m_dataManager c);
      try reflexivity.
    cbn [AutomationCore.resolve_loop]. unfold Str.find. simpl Str.drop.
    destruct (_ <? _)%nat; [reflexivity|].
    now rewrite (find0_absent Regex.dollar) by exact Hm.
Qed.

(** The text [plain text, no reference]. *)
Lemma no_dollar_unchanged_witness :
  TestData.substituteDataReferences Examples.nested_store "plain text, no reference"
  = "plain text, no reference".
Proof.
  apply (no_dollar_unchanged Examples.nested_store
           {| AutomationCore.m_initialized := true;
              AutomationCore.m_dataManager := Some Examples.nested_store |}
           "plain text, no reference").
  reflexivity.
Defined.

(** One reference, no other [$]: the value goes in, or the text stays. *)
Lemma substituteDataReferences_single_facts
    (m : TestData.TestDataManager) (pre d i post : string) (k : Z) :
  Str.mem Regex.dollar pre = false -> Str.mem Regex.dollar post = false ->
  Regex.is_token (Regex.token d i) d i ->
  TestData.dataSetNameMap_ m !! d = Some k ->
  (forall item, TestData.getDataItemByName m k i = Ok item ->
     TestData.substituteDataReferences m (pre +:+ Regex.token d i +:+ post)
     = pre +:+ TestData.item_value item +:+ post)
  /\ (forall e, TestData.getDataItemByName m k i = Throw e ->
     TestData.substituteDataReferences m (pre +:+ Regex.token d i +:+ post)
     = pre +:+ Regex.token d i +:+ post).
Proof.
  intros Hpre Hpost Htok Hk.
  assert (Hpos : (0 < Str.len (pre +:+ Regex.token d i +:+ post))%nat).
  { unfold Str.len. rewrite !length_append. unfold Regex.token.
    cbn [String.length]. lia. }
  unfold TestData.substituteDataReferences.
  split.
  - intros item Hitem. cbn [TestData.substitute_loop].
    rewrite regex_search_behind by assumption. cbn [Regex.m_suffix].
    unfold TestData.substitute_match. cbn [Regex.m_1 Regex.m_2 Regex.m_full].
    rewrite Hk, Hitem.
    destruct (Str.len (pre +:+ Regex.token d i +:+ post)) as [|n]; [lia|].
    rewrite replace_loop_single by assumption.
    cbn [TestData.substitute_loop]. now rewrite match_here_absent.
  - intros e He. cbn [TestData.substitute_loop].
    rewrite regex_search_behind by assumption. cbn [Regex.m_suffix].
    unfold TestData.substitute_match. cbn [Regex.m_1 Regex.m_2 Regex.m_full].
    rewrite Hk, He.
    destruct (Str.len (pre +:+ Regex.token d i +:+ post)) as [|n]; [lia|].
    cbn [TestData.substitute_loop]. now rewrite match_here_absent.
Qed.

(** X9: in a text that holds one well-formed reference and no other [$],
    [substituteDataReferences] puts the stored value in place of the
    reference when dataset and item are known, whatever the value contains,
    and returns the text unchanged when the item is unknown. *)
Theorem substituteDataReferences_single_reference
    (m : TestData.TestDataManager) (pre d i post : string) (k : Z) :
  Str.mem Regex.dollar pre = false -> Str.mem Regex.dollar post = false ->
  Regex.is_token (Regex.token d i) d i ->
  TestData.dataSetNameMap_ m !! d = Some k ->
  (forall item, TestData.getDataItemByName m k i = Ok item ->
     TestData.substituteDataReferences m (pre +:+ Regex.token d i +:+ post)
     = pre +:+ TestData.item_value item +:+ post)
  /\ (forall e, TestData.getDataItemByName m k i = Throw e ->
     TestData.substituteDataReferences m (pre +:+ Regex.token d i +:+ post)
     = pre +:+ Regex.token d i +:+ post).
Proof. exact (substituteDataReferences_single_facts m pre d i post k). Qed.

(** The text [value: ${A.x}!] on the store [{A: {x: "${A.y}", y: "5"}}]:
    the value of [x] is put in as it is. *)
Lemma substituteDataReferences_single_reference_witness :
  TestData.substituteDataReferences Examples.nested_store "value: ${A.x}!"
  = "value: ${A.y}!".
Proof.
  destruct (substituteDataReferences_single_reference Examples.nested_store
              "value: " "A" "x" "!" 1) as [Hok _].
  - reflexivity.
  - reflexivity.
  - repeat split; discriminate.
  - vm_compute. reflexivity.
  - assert (Hitem : exists item, TestData.getDataItemByName Examples.nested_store 1 "x"
                                 = Ok item /\ TestData.item_value item = "${A.y}").
    { eexists. split; [vm_compute; reflexivity | reflexivity]. }
    destruct Hitem as (item & Hitem & Hv).
    specialize (Hok item Hitem). rewrite Hv in Hok. exact Hok.
Defined.

(** ** The facade's substitution on a single reference *)

Section FacadeFacts.
Import TestData.

Lemma find_from a b pat :
  Str.find (a +:+ b) pat (String.length a)
  = (fun k => (String.length a + k)%nat) <$> Str.find0 pat b.
Proof.
  unfold Str.find, Str.len. rewrite length_append, drop_append.
  destruct (_ <? _)%nat eqn:E; [apply Nat.ltb_lt in E; lia | reflexivity].
Qed.

(** Under the two invariants, looking a dataset up by name among all
    datasets finds the one the name map points to. *)
Lemma find_dataSet_by_name m d k :
  consistent m -> indexed m -> dataSetNameMap_ m !! d = Some k ->
  exists ds, List.find (fun ds => String.eqb (name ds) d) (getAllDataSets m) = Some ds
             /\ dataSets_ m !! k = Some ds /\ id ds = k.
Proof.
  intros [Hn _] Hx Hk. destruct (Hn _ _ Hk) as (ds & Hds & Hname).
  assert (Hall : forall ds', In ds' (getAllDataSets m) <->
                             exists k', dataSets_ m !! k' = Some ds').
  { intros ds'. unfold getAllDataSets. rewrite <- list_elem_of_In, list_elem_of_fmap.
    split.
    - intros ([k' x] & -> & Hin). rewrite merge_sort_Permutation in Hin.
      apply elem_of_map_to_list in Hin. eauto.
    - intros (k' & Hk'). exists (k', ds'). split; [reflexivity|].
      rewrite merge_sort_Permutation. now apply elem_of_map_to_list. }
  destruct (List.find _ (getAllDataSets m)) as [ds'|] eqn:Ef.
  - apply find_some in Ef as [Hin Heq]. apply String.eqb_eq in Heq.
    apply Hall in Hin as (k' & Hk'). destruct (Hx _ _ Hk') as [Hid Hmap].
    rewrite Heq, Hk in Hmap. injection Hmap as <-.
    rewrite Hds in Hk'. injection Hk' as <-. exists ds. auto.
  - exfalso. assert (Hin : In ds (getAllDataSets m)) by (apply Hall; eauto).
    apply (find_none _ _ Ef) in Hin. rewrite Hname, String.eqb_refl in Hin. discriminate.
Qed.

Variables (pre d i post : string).
Hypothesis Hpre : Str.mem Regex.dollar pre = false.
Hypothesis Hpost : Str.mem Regex.dollar post = false.
Hypothesis Htok : Regex.is_token (Regex.token d i) d i.
Hypothesis Hbrace : Str.mem Regex.rbrace d = false.

Let text : string := pre +:+ Regex.token d i +:+ post.
Let ref : string := d +:+ String Regex.dot i.

Lemma text_shape :
  text = pre +:+ String Regex.dollar (String Regex.lbrace EmptyString)
             +:+ ref +:+ String Regex.rbrace EmptyString +:+ post.
Proof.
  unfold text, ref. rewrite token_append. rewrite !append_cons, append_nil.
  rewrite !append_assoc, !append_cons, append_nil. reflexivity.
Qed.

Lemma ref_no_brace : Str.mem Regex.rbrace ref = false.
Proof.
  destruct Htok as (_ & _ & _ & _ & Hi). unfold ref.
  rewrite mem_append, Hbrace. cbn [Str.mem orb]. now rewrite Hi.
Qed.

Lemma length_token :
  String.length (Regex.token d i) = (2 + String.length ref + 1)%nat.
Proof.
  unfold Regex.token, ref. cbn [String.length].
  rewrite !length_append. cbn [String.length]. rewrite length_append.
  cbn [String.length]. lia.
Qed.

Lemma facade_find_open :
  Str.find text (String Regex.dollar (String Regex.lbrace EmptyString)) 0
  = Some (String.length pre).
Proof. rewrite text_shape. apply find_behind. exact Hpre. Qed.

Lemma facade_find_close :
  Str.find text (String Regex.rbrace EmptyString) (String.length pre)
  = Some (String.length pre + (2 + String.length ref))%nat.
Proof.
  rewrite text_shape, find_from.
  replace (String Regex.dollar (String Regex.lbrace EmptyString) +:+ ref
           +:+ String Regex.rbrace EmptyString +:+ post)
    with ((String Regex.dollar (String Regex.lbrace EmptyString) +:+ ref)
          +:+ String Regex.rbrace EmptyString +:+ post)
    by now rewrite append_assoc.
  rewrite find0_skip, find0_here.
  - simpl. rewrite length_append. simpl. f_equal. lia.
  - rewrite !append_cons, append_nil. cbn [Str.mem]. now rewrite ref_no_brace.
Qed.

Lemma facade_ref :
  AutomationCore.substr text (String.length pre + 2)
    (String.length pre + (2 + String.length ref) - String.length pre - 2) = ref.
Proof.
  unfold AutomationCore.substr. rewrite text_shape, drop_add, drop_append.
  rewrite !append_cons, append_nil. cbn [Str.drop].
  replace (String.length pre + (2 + String.length ref) - String.length pre - 2)%nat
    with (String.length ref) by lia.
  apply take_append.
Qed.

Lemma facade_find_dot :
  Str.find ref (String Regex.dot EmptyString) 0 = Some (String.length d).
Proof.
  destruct Htok as (_ & _ & Hd & _).
  replace ref with (d +:+ String Regex.dot EmptyString +:+ i) by reflexivity.
  apply find_behind. exact Hd.
Qed.

Lemma facade_names :
  AutomationCore.substr ref 0 (String.length d) = d
  /\ Str.drop (String.length d + 1) ref = i.
Proof.
  unfold AutomationCore.substr, ref. cbn [Str.drop]. split.
  - apply take_append.
  - rewrite drop_add, drop_append. reflexivity.
Qed.

Lemma facade_replace v :
  Str.replace text (String.length pre)
    (String.length pre + (2 + String.length ref) - String.length pre + 1) v
  = pre +:+ v +:+ post.
Proof.
  replace (String.length pre + (2 + String.length ref) - String.length pre + 1)%nat
    with (String.length (Regex.token d i)) by (rewrite length_token; lia).
  apply replace_middle.
Qed.

Lemma facade_find_next v :
  Str.find (pre +:+ v +:+ post) (String Regex.dollar (String Regex.lbrace EmptyString))
    (String.length pre + Str.len v) = None.
Proof.
  unfold Str.len. rewrite <- length_append, <- append_assoc.
  apply find_none_after. exact Hpost.
Qed.

(** The facade's loop on the text, given what the lookup of the item does. *)
Lemma resolve_loop_single m k fuel :
  consistent m -> indexed m -> dataSetNameMap_ m !! d = Some k ->
  AutomationCore.resolve_loop (S (S fuel)) m text 0
  = match getDataItemByName m k i with
    | Ok item => Ok (pre +:+ item_value item +:+ post)
    | Throw e => Throw e
    | Undefined => Undefined
    end.
Proof.
  intros Hc Hx Hk. destruct (find_dataSet_by_name m d k Hc Hx Hk) as (ds & Hfind & _ & Hid).
  cbn [AutomationCore.resolve_loop].
  change "${" with (String Regex.dollar (String Regex.lbrace EmptyString)).
  change "}" with (String Regex.rbrace EmptyString).
  change "." with (String Regex.dot EmptyString).
  rewrite facade_find_open, facade_find_close, facade_ref, facade_find_dot.
  destruct facade_names as [-> ->]. rewrite Hfind, Hid.
  destruct (getDataItemByName m k i) as [item| |]; try reflexivity.
  simpl. rewrite facade_replace.
  change "${" with (String Regex.dollar (String Regex.lbrace EmptyString)).
  now rewrite facade_find_next.
Qed.

End FacadeFacts.

(** X10: on a text that holds one well-formed reference whose dataset name
    has no [}], and no other [$], [AutomationCore::resolveDataReferences]
    returns what [TestDataManager::substituteDataReferences] returns when
    the item is known; when the dataset is known and the item is not, it
    throws the lookup's exception, where the data manager returns the text
    unchanged. *)
Theorem resolveDataReferences_single_reference
    (m : TestData.TestDataManager) (pre d i post : string) (k : Z) :
  TestData.consistent m -> TestData.indexed m ->
  Str.mem Regex.dollar pre = false -> Str.mem Regex.dollar post = false ->
  Regex.is_token (Regex.token d i) d i -> Str.mem Regex.rbrace d = false ->
  TestData.dataSetNameMap_ m !! d = Some k ->
  (forall item, TestData.getDataItemByName m k i = Ok item ->
     AutomationCore.resolveDataReferences
       {| AutomationCore.m_initialized := true; AutomationCore.m_dataManager := Some m |}
       (pre +:+ Regex.token d i +:+ post)
     = Ok (TestData.substituteDataReferences m (pre +:+ Regex.token d i +:+ post))
     /\ TestData.substituteDataReferences m (pre +:+ Regex.token d i +:+ post)
        = pre +:+ TestData.item_value item +:+ post)
  /\ (forall e, TestData.getDataItemByName m k i = Throw e ->
     AutomationCore.resolveDataReferences
       {| AutomationCore.m_initialized := true; AutomationCore.m_dataManager := Some m |}
       (pre +:+ Regex.token d i +:+ post) = Throw e
     /\ TestData.substituteDataReferences m (pre +:+ Regex.token d i +:+ post)
        = pre +:+ Regex.token d i +:+ post).
Proof.
  intros Hc Hx Hpre Hpost Htok Hbrace Hk.
  assert (Hpos : (0 < Str.len (pre +:+ Regex.token d i +:+ post))%nat).
  { unfold Str.len. rewrite !length_append. unfold Regex.token.
    cbn [String.length]. lia. }
  assert (Hrun : AutomationCore.resolveDataReferences
            {| AutomationCore.m_initialized := true; AutomationCore.m_dataManager := Some m |}
            (pre +:+ Regex.token d i +:+ post)
          = match TestData.getDataItemByName m k i with
            | Ok item => Ok (pre +:+ TestData.item_value item +:+ post)
            | Throw e => Throw e
            | Undefined => Undefined
            end).
  { unfold AutomationCore.resolveDataReferences. cbn [AutomationCore.m_initialized
      AutomationCore.m_dataManager].
    destruct (Str.len (pre +:+ Regex.token d i +:+ post)) as [|n]; [lia|].
    now apply resolve_loop_single. }
  split.
  - intros item Hitem. rewrite Hrun, Hitem.
    destruct (substituteDataReferences_single_facts m pre d i post k Hpre Hpost Htok Hk)
      as [Hsub _].
    rewrite (Hsub item Hitem). auto.
  - intros e He. rewrite Hrun, He.
    destruct (substituteDataReferences_single_facts m pre d i post k Hpre Hpost Htok Hk)
      as [_ Hsub].
    rewrite (Hsub e He). auto.
Qed.

Lemma from_ok_indexed setName pairs :
  TestData.indexed (Examples.from_ok TestData.empty (Examples.build_store setName pairs)).
Proof.
  destruct (Examples.build_store setName pairs) as [m| |] eqn:E; simpl;
    [ eapply build_store_indexed; eauto | apply indexed_empty.. ].
Qed.

(** The text [value: ${A.zz}!] on the store [{A: {x: "${A.y}", y: "5"}}],
    which has no item [zz]: the facade throws. *)
Lemma resolveDataReferences_single_reference_witness :
  AutomationCore.resolveDataReferences
    {| AutomationCore.m_initialized := true;
       AutomationCore.m_dataManager := Some Examples.nested_store |}
    "value: ${A.zz}!"
  = Throw (TestDataException "DataItem with name 'zz' not found in DataSet 1")
  /\ TestData.substituteDataReferences Examples.nested_store "value: ${A.zz}!"
     = "value: ${A.zz}!".
Proof.
  destruct (resolveDataReferences_single_reference Examples.nested_store
              "value: " "A" "zz" "!" 1) as [_ Hthrow].
  - apply from_ok_consistent.
  - apply from_ok_indexed.
  - reflexivity.
  - reflexivity.
  - repeat split; discriminate.
  - reflexivity.
  - vm_compute. reflexivity.
  - apply (Hthrow (TestDataException "DataItem with name 'zz' not found in DataSet 1")).
    vm_compute. reflexivity.
Defined.

(** The two functions part ways on a dataset name that holds [}]: for the
    dataset [a}b] the data manager resolves [${a}b.x}], while the facade
    ends the reference at the first [}], finds no [.] in it and leaves the
    text as it is. *)
Lemma resolveDataReferences_brace_in_name :
  TestData.substituteDataReferences Examples.brace_store "${a}b.x}" = "5"
  /\ AutomationCore.resolveDataReferences
       {| AutomationCore.m_initialized := true;
          AutomationCore.m_dataManager := Some Examples.brace_store |}
       "${a}b.x}"
     = Ok "${a}b.x}".
Proof. split; vm_compute; reflexivity. Qed.

(** ** The life of a plugin in the registry *)

Section RegistryLifecycle.
Import PluginManager.

(** Every way [loadPlugin] can end, read back from its answer. *)
Lemma loadPlugin_inv sys dllPath w r w' :
  loadPlugin sys dllPath w = (r, w') ->
  match r with
  | Ok true =>
      exists md p,
        LoadLibraryA sys dllPath = Some md /\ createPlugin md = Some (Some p)
        /\ IAutomationPlugin.name p <> EmptyString
        /\ plugins_ w !! IAutomationPlugin.name p = None
        /\ plugins_ w'
           = <[IAutomationPlugin.name p := {| hModule := dllPath; plugin := Some p |}]>
               (plugins_ w)
        /\ trace w'
           = trace w ++ [EvLoadLibrary dllPath; EvCreate dllPath;
                         EvInitialize (IAutomationPlugin.name p)]
  | Ok false =>
      plugins_ w' = plugins_ w
      /\ (trace w' = trace w
          \/ exists mid,
               trace w' = trace w ++ EvLoadLibrary dllPath :: mid ++ [EvFreeLibrary dllPath]
               /\ (mid = [] \/ mid = [EvCreate dllPath]
                   \/ mid = [EvCreate dllPath; EvDestroy dllPath]
                   \/ exists n, mid = [EvCreate dllPath; EvInitialize n; EvDestroy dllPath]))
  | Throw e =>
      exists p,
        IAutomationPlugin.initialize p (trace w ++ [EvLoadLibrary dllPath; EvCreate dllPath])
        = Raises e
        /\ plugins_ w' = plugins_ w
        /\ trace w'
           = trace w ++ [EvLoadLibrary dllPath; EvCreate dllPath;
                         EvInitialize (IAutomationPlugin.name p)]
  | Undefined => False
  end.
Proof.
  unfold loadPlugin, reject.
  destruct (negb (PathFileExistsA sys dllPath)).
  { intros [= <- <-]. split; [reflexivity | now left]. }
  destruct (LoadLibraryA sys dllPath) as [md|].
  2: { intros [= <- <-]. split; [reflexivity | now left]. }
  destruct (createPlugin md) as [[p|]|] eqn:Hc, (destroyPlugin md) eqn:Hd;
    try (intros [= <- <-]; split; [reflexivity | right]; cbn [emit trace];
         first [ exists []; split; [now rewrite <- ?app_assoc | now left]
               | exists [EvCreate dllPath]; split;
                 [now rewrite <- !app_assoc | now right; left] ]).
  destruct (negb (validatePlugin (Some p))) eqn:Hv.
  { intros [= <- <-]. split; [reflexivity | right]. cbn [emit trace].
    exists [EvCreate dllPath; EvDestroy dllPath]. split; [now rewrite <- !app_assoc | now right; right; left]. }
  destruct (hasPlugin _ _) eqn:Hh.
  { intros [= <- <-]. split; [reflexivity | right]. cbn [emit trace].
    exists [EvCreate dllPath; EvDestroy dllPath]. split; [now rewrite <- !app_assoc | now right; right; left]. }
  cbn [emit trace] in *. rewrite <- app_assoc. cbn [app].
  destruct (IAutomationPlugin.initialize p _) as [[|]|e] eqn:Hi.
  - intros [= <- <-]. exists md, p. cbn [plugins_ trace emit].
    split_and!; try reflexivity; try exact Hc.
    + intros E. cbn [validatePlugin] in Hv. rewrite E in Hv. discriminate Hv.
    + unfold hasPlugin in Hh. cbn [plugins_] in Hh.
      apply bool_decide_eq_false in Hh. now apply eq_None_not_Some.
    + now rewrite <- !app_assoc.
  - intros [= <- <-]. split; [reflexivity | right]. cbn [emit trace].
    exists [EvCreate dllPath; EvInitialize (IAutomationPlugin.name p); EvDestroy dllPath].
    split; [now rewrite <- !app_assoc | right; right; right; now eexists].
  - intros [= <- <-]. exists p. cbn [plugins_ trace emit].
    split_and!; [exact Hi | reflexivity | now rewrite <- !app_assoc].
Qed.

(** Unloading by name, case by case. *)
Lemma unloadPlugin_absent n w :
  plugins_ w !! n = None -> unloadPlugin n w = (Ok false, w).
Proof. intros H. unfold unloadPlugin. now rewrite H. Qed.

Lemma unloadPlugin_returns n handle p u w :
  plugins_ w !! n = Some handle -> plugin handle = Some p ->
  IAutomationPlugin.uninitialize p (trace w) = Returns u ->
  unloadPlugin n w
  = (Ok true,
     {| plugins_ := delete n (plugins_ w);
        trace := trace w ++ [EvUninitialize (IAutomationPlugin.name p);
                             EvDestroy (hModule handle); EvFreeLibrary (hModule handle)] |}).
Proof.
  intros Hl Hp Hu. unfold unloadPlugin, unload_handle. rewrite Hl, Hp, Hu.
  cbn [emit plugins_ trace]. f_equal. f_equal.
  - apply map_eq. intros k. destruct (decide (k = n)) as [->|Hne].
    + now rewrite !lookup_delete_eq.
    + now rewrite !lookup_delete_ne, lookup_insert_ne by done.
  - now rewrite <- app_assoc.
Qed.

Lemma unloadPlugin_raises n handle p e w :
  plugins_ w !! n = Some handle -> plugin handle = Some p ->
  IAutomationPlugin.uninitialize p (trace w) = Raises e ->
  unloadPlugin n w = (Throw e, emit (EvUninitialize (IAutomationPlugin.name p)) w).
Proof.
  intros Hl Hp Hu. unfold unloadPlugin, unload_handle. now rewrite Hl, Hp, Hu.
Qed.

Lemma registry_ok_delete n w tr :
  registry_ok w -> registry_ok {| plugins_ := delete n (plugins_ w); trace := tr |}.
Proof.
  intros Hok k h Hl. cbn [plugins_] in Hl.
  destruct (decide (k = n)) as [->|Hne].
  - now rewrite lookup_delete_eq in Hl.
  - rewrite lookup_delete_ne in Hl by done. exact (Hok k h Hl).
Qed.

Lemma unloadPlugin_registry_ok n w r w' :
  registry_ok w -> unloadPlugin n w = (r, w') -> registry_ok w'.
Proof.
  intros Hok. unfold unloadPlugin.
  destruct (plugins_ w !! n) as [handle|] eqn:Hl; [|now intros [= <- <-]].
  destruct (Hok n handle Hl) as (p & Hp & Hn).
  unfold unload_handle. rewrite Hp.
  destruct (IAutomationPlugin.uninitialize p (trace w)) as [u|e].
  - intros [= <- <-]. cbn [plugins_ trace emit].
    intros k h Hk. cbn [plugins_] in Hk.
    destruct (decide (k = n)) as [->|Hne].
    + now rewrite lookup_delete_eq in Hk.
    + rewrite lookup_delete_ne, lookup_insert_ne in Hk by done. exact (Hok k h Hk).
  - intros [= <- <-]. now apply registry_ok_emit.
Qed.

Lemma hasPlugin_getPlugin w n :
  registry_ok w ->
  (hasPlugin w n = true <-> exists p, getPlugin w n = Some p /\ IAutomationPlugin.name p = n).
Proof.
  intros Hok. unfold hasPlugin, getPlugin. rewrite bool_decide_eq_true. split.
  - intros [h Hl]. rewrite Hl. destruct (Hok n h Hl) as (p & Hp & Hn). eauto.
  - intros (p & Hg & _). destruct (plugins_ w !! n); [eauto | discriminate].
Qed.

End RegistryLifecycle.

(** X11: whatever [loadPlugin] answers tells what it did.  It never runs
    into undefined behaviour.  On [true] a plugin with a non-empty name that
    was not registered before is now found under its name, the registry is
    one entry larger and otherwise as before, and the module stays loaded.
    On [false] the registry is untouched and the module, if it was loaded,
    has been freed again, after destroying the instance if one was built.
    When the plugin's [initialize] throws, the exception leaves
    [loadPlugin] with the registry untouched, and the instance and the
    module are neither destroyed nor freed. *)
Theorem loadPlugin_outcomes
    (sys : PluginManager.system) (dllPath : string) (w w' : PluginManager.world)
    (r : result bool) :
  PluginManager.loadPlugin sys dllPath w = (r, w') ->
  r <> Undefined
  /\ (r = Ok true ->
      exists p,
        IAutomationPlugin.name p <> EmptyString
        /\ PluginManager.hasPlugin w (IAutomationPlugin.name p) = false
        /\ PluginManager.getPlugin w' (IAutomationPlugin.name p) = Some p
        /\ size (PluginManager.plugins_ w') = S (size (PluginManager.plugins_ w))
        /\ (forall n, n <> IAutomationPlugin.name p ->
              PluginManager.plugins_ w' !! n = PluginManager.plugins_ w !! n)
        /\ PluginManager.trace w'
           = PluginManager.trace w
             ++ [EvLoadLibrary dllPath; EvCreate dllPath;
                 EvInitialize (IAutomationPlugin.name p)])
  /\ (r = Ok false ->
      PluginManager.plugins_ w' = PluginManager.plugins_ w
      /\ (PluginManager.trace w' = PluginManager.trace w
          \/ exists mid,
               PluginManager.trace w'
               = PluginManager.trace w
                 ++ EvLoadLibrary dllPath :: mid ++ [EvFreeLibrary dllPath]
               /\ (mid = [] \/ mid = [EvCreate dllPath]
                   \/ mid = [EvCreate dllPath; EvDestroy dllPath]
                   \/ exists n, mid = [EvCreate dllPath; EvInitialize n;
                                       EvDestroy dllPath])))
  /\ (forall e, r = Throw e ->
      exists p,
        IAutomationPlugin.initialize p
          (PluginManager.trace w ++ [EvLoadLibrary dllPath; EvCreate dllPath]) = Raises e
        /\ PluginManager.plugins_ w' = PluginManager.plugins_ w
        /\ PluginManager.trace w'
           = PluginManager.trace w
             ++ [EvLoadLibrary dllPath; EvCreate dllPath;
                 EvInitialize (IAutomationPlugin.name p)]).
Proof.
  intros H. apply loadPlugin_inv in H. split_and!.
  - intros ->. exact H.
  - intros ->. destruct H as (md & p & _ & _ & Hn & Hfree & Hm & Ht).
    exists p. split_and!; [exact Hn | | | | | exact Ht].
    + unfold PluginManager.hasPlugin. apply bool_decide_eq_false.
      rewrite Hfree. now intros [? ?].
    + unfold PluginManager.getPlugin. now rewrite Hm, lookup_insert_eq.
    + rewrite Hm. now apply map_size_insert_None.
    + intros n Hne. rewrite Hm. now apply lookup_insert_ne.
  - intros ->. exact H.
  - intros e ->. exact H.
Qed.

(** Loading [p.dll] into the empty registry registers [P]. *)
Lemma loadPlugin_outcomes_witness :
  exists p,
    PluginManager.getPlugin Examples.world_P "P" = Some p
    /\ size (PluginManager.plugins_ Examples.world_P) = 1%nat.
Proof.
  destruct (loadPlugin_outcomes Examples.sys "p.dll" Examples.world0 Examples.world_P
              (Ok true) eq_refl)
    as (_ & Hok & _).
  destruct (Hok eq_refl) as (p & _ & _ & Hg & Hs & Hothers & Ht).
  assert (Hp : IAutomationPlugin.name p = "P").
  { apply (f_equal (fun l => nth 2 l (EvLoadLibrary EmptyString))) in Ht.
    vm_compute in Ht. injection Ht as Ht. symmetry. exact Ht. }
  rewrite Hp in Hg. exists p. split; [exact Hg | exact Hs].
Defined.

(** X12: loading and unloading undo each other in the registry.  After a
    successful [loadPlugin] the instance built by the module's
    [createPlugin] is found under its name, and if its [uninitialize]
    returns, [unloadPlugin] of that name answers [true] and gives back the
    registry as it was before the load; the plugin has then been created,
    initialized, uninitialized and destroyed, in this order, between the
    loading and the freeing of its module. *)
Theorem loadPlugin_unloadPlugin_round_trip
    (sys : PluginManager.system) (dllPath : string) (w w1 : PluginManager.world) :
  PluginManager.loadPlugin sys dllPath w = (Ok true, w1) ->
  exists md p,
    PluginManager.LoadLibraryA sys dllPath = Some md
    /\ PluginManager.createPlugin md = Some (Some p)
    /\ PluginManager.getPlugin w1 (IAutomationPlugin.name p) = Some p
    /\ forall u, IAutomationPlugin.uninitialize p (PluginManager.trace w1) = Returns u ->
       exists w2,
         PluginManager.unloadPlugin (IAutomationPlugin.name p) w1 = (Ok true, w2)
         /\ PluginManager.plugins_ w2 = PluginManager.plugins_ w
         /\ PluginManager.getPlugin w2 (IAutomationPlugin.name p) = None
         /\ PluginManager.trace w2
            = PluginManager.trace w
              ++ [EvLoadLibrary dllPath; EvCreate dllPath;
                  EvInitialize (IAutomationPlugin.name p);
                  EvUninitialize (IAutomationPlugin.name p);
                  EvDestroy dllPath; EvFreeLibrary dllPath].
Proof.
  intros H. apply loadPlugin_inv in H.
  destruct H as (md & p & Hmd & Hc & Hn & Hfree & Hm & Ht).
  exists md, p. split_and!; [exact Hmd | exact Hc | |].
  - unfold PluginManager.getPlugin. now rewrite Hm, lookup_insert_eq.
  - intros u Hu. eexists. split.
    + apply (unloadPlugin_returns _
               {| PluginManager.hModule := dllPath; PluginManager.plugin := Some p |}
               p u); [| reflexivity | exact Hu].
      rewrite Hm. apply lookup_insert_eq.
    + cbn [PluginManager.plugins_ PluginManager.trace PluginManager.hModule].
      rewrite Hm, Ht, delete_insert_id by exact Hfree.
      split_and!; [reflexivity | | now rewrite <- app_assoc].
      unfold PluginManager.getPlugin. cbn [PluginManager.plugins_]. now rewrite Hfree.
Qed.

(** [P], loaded from [p.dll] into the empty registry, is unloaded again. *)
Lemma loadPlugin_unloadPlugin_round_trip_witness :
  exists w2,
    PluginManager.unloadPlugin "P" Examples.world_P = (Ok true, w2)
    /\ PluginManager.plugins_ w2 = ∅.
Proof.
  destruct (loadPlugin_unloadPlugin_round_trip Examples.sys "p.dll" Examples.world0
              Examples.world_P eq_refl)
    as (md & p & Hmd & Hc & _ & Hun).
  vm_compute in Hmd. injection Hmd as <-.
  vm_compute in Hc. injection Hc as <-.
  destruct (Hun tt eq_refl) as (w2 & Hu & Hm & _).
  exists w2. split; [exact Hu | exact Hm].
Defined.

(** X13: [unloadPlugin] by cases.  An unknown name is answered [false] and
    changes nothing.  For a registered plugin whose [uninitialize] returns,
    the answer is [true]: the plugin is uninitialized, destroyed and its
    module freed, in this order; the name is no longer registered, the
    other entries are untouched, and a second [unloadPlugin] of the name
    answers [false].  When [uninitialize] throws, the exception leaves
    [unloadPlugin] before anything is released: the plugin stays
    registered, and nothing is destroyed or freed. *)
Theorem unloadPlugin_spec (pluginName : string) (w : PluginManager.world) :
  (PluginManager.plugins_ w !! pluginName = None ->
   PluginManager.unloadPlugin pluginName w = (Ok false, w))
  /\ (forall handle p,
        PluginManager.plugins_ w !! pluginName = Some handle ->
        PluginManager.plugin handle = Some p ->
        (forall u, IAutomationPlugin.uninitialize p (PluginManager.trace w) = Returns u ->
           exists w',
             PluginManager.unloadPlugin pluginName w = (Ok true, w')
             /\ PluginManager.hasPlugin w' pluginName = false
             /\ PluginManager.getPlugin w' pluginName = None
             /\ (forall n, n <> pluginName ->
                   PluginManager.plugins_ w' !! n = PluginManager.plugins_ w !! n)
             /\ PluginManager.trace w'
                = PluginManager.trace w
                  ++ [EvUninitialize (IAutomationPlugin.name p);
                      EvDestroy (PluginManager.hModule handle);
                      EvFreeLibrary (PluginManager.hModule handle)]
             /\ PluginManager.unloadPlugin pluginName w' = (Ok false, w'))
        /\ (forall e, IAutomationPlugin.uninitialize p (PluginManager.trace w) = Raises e ->
           exists w',
             PluginManager.unloadPlugin pluginName w = (Throw e, w')
             /\ PluginManager.plugins_ w' = PluginManager.plugins_ w
             /\ PluginManager.trace w'
                = PluginManager.trace w ++ [EvUninitialize (IAutomationPlugin.name p)])).
Proof.
  split; [apply unloadPlugin_absent|].
  intros handle p Hl Hp. split.
  - intros u Hu. eexists. split; [exact (unloadPlugin_returns _ _ _ _ _ Hl Hp Hu)|].
    cbn [PluginManager.plugins_ PluginManager.trace].
    assert (Hgone : delete pluginName (PluginManager.plugins_ w) !! pluginName = None)
      by apply lookup_delete_eq.
    split_and!.
    + unfold PluginManager.hasPlugin. cbn [PluginManager.plugins_].
      apply bool_decide_eq_false. rewrite Hgone. now intros [? ?].
    + unfold PluginManager.getPlugin. cbn [PluginManager.plugins_]. now rewrite Hgone.
    + intros n Hne. now apply lookup_delete_ne.
    + reflexivity.
    + now apply unloadPlugin_absent.
  - intros e He. eexists. split; [exact (unloadPlugin_raises _ _ _ _ _ Hl Hp He)|].
    split; reflexivity.
Qed.

(** In the registry holding [P] and [Q]: [P] unloads, [Q], whose
    [uninitialize] throws, stays. *)
Lemma unloadPlugin_spec_witness :
  (PluginManager.unloadPlugin "P" Examples.world_PQ).1 = Ok true
  /\ (PluginManager.unloadPlugin "Q" Examples.world_PQ).1
     = Throw (StdException "device busy")
  /\ (PluginManager.unloadPlugin "R" Examples.world_PQ).1 = Ok false.
Proof.
  split_and!.
  - destruct (unloadPlugin_spec "P" Examples.world_PQ) as (_ & H).
    destruct (H {| PluginManager.hModule := "p.dll";
                   PluginManager.plugin := Some (Examples.make_plugin "P" (Returns tt)) |}
                (Examples.make_plugin "P" (Returns tt)) eq_refl eq_refl) as (Hret & _).
    destruct (Hret tt eq_refl) as (w' & -> & _). reflexivity.
  - destruct (unloadPlugin_spec "Q" Examples.world_PQ) as (_ & H).
    destruct (H {| PluginManager.hModule := "q.dll";
                   PluginManager.plugin :=
                     Some (Examples.make_plugin "Q" (Raises (StdException "device busy"))) |}
                (Examples.make_plugin "Q" (Raises (StdException "device busy")))
                eq_refl eq_refl) as (_ & Hraise).
    destruct (Hraise _ eq_refl) as (w' & -> & _). reflexivity.
  - destruct (unloadPlugin_spec "R" Examples.world_PQ) as (H & _).
    now rewrite (H eq_refl).
Defined.

(** X14: a module that lacks one of the exports [createPlugin] and
    [destroyPlugin] is never registered: [loadPlugin] frees it at once and
    answers [false], without creating an instance, even when [createPlugin]
    alone is there.  The module of [Win32Plugin.cpp], which exports
    [CreatePluginInstance] only, is such a module. *)
Theorem loadPlugin_missing_export
    (sys : PluginManager.system) (dllPath : string) (w : PluginManager.world)
    (md : PluginManager.module) :
  PluginManager.PathFileExistsA sys dllPath = true ->
  PluginManager.LoadLibraryA sys dllPath = Some md ->
  PluginManager.createPlugin md = None \/ PluginManager.destroyPlugin md = false ->
  PluginManager.loadPlugin sys dllPath w
  = (Ok false,
     {| PluginManager.plugins_ := PluginManager.plugins_ w;
        PluginManager.trace :=
          PluginManager.trace w ++ [EvLoadLibrary dllPath; EvFreeLibrary dllPath] |}).
Proof.
  intros He Hl Hmiss. unfold PluginManager.loadPlugin. rewrite He, Hl. cbn [negb].
  assert (Hend : PluginManager.emit (EvFreeLibrary dllPath)
                   (PluginManager.emit (EvLoadLibrary dllPath) w)
                 = {| PluginManager.plugins_ := PluginManager.plugins_ w;
                      PluginManager.trace :=
                        PluginManager.trace w
                        ++ [EvLoadLibrary dllPath; EvFreeLibrary dllPath] |}).
  { unfold PluginManager.emit. cbn [PluginManager.plugins_ PluginManager.trace].
    now rewrite <- app_assoc. }
  destruct Hmiss as [Hc|Hd].
  - rewrite Hc. now rewrite Hend.
  - rewrite Hd. destruct (PluginManager.createPlugin md); now rewrite Hend.
Qed.

(** The loader that finds the Win32 plugin's module refuses it. *)
Lemma loadPlugin_missing_export_witness :
  PluginManager.loadPlugin Examples.win32_sys "win32.dll" Examples.world0
  = (Ok false,
     {| PluginManager.plugins_ := ∅;
        PluginManager.trace := [EvLoadLibrary "win32.dll"; EvFreeLibrary "win32.dll"] |}).
Proof.
  exact (loadPlugin_missing_export Examples.win32_sys "win32.dll" Examples.world0
           Win32Plugin.exports eq_refl eq_refl (or_introl eq_refl)).
Defined.

(** ** Listing and bulk loading *)

Section RegistryListing.
Import PluginManager.

(** The facade's loop over [getPlugins] does what the manager's loop does. *)
Lemma infos_of_infos_loop pairs :
  forall infos,
    AutomationCore.infos_of ((fun pair => plugin pair.2) <$> pairs) infos
    = infos_loop pairs infos.
Proof.
  induction pairs as [|[k h] rest IH]; intros infos; [reflexivity|].
  cbn [fmap list_fmap AutomationCore.infos_of infos_loop snd].
  destruct (plugin h) as [p|]; [apply IH | reflexivity].
Qed.

Lemma infos_loop_lookup pairs :
  forall infos,
    NoDup pairs.*1 ->
    (forall k h, (k, h) ∈ pairs ->
       exists p, plugin h = Some p /\ IAutomationPlugin.name p = k) ->
    exists res,
      infos_loop pairs infos = Ok res
      /\ forall n, res !! n = match (list_to_map pairs : gmap string PluginHandle) !! n with
                              | Some h => IAutomationPlugin.version <$> plugin h
                              | None => infos !! n
                              end.
Proof.
  induction pairs as [|[k h] rest IH]; intros infos Hnd Hok.
  - exists infos. split; [reflexivity|]. intros n. cbn. now rewrite lookup_empty.
  - cbn [fmap list_fmap fst] in Hnd. apply NoDup_cons in Hnd as [Hk Hnd].
    destruct (Hok k h) as (p & Hp & Hn); [left|].
    cbn [infos_loop]. rewrite Hp, Hn.
    destruct (IH (<[k := IAutomationPlugin.version p]> infos) Hnd) as (res & Hres & Hlook).
    { intros k' h' Hin. apply Hok. now right. }
    exists res. split; [exact Hres|]. intros n. rewrite Hlook.
    cbn [list_to_map foldr uncurry Datatypes.uncurry fst snd].
    destruct (decide (n = k)) as [->|Hne].
    + rewrite (not_elem_of_list_to_map_1 rest k Hk), !lookup_insert_eq, Hp. reflexivity.
    + now rewrite !lookup_insert_ne by done.
Qed.

(** What a single [loadPlugin] adds to the history names its own file. *)
Lemma loadPlugin_trace sys dllPath w r w' :
  loadPlugin sys dllPath w = (r, w') ->
  exists evs, trace w' = trace w ++ evs
              /\ forall d, EvLoadLibrary d ∈ evs -> d = dllPath.
Proof.
  assert (Hin : forall d (evs : list event),
            EvLoadLibrary d ∈ evs ->
            existsb (fun ev => match ev with
                               | EvLoadLibrary d' => negb (String.eqb d' dllPath)
                               | _ => false
                               end) evs = false ->
            d = dllPath).
  { intros d evs Hd Hall. induction evs as [|ev evs IH]; [now apply elem_of_nil in Hd|].
    cbn [existsb] in Hall. apply orb_false_iff in Hall as [Hev Hall].
    apply elem_of_cons in Hd as [<-|Hd]; [|now apply IH].
    apply negb_false_iff, String.eqb_eq in Hev. exact Hev. }
  assert (Hself : negb (String.eqb dllPath dllPath) = false)
    by now rewrite String.eqb_refl.
  intros H. apply loadPlugin_inv in H. destruct r as [[|]|e|].
  - destruct H as (md & p & _ & _ & _ & _ & _ & Ht). eexists. split; [exact Ht|].
    intros d Hd. apply (Hin d _ Hd). cbn [existsb]. now rewrite Hself.
  - destruct H as (_ & [Ht | (mid & Ht & Hmid)]).
    + exists []. split; [now rewrite app_nil_r|]. intros d Hd. now apply elem_of_nil in Hd.
    + eexists. split; [exact Ht|]. intros d Hd. apply (Hin d _ Hd).
      destruct Hmid as [-> | [-> | [-> | [n ->]]]]; cbn [existsb app]; now rewrite Hself.
  - destruct H as (p & _ & _ & Ht). eexists. split; [exact Ht|].
    intros d Hd. apply (Hin d _ Hd). cbn [existsb]. now rewrite Hself.
  - destruct H.
Qed.

Lemma load_loop_inv sys entries :
  forall loadedCount w n w',
    load_loop sys entries loadedCount w = (Ok n, w') ->
    plugins_ w ⊆ plugins_ w'
    /\ Z.of_nat (size (plugins_ w')) = Z.of_nat (size (plugins_ w)) + (n - loadedCount)
    /\ loadedCount <= n <= loadedCount + Z.of_nat (length (List.filter is_dll entries))
    /\ (forall d, EvLoadLibrary d ∈ trace w' ->
          EvLoadLibrary d ∈ trace w
          \/ exists entry, entry ∈ entries /\ is_dll entry = true /\ path entry = d).
Proof.
  induction entries as [|entry rest IH]; intros loadedCount w n w' H.
  - cbn in H. injection H as <- <-.
    split; [|split; [|split]]; [done | lia | cbn; lia | intros d Hd; now left].
  - cbn [load_loop] in H. cbn [List.filter]. fold (is_dll entry) in H |- *.
    destruct (is_dll entry) eqn:Hdll.
    + destruct (loadPlugin sys (path entry) w) as [r w1] eqn:Hload.
      pose proof (loadPlugin_trace _ _ _ _ _ Hload) as (evs & Hevs & Hpath).
      assert (Htr : forall d, EvLoadLibrary d ∈ trace w1 ->
                EvLoadLibrary d ∈ trace w
                \/ exists e, e ∈ entry :: rest /\ is_dll e = true /\ path e = d).
      { intros d Hd. rewrite Hevs in Hd. apply elem_of_app in Hd as [Hd|Hd]; [now left|].
        right. exists entry. split_and!; [left | exact Hdll | symmetry; now apply Hpath]. }
      apply loadPlugin_inv in Hload.
      destruct r as [[|]|e|]; [| | discriminate H | discriminate H].
      * destruct (loadedCount =? INT_MAX); [discriminate H|].
        destruct Hload as (md & p & _ & _ & _ & Hfree & Hm & _).
        destruct (IH _ _ _ _ H) as (Hsub & Hsize & Hn & Hev).
        split; [|split; [|split]].
        -- etrans; [|exact Hsub]. rewrite Hm. now apply insert_subseteq.
        -- rewrite Hsize, Hm, map_size_insert_None by exact Hfree. lia.
        -- cbn [length]. lia.
        -- intros d Hd. destruct (Hev d Hd) as [Hd1 | (e & He & Hde & Hpe)].
           ++ apply Htr, Hd1.
           ++ right. exists e. split_and!; [now right | exact Hde | exact Hpe].
      * destruct Hload as (Hm & _).
        destruct (IH _ _ _ _ H) as (Hsub & Hsize & Hn & Hev).
        split; [|split; [|split]].
        -- now rewrite <- Hm.
        -- now rewrite Hsize, Hm.
        -- cbn [length]. lia.
        -- intros d Hd. destruct (Hev d Hd) as [Hd1 | (e & He & Hde & Hpe)].
           ++ apply Htr, Hd1.
           ++ right. exists e. split_and!; [now right | exact Hde | exact Hpe].
    + destruct (IH _ _ _ _ H) as (Hsub & Hsize & Hn & Hev).
      split; [|split; [|split]]; [exact Hsub | exact Hsize | exact Hn |].
      intros d Hd. destruct (Hev d Hd) as [Hd1 | (e & He & Hde & Hpe)]; [now left|].
      right. exists e. split_and!; [now right | exact Hde | exact Hpe].
Qed.

Lemma load_loop_registry_ok sys entries :
  forall loadedCount w r w',
    registry_ok w -> load_loop sys entries loadedCount w = (r, w') -> registry_ok w'.
Proof.
  induction entries as [|entry rest IH]; intros loadedCount w r w' Hok H.
  - cbn in H. now injection H as <- <-.
  - cbn [load_loop] in H.
    destruct (is_regular_file entry && String.eqb (extension entry) ".dll").
    + destruct (loadPlugin sys (path entry) w) as [r1 w1] eqn:Hload.
      pose proof (loadPlugin_registry_ok _ _ _ _ _ Hok Hload) as Hok1.
      destruct r1 as [[|]|e|].
      * destruct (loadedCount =? INT_MAX); [now injection H as <- <- | exact (IH _ _ _ _ Hok1 H)].
      * exact (IH _ _ _ _ Hok1 H).
      * now injection H as <- <-.
      * now injection H as <- <-.
    + exact (IH _ _ _ _ Hok H).
Qed.

End RegistryListing.

(** X15: in a registry whose handles own their instances under their own
    names, [PluginManager::getPluginInfos] returns the map that sends each
    registered name to the version of its plugin and holds nothing else.
    The initialized facade's [getPluginInfos], which loops over
    [getPlugins] instead, returns the same map; its [isPluginAvailable]
    agrees with [hasPlugin] and its [getPluginActions] lists the actions of
    the registered plugin.  An uninitialized facade answers with the empty
    map, [false] and no actions. *)
Theorem getPluginInfos_spec (c : AutomationCore.facade) (w : PluginManager.world) :
  PluginManager.registry_ok w ->
  exists infos,
    PluginManager.getPluginInfos w = Ok infos
    /\ (forall n, infos !! n = IAutomationPlugin.version <$> PluginManager.getPlugin w n)
    /\ (AutomationCore.m_initialized (AutomationCore.members c) = true ->
        AutomationCore.m_pluginManager c = true ->
        AutomationCore.getPluginInfos c w = Ok infos
        /\ forall n,
             AutomationCore.isPluginAvailable c w n = PluginManager.hasPlugin w n
             /\ AutomationCore.getPluginActions c w n
                = match PluginManager.getPlugin w n with
                  | Some p => IAutomationPlugin.supportedActions p
                  | None => []
                  end)
    /\ (AutomationCore.m_initialized (AutomationCore.members c) = false ->
        AutomationCore.getPluginInfos c w = Ok ∅
        /\ forall n, AutomationCore.isPluginAvailable c w n = false
                     /\ AutomationCore.getPluginActions c w n = []).
Proof.
  intros Hok.
  destruct (infos_loop_lookup (map_to_list (PluginManager.plugins_ w)) ∅)
    as (infos & Hinfos & Hlook).
  { apply NoDup_fst_map_to_list. }
  { intros k h Hin. apply elem_of_map_to_list in Hin. exact (Hok k h Hin). }
  exists infos. split_and!.
  - exact Hinfos.
  - intros n. rewrite Hlook, list_to_map_to_list. unfold PluginManager.getPlugin.
    destruct (PluginManager.plugins_ w !! n) as [h|] eqn:Hl.
    + destruct (Hok n h Hl) as (p & -> & _). reflexivity.
    + now rewrite lookup_empty.
  - intros Hi Hp. unfold AutomationCore.getPluginInfos, AutomationCore.isPluginAvailable,
      AutomationCore.getPluginActions. rewrite Hi, Hp. cbn [negb orb]. split.
    + unfold PluginManager.getPlugins. now rewrite infos_of_infos_loop.
    + intros n. split; [|reflexivity].
      unfold PluginManager.hasPlugin, PluginManager.getPlugin.
      destruct (PluginManager.plugins_ w !! n) as [h|] eqn:Hl.
      * destruct (Hok n h Hl) as (p & -> & _).
        rewrite !bool_decide_eq_true_2; eauto.
      * rewrite !bool_decide_eq_false_2; [reflexivity | |]; now intros [? ?].
  - intros Hi. unfold AutomationCore.getPluginInfos, AutomationCore.isPluginAvailable,
      AutomationCore.getPluginActions. rewrite Hi. cbn [negb orb]. now split.
Qed.

(** The registry holding [P] lists [P] with version [1.0]. *)
Lemma getPluginInfos_spec_witness :
  exists infos,
    PluginManager.getPluginInfos Examples.world_P = Ok infos
    /\ infos !! "P" = Some "1.0" /\ infos !! "Q" = None.
Proof.
  destruct (getPluginInfos_spec
              {| AutomationCore.members :=
                   {| AutomationCore.m_initialized := true;
                      AutomationCore.m_dataManager := Some Examples.plain_store |};
                 AutomationCore.m_pluginManager := true |}
              Examples.world_P world_P_ok)
    as (infos & Hinfos & Hlook & _).
  exists infos. split; [exact Hinfos|]. rewrite !Hlook. split; reflexivity.
Defined.

(** X16: [loadPluginsFromDirectory] answers [0] and does nothing when the
    path is no directory.  Whenever it returns, the count it returns is
    the number of plugins the registry has gained, the registry has lost or
    changed none of its entries, the count is at most the number of
    regular files with extension [.dll] in the directory, and no other
    file has been handed to the loader. *)
Theorem loadPluginsFromDirectory_spec
    (fsys : PluginManager.filesystem) (sys : PluginManager.system) (pluginDir : string)
    (w : PluginManager.world) :
  (PluginManager.is_directory fsys pluginDir = false ->
   PluginManager.loadPluginsFromDirectory fsys sys pluginDir w = (Ok 0, w))
  /\ forall n w',
       PluginManager.loadPluginsFromDirectory fsys sys pluginDir w = (Ok n, w') ->
       PluginManager.plugins_ w ⊆ PluginManager.plugins_ w'
       /\ Z.of_nat (size (PluginManager.plugins_ w'))
          = Z.of_nat (size (PluginManager.plugins_ w)) + n
       /\ 0 <= n
          <= Z.of_nat (length (List.filter PluginManager.is_dll
                                 (PluginManager.directory_iterator fsys pluginDir)))
       /\ (forall d, EvLoadLibrary d ∈ PluginManager.trace w' ->
             EvLoadLibrary d ∈ PluginManager.trace w
             \/ exists entry,
                  entry ∈ PluginManager.directory_iterator fsys pluginDir
                  /\ PluginManager.is_dll entry = true
                  /\ PluginManager.path entry = d).
Proof.
  unfold PluginManager.loadPluginsFromDirectory. split.
  - now intros ->.
  - intros n w'. destruct (PluginManager.is_directory fsys pluginDir); cbn [negb].
    + intros H. apply load_loop_inv in H as (Hsub & Hsize & Hn & Hev).
      split; [|split; [|split]]; [exact Hsub | lia | lia | exact Hev].
    + intros [= <- <-]. split; [|split; [|split]]; [done | lia | lia |].
      intros d Hd. now left.
Qed.

(** The directory [plugins] holds five entries; [P] and [Q] get loaded,
    the copy of [P] is refused, the other two are not tried. *)
Lemma loadPluginsFromDirectory_spec_witness :
  (PluginManager.loadPluginsFromDirectory Examples.fsys Examples.sys_plugins "plugins"
     Examples.world0).1 = Ok 2
  /\ size (PluginManager.plugins_
             (PluginManager.loadPluginsFromDirectory Examples.fsys Examples.sys_plugins
                "plugins" Examples.world0).2) = 2%nat.
Proof.
  destruct (PluginManager.loadPluginsFromDirectory Examples.fsys Examples.sys_plugins
              "plugins" Examples.world0) as [r w'] eqn:E.
  assert (Hr : r = Ok 2).
  { apply (f_equal fst) in E. vm_compute in E. now rewrite <- E. }
  subst r. split; [reflexivity|].
  destruct (loadPluginsFromDirectory_spec Examples.fsys Examples.sys_plugins "plugins"
              Examples.world0) as (_ & H).
  destruct (H 2 w' E) as (_ & Hsize & _).
  cbn [snd]. change (size (PluginManager.plugins_ Examples.world0)) with 0%nat in Hsize.
  lia.
Defined.

(** X17: the registry keeps its shape.  If every handle owns an instance
    filed under that instance's own name, this is still so after
    [loadPlugin], [unloadPlugin] and [loadPluginsFromDirectory], however
    they end, and after an [unloadAllPlugins] that returns; and in such a
    registry [hasPlugin] answers [true] exactly for the names under which
    [getPlugin] finds a plugin, which then carries that name. *)
Theorem registry_shape_preserved (w : PluginManager.world) :
  PluginManager.registry_ok w ->
  (forall sys dllPath r w',
     PluginManager.loadPlugin sys dllPath w = (r, w') -> PluginManager.registry_ok w')
  /\ (forall pluginName r w',
     PluginManager.unloadPlugin pluginName w = (r, w') -> PluginManager.registry_ok w')
  /\ (forall fsys sys pluginDir r w',
     PluginManager.loadPluginsFromDirectory fsys sys pluginDir w = (r, w') ->
     PluginManager.registry_ok w')
  /\ (forall pairs w',
     PluginManager.unloadAllPlugins pairs w = (Ok tt, w') ->
     PluginManager.registry_ok w' /\ PluginManager.plugins_ w' = ∅)
  /\ (forall n,
     PluginManager.hasPlugin w n = true
     <-> exists p, PluginManager.getPlugin w n = Some p /\ IAutomationPlugin.name p = n).
Proof.
  intros Hok. split_and!.
  - intros sys dllPath r w' H. exact (loadPlugin_registry_ok _ _ _ _ _ Hok H).
  - intros n r w' H. exact (unloadPlugin_registry_ok _ _ _ _ Hok H).
  - intros fsys sys pluginDir r w'. unfold PluginManager.loadPluginsFromDirectory.
    destruct (negb _).
    + now intros [= <- <-].
    + apply load_loop_registry_ok, Hok.
  - intros pairs w'. unfold PluginManager.unloadAllPlugins.
    destruct (PluginManager.unload_loop _ _) as [[u|e|] w1]; try discriminate.
    intros [= <-]. split; [|reflexivity].
    intros n h Hl. cbn [PluginManager.plugins_] in Hl. now rewrite lookup_empty in Hl.
  - intros n. now apply hasPlugin_getPlugin.
Qed.

Lemma registry_shape_preserved_witness :
  PluginManager.registry_ok Examples.world_PQ
  /\ (PluginManager.hasPlugin Examples.world_P "P" = true
      <-> exists p, PluginManager.getPlugin Examples.world_P "P" = Some p
                    /\ IAutomationPlugin.name p = "P").
Proof.
  destruct (registry_shape_preserved Examples.world_P world_P_ok) as (Hload & _ & _ & _ & Hq).
  split; [|exact (Hq "P")].
  apply (Hload Examples.sys "q.dll" (PluginManager.loadPlugin Examples.sys "q.dll" Examples.world_P).1).
  apply surjective_pairing.
Defined.

(** ** What a run leaves behind *)

Section RunFacts.
Import PluginManager TestEngine.
Variable eng : engine.

Lemma dispatched_same w w' step :
  plugins_ w' = plugins_ w -> dispatched w' step = dispatched w step.
Proof. intros H. unfold dispatched, getPlugin. now rewrite H. Qed.

Lemma executeTestStep_world step w :
  StepExecutionResult.step_id (executeTestStep eng step w).1 = TestStep.id step
  /\ plugins_ (executeTestStep eng step w).2 = plugins_ w
  /\ trace (executeTestStep eng step w).2 = trace w ++ dispatched w step.
Proof.
  unfold executeTestStep, dispatched.
  destruct (getPlugin w (TestStep.plugin_name step)) as [p|].
  - destruct (is_supported _ _); cbn [negb].
    + destruct (IAutomationPlugin.executeStep p (trace w) (TestStep.param step));
        cbn [fst snd emit plugins_ trace StepExecutionResult.step_id]; auto.
    + cbn [fst snd StepExecutionResult.step_id]. now rewrite app_nil_r.
  - cbn [fst snd StepExecutionResult.step_id]. now rewrite app_nil_r.
Qed.

(** Results line up with the steps that ran, and the world records one
    plugin call per dispatched step. *)
Lemma run_steps_world steps :
  forall w,
    StepExecutionResult.step_id <$> (run_steps eng steps [] w).1
    = TestStep.id <$> take (length (run_steps eng steps [] w).1) steps
    /\ plugins_ (run_steps eng steps [] w).2 = plugins_ w
    /\ trace (run_steps eng steps [] w).2
       = trace w ++ concat (dispatched w <$> take (length (run_steps eng steps [] w).1) steps).
Proof.
  induction steps as [|step steps IH]; intros w.
  - cbn. now rewrite app_nil_r.
  - rewrite run_steps_cons.
    pose proof (executeTestStep_world step w) as (Hid & Hreg & Htr).
    destruct (executeTestStep eng step w) as [sr w1]. cbn [fst snd] in Hid, Hreg, Htr.
    destruct (negb (StepResult.success (StepExecutionResult.result sr))
              && TestStep.stop_on_failure step).
    + cbn [fst snd length take fmap list_fmap concat]. rewrite Hid, Htr, app_nil_r. auto.
    + destruct (IH w1) as (Hids & Hregs & Htrs).
      cbn [fst snd length]. rewrite firstn_cons, !fmap_cons. cbn [concat].
      split; [|split].
      * now rewrite Hid, Hids.
      * now rewrite Hregs.
      * rewrite Htrs, Htr, <- app_assoc. do 2 f_equal. f_equal.
        apply list_fmap_ext. intros i st _. now apply dispatched_same.
Qed.

(** The loop stops early only behind a failed step that asks for it. *)
Lemma run_steps_truncated steps :
  forall w,
    length (run_steps eng steps [] w).1 = length steps
    \/ exists k sr st,
         length (run_steps eng steps [] w).1 = S k
         /\ (run_steps eng steps [] w).1 !! k = Some sr /\ steps !! k = Some st
         /\ StepResult.success (StepExecutionResult.result sr) = false
         /\ TestStep.stop_on_failure st = true.
Proof.
  induction steps as [|step steps IH]; intros w; [now left|].
  rewrite run_steps_cons. destruct (executeTestStep eng step w) as [sr w1].
  destruct (negb (StepResult.success (StepExecutionResult.result sr))
            && TestStep.stop_on_failure step) eqn:E.
  - right. exists 0%nat, sr, step. apply andb_true_iff in E as [E1 E2].
    apply negb_true_iff in E1. auto.
  - cbn [fst length]. destruct (IH w1) as [Hlen | (k & sr' & st & Hlen & Hsr & Hst & Hf & Hs)].
    + left. now rewrite Hlen.
    + right. exists (S k), sr', st. rewrite Hlen. auto.
Qed.

Lemma executeTestCases_app tcs1 :
  forall tcs2 w,
    executeTestCases eng (tcs1 ++ tcs2) w
    = match executeTestCases eng tcs1 w with
      | (Ok rs1, w1) =>
          match executeTestCases eng tcs2 w1 with
          | (Ok rs2, w2) => (Ok (rs1 ++ rs2), w2)
          | stop => stop
          end
      | stop => stop
      end.
Proof.
  induction tcs1 as [|tc tcs1 IH]; intros tcs2 w.
  - cbn. now destruct (executeTestCases eng tcs2 w) as [[rs| |] w2].
  - cbn [app executeTestCases].
    destruct (executeTestCase eng tc w) as [[r|e|] w1]; [|reflexivity|reflexivity].
    rewrite IH. destruct (executeTestCases eng tcs1 w1) as [[rs1|e|] w2]; [|reflexivity..].
    now destruct (executeTestCases eng tcs2 w2) as [[rs2|e|] w3].
Qed.

Lemma executeTestCases_runs tcs :
  forall w, exists rs w',
    executeTestCases eng tcs w = (Ok rs, w')
    /\ TestExecutionResult.case_id <$> rs = TestCase.id <$> tcs
    /\ plugins_ w' = plugins_ w.
Proof.
  induction tcs as [|tc tcs IH]; intros w.
  - exists [], w. now cbn.
  - destruct (executeTestCase_runs eng tc w) as (ok & _ & Hrun).
    pose proof (run_steps_world (TestCase.steps tc) w) as (_ & Hreg & _).
    destruct (IH (run_steps eng (TestCase.steps tc) [] w).2) as (rs & w' & Hrs & Hids & Hregs).
    eexists. exists w'. cbn [executeTestCases]. rewrite Hrun, Hrs.
    split; [reflexivity|]. split.
    + rewrite !fmap_cons. cbn [TestExecutionResult.case_id]. now rewrite Hids.
    + now rewrite Hregs, Hreg.
Qed.

End RunFacts.

(** X18: a case run always returns, under the case's id and name and with
    an empty error message (the setup hook cannot fail).  Its step results
    belong, in order, to the first steps of the case: the [i]-th result
    carries the id of the [i]-th step.  Either every step has a result, or
    the last result is a failure of a step with [stop_on_failure]; a
    case without such steps always runs to its end, and a case with steps
    never comes back without results. *)
Theorem executeTestCase_results_shape
    (eng : TestEngine.engine) (testCase : TestCase.t) (w : PluginManager.world) :
  exists res w',
    TestEngine.executeTestCase eng testCase w = (Ok res, w')
    /\ TestExecutionResult.case_id res = TestCase.id testCase
    /\ TestExecutionResult.case_name res = TestCase.name testCase
    /\ TestExecutionResult.error_message res = EmptyString
    /\ StepExecutionResult.step_id <$> TestExecutionResult.step_results res
       = TestStep.id <$> take (length (TestExecutionResult.step_results res))
                           (TestCase.steps testCase)
    /\ (length (TestExecutionResult.step_results res) = length (TestCase.steps testCase)
        \/ exists k sr st,
             length (TestExecutionResult.step_results res) = S k
             /\ TestExecutionResult.step_results res !! k = Some sr
             /\ TestCase.steps testCase !! k = Some st
             /\ StepResult.success (StepExecutionResult.result sr) = false
             /\ TestStep.stop_on_failure st = true)
    /\ (Forall (fun st => TestStep.stop_on_failure st = false) (TestCase.steps testCase) ->
        length (TestExecutionResult.step_results res) = length (TestCase.steps testCase))
    /\ (TestCase.steps testCase <> [] -> TestExecutionResult.step_results res <> []).
Proof.
  destruct (executeTestCase_runs eng testCase w) as (ok & _ & Hrun).
  pose proof (run_steps_world eng (TestCase.steps testCase) w) as (Hids & _ & _).
  pose proof (run_steps_truncated eng (TestCase.steps testCase) w) as Htr.
  eexists. eexists. split; [exact Hrun|].
  cbn [TestExecutionResult.case_id TestExecutionResult.case_name
       TestExecutionResult.error_message TestExecutionResult.step_results].
  split_and!; [reflexivity | reflexivity | reflexivity | exact Hids | exact Htr | |].
  - intros Hall. destruct Htr as [Hlen | (k & sr & st & _ & _ & Hst & _ & Hstop)];
      [exact Hlen|].
    rewrite Forall_lookup in Hall. specialize (Hall k st Hst). cbn in Hall. congruence.
  - intros Hne Hnil. destruct Htr as [Hlen | (k & sr & st & Hlen & _)].
    + rewrite Hnil in Hlen. destruct (TestCase.steps testCase); [now apply Hne | discriminate].
    + rewrite Hnil in Hlen. discriminate.
Qed.

Lemma elem_of_concat {A} (x : A) (ls : list (list A)) :
  x ∈ concat ls -> exists l, x ∈ l /\ l ∈ ls.
Proof.
  induction ls as [|l ls IH]; cbn [concat]; intros H; [now apply elem_of_nil in H|].
  apply elem_of_app in H as [H|H].
  - exists l. split; [exact H | left].
  - destruct (IH H) as (l' & Hx & Hl). exists l'. split; [exact Hx | now right].
Qed.

(** X19: a case run leaves the registry as it was and does nothing to the
    world but call [executeStep]: once, in step order, for each step that
    ran and whose plugin is registered and supports the action.  Every
    such call goes to the plugin registered under the step's plugin name
    and passes the step's own parameters; so the history grows by at most
    one event per step result. *)
Theorem executeTestCase_world
    (eng : TestEngine.engine) (testCase : TestCase.t) (w : PluginManager.world) :
  exists res w',
    TestEngine.executeTestCase eng testCase w = (Ok res, w')
    /\ PluginManager.plugins_ w' = PluginManager.plugins_ w
    /\ PluginManager.trace w'
       = PluginManager.trace w
         ++ concat (TestEngine.dispatched w
                      <$> take (length (TestExecutionResult.step_results res))
                               (TestCase.steps testCase))
    /\ (forall ev, ev ∈ PluginManager.trace w' ->
          ev ∈ PluginManager.trace w
          \/ exists st p,
               st ∈ TestCase.steps testCase
               /\ PluginManager.getPlugin w (TestStep.plugin_name st) = Some p
               /\ ev = EvExecuteStep (IAutomationPlugin.name p) (TestStep.param st))
    /\ (length (PluginManager.trace w')
        <= length (PluginManager.trace w)
           + length (TestExecutionResult.step_results res))%nat.
Proof.
  destruct (executeTestCase_runs eng testCase w) as (ok & _ & Hrun).
  pose proof (run_steps_world eng (TestCase.steps testCase) w) as (_ & Hreg & Htr).
  eexists. eexists. split; [exact Hrun|].
  cbn [TestExecutionResult.step_results].
  set (rs := (TestEngine.run_steps eng (TestCase.steps testCase) [] w).1) in *.
  split_and!; [exact Hreg | exact Htr | |].
  - intros ev Hev. rewrite Htr in Hev. apply elem_of_app in Hev as [Hev|Hev]; [now left|].
    right. apply elem_of_concat in Hev as (evs & Hev & Hevs).
    apply list_elem_of_fmap in Hevs as (st & -> & Hst).
    apply list_elem_of_lookup in Hst as (i & Hst).
    apply lookup_take_Some in Hst as (Hst & _).
    unfold TestEngine.dispatched in Hev.
    destruct (PluginManager.getPlugin w (TestStep.plugin_name st)) as [p|] eqn:Hp;
      [|now apply elem_of_nil in Hev].
    destruct (TestEngine.is_supported _ _); [|now apply elem_of_nil in Hev].
    apply list_elem_of_singleton in Hev. exists st, p.
    split_and!; [now apply (list_elem_of_lookup_2 _ i) | exact Hp | exact Hev].
  - rewrite Htr, length_app. apply Nat.add_le_mono_l.
    assert (Hlen : forall l : list TestStep.t,
               (length (concat (TestEngine.dispatched w <$> l)) <= length l)%nat).
    { induction l as [|st l IH]; [cbn; lia|]. rewrite fmap_cons. cbn [concat length].
      rewrite length_app. unfold TestEngine.dispatched at 1.
      destruct (PluginManager.getPlugin w _); [destruct (TestEngine.is_supported _ _)|];
        cbn [length]; lia. }
    etrans; [apply Hlen|]. rewrite length_firstn. lia.
Qed.

(** X20: [executeTestCases] runs every case, whatever the earlier ones
    gave: it returns one result per case, in the order of the cases and
    under their ids, and leaves the registry as it was.  Each result is
    the one [executeTestCase] gives in the world the earlier cases left
    behind. *)
Theorem executeTestCases_spec
    (eng : TestEngine.engine) (testCases : list TestCase.t) (w : PluginManager.world) :
  exists results w',
    TestEngine.executeTestCases eng testCases w = (Ok results, w')
    /\ length results = length testCases
    /\ TestExecutionResult.case_id <$> results = TestCase.id <$> testCases
    /\ PluginManager.plugins_ w' = PluginManager.plugins_ w
    /\ (forall before testCase after,
          testCases = before ++ testCase :: after ->
          exists earlier w1 r w2,
            TestEngine.executeTestCases eng before w = (Ok earlier, w1)
            /\ TestEngine.executeTestCase eng testCase w1 = (Ok r, w2)
            /\ results !! length before = Some r).
Proof.
  destruct (executeTestCases_runs eng testCases w) as (results & w' & Hrun & Hids & Hreg).
  exists results, w'. split_and!; [exact Hrun | | exact Hids | exact Hreg |].
  - apply (f_equal length) in Hids. now rewrite !length_fmap in Hids.
  - intros before testCase after ->.
    destruct (executeTestCases_runs eng before w) as (earlier & w1 & Hb & Hbids & _).
    destruct (executeTestCase_runs eng testCase w1) as (ok & _ & Hone).
    destruct (executeTestCases_runs eng after
                (TestEngine.run_steps eng (TestCase.steps testCase) [] w1).2)
      as (later & w3 & Ha & _ & _).
    rewrite executeTestCases_app, Hb in Hrun. cbn [TestEngine.executeTestCases] in Hrun.
    rewrite Hone, Ha in Hrun. injection Hrun as <- <-.
    eexists earlier, w1, _, _. split_and!; [exact Hb | exact Hone |].
    apply (f_equal length) in Hbids. rewrite !length_fmap in Hbids.
    rewrite <- Hbids. now rewrite list_lookup_middle.
Qed.

(** ** Reading and writing cases *)

Section ReadingFacts.
Import Json TestCaseSerializer.

Lemma deserializeTestCase_serializeTestCase testCase :
  int_fields testCase ->
  deserializeTestCase (serializeTestCase testCase) = Ok (round_trip testCase).
Proof.
  intros (Hid & Hpid & Hsteps).
  unfold deserializeTestCase, serializeTestCase, read_field. cbn.
  rewrite (to_int32_id _ Hid), (to_int32_id _ Hpid).
  rewrite (deserializeSteps_serialize _ Hsteps). reflexivity.
Qed.

Lemma round_trip_step_idem step : round_trip_step (round_trip_step step) = round_trip_step step.
Proof. reflexivity. Qed.

Lemma round_trip_idem testCase : round_trip (round_trip testCase) = round_trip testCase.
Proof.
  unfold round_trip. cbn. f_equal. rewrite <- list_fmap_compose.
  apply list_fmap_ext. intros i st _. apply round_trip_step_idem.
Qed.

Lemma int_fields_round_trip testCase : int_fields testCase -> int_fields (round_trip testCase).
Proof.
  intros (Hid & Hpid & Hsteps). split_and!; [exact Hid | exact Hpid |].
  cbn. rewrite Forall_fmap. exact Hsteps.
Qed.

Lemma deserializeCases_serialize testCases :
  Forall int_fields testCases ->
  deserializeCases (serializeTestCase <$> testCases) = Ok (round_trip <$> testCases).
Proof.
  induction 1 as [|tc tcs Htc _ IH]; [reflexivity|].
  rewrite !fmap_cons. cbn [deserializeCases].
  rewrite (deserializeTestCase_serializeTestCase _ Htc), IH. reflexivity.
Qed.

(** Sequencing keeps readings readings. *)
Lemma reads_bind {A B} (P : A -> Prop) (Q : B -> Prop) (U : Prop)
    (r : result A) (k : A -> result B) :
  reads P U r -> (forall a, P a -> reads Q U (k a)) -> reads Q U (r ≫= k).
Proof. destruct r as [a|e|]; cbn; auto. Qed.

Lemma reads_cause {A} (P : A -> Prop) (U U' : Prop) (r : result A) :
  (U -> U') -> reads P U r -> reads P U' r.
Proof. destruct r; cbn; auto. Qed.

Lemma to_int32_is_int z : is_int (to_int32 z).
Proof.
  unfold is_int, to_int32.
  pose proof (Z.mod_pos_bound (z + 2 ^ 31) (2 ^ 32) ltac:(lia)). lia.
Qed.

(** Converting a number to [int] is undefined for the doubles that do not
    fit, and for nothing else. *)
Lemma float_to_int_cases x :
  match float_to_int x with
  | Ok z => truncate x = Some z /\ is_int z
  | Throw _ => False
  | Undefined => ~ fits_int x
  end.
Proof.
  unfold float_to_int, fits_int. destruct (truncate x) as [z|].
  - destruct ((- 2 ^ 31 <=? z) && (z <? 2 ^ 31)) eqn:E.
    + apply andb_true_iff in E as [E1 E2]. apply Z.leb_le in E1. apply Z.ltb_lt in E2.
      unfold is_int. auto.
    + intros (z' & [= <-] & Hz). unfold is_int in Hz.
      apply andb_false_iff in E as [E|E]; [apply Z.leb_gt in E | apply Z.ltb_ge in E]; lia.
  - intros (z & H & _). discriminate.
Qed.

Lemma get_int_Undefined v :
  get_int v = Undefined <-> exists x, v = JFloat x /\ ~ fits_int x.
Proof.
  split.
  - destruct v as [|[|]|z|?|?|?|n|x| |]; cbn; try discriminate.
    intros H. pose proof (float_to_int_cases x) as Hc. rewrite H in Hc. eauto.
  - intros (x & -> & Hx). cbn. pose proof (float_to_int_cases x) as Hc.
    destruct (float_to_int x) as [z|e|]; [|destruct Hc | reflexivity].
    destruct Hx. exists z. exact Hc.
Qed.

Lemma reads_int j key current :
  is_int current ->
  reads is_int (float_beyond_int j key) (read_field get_int j key current).
Proof.
  intros Hc. unfold read_field, float_beyond_int.
  destruct (contains j key); [|exact Hc].
  destruct (at_key j key) as [|[|]|z|?|?|?|n|x| |] eqn:Hv; cbn;
    eauto using to_int32_is_int; try (unfold is_int; lia).
  pose proof (float_to_int_cases x) as Hx.
  destruct (float_to_int x) as [z|e|]; cbn; [apply Hx | destruct Hx | eauto].
Qed.

Lemma reads_string j key current U :
  reads (fun _ => True) U (read_field get_string j key current).
Proof.
  unfold read_field. destruct (contains j key); [|exact I].
  destruct (at_key j key); cbn; eauto.
Qed.

Lemma reads_bool j key current U :
  reads (fun b => contains j key = false -> b = current) U
    (read_field get_bool j key current).
Proof.
  unfold read_field. destruct (contains j key); [|now cbn].
  destruct (at_key j key); cbn; eauto. discriminate.
Qed.

Lemma reads_step stepJson :
  reads (fun step => is_int (TestStep.id step) /\ unwritten_defaults step
                     /\ (contains stepJson "stop_on_failure" = false ->
                         TestStep.stop_on_failure step = true))
    (float_beyond_int stepJson "id")
    (deserializeTestStep stepJson).
Proof.
  unfold deserializeTestStep.
  eapply reads_bind; [apply reads_int; cbn; unfold is_int; lia|]. intros i Hi.
  eapply reads_bind; [apply reads_string|]. intros pn _.
  eapply reads_bind; [apply reads_string|]. intros ac _.
  eapply reads_bind; [apply reads_string|]. intros tg _.
  eapply reads_bind; [apply reads_string|]. intros vl _.
  eapply reads_bind; [apply reads_bool|]. intros st Hst.
  cbn. unfold unwritten_defaults. cbn. auto.
Qed.

Lemma reads_steps elems :
  reads (Forall (fun step => is_int (TestStep.id step) /\ unwritten_defaults step))
    (exists stepJson, stepJson ∈ elems /\ float_beyond_int stepJson "id")
    (deserializeSteps elems).
Proof.
  induction elems as [|stepJson rest IH]; [now cbn|].
  cbn [deserializeSteps].
  eapply reads_bind.
  { eapply reads_cause; [|apply reads_step]. intros H. exists stepJson. split; [left | exact H]. }
  intros step (Hi & Hd & _).
  eapply reads_bind.
  { eapply reads_cause; [|apply IH]. intros (sj & Hin & H). exists sj. split; [now right | exact H]. }
  intros steps Hsteps. cbn. constructor; auto.
Qed.

Lemma reads_case j :
  reads (fun tc => int_fields tc
                   /\ Forall unwritten_defaults (TestCase.steps tc)
                   /\ TestCase.setup_script tc = EmptyString
                   /\ TestCase.teardown_script tc = EmptyString
                   /\ TestCase.created_at tc = EmptyString
                   /\ TestCase.last_modified tc = EmptyString
                   /\ TestCase.data_set_ids tc = []
                   /\ (is_array (at_key j "steps") = false -> TestCase.steps tc = []))
    (unconvertible j)
    (deserializeTestCase j).
Proof.
  unfold deserializeTestCase, unconvertible.
  eapply reads_bind.
  { eapply reads_cause; [|apply reads_int; cbn; unfold is_int; lia]. auto. }
  intros i Hi.
  eapply reads_bind; [apply reads_string|]. intros nm _.
  eapply reads_bind; [apply reads_string|]. intros ds _.
  eapply reads_bind.
  { eapply reads_cause; [|apply reads_int; cbn; unfold is_int; lia]. auto. }
  intros pj Hpj.
  eapply (reads_bind
            (fun steps => Forall (fun step => is_int (TestStep.id step)
                                              /\ unwritten_defaults step) steps
                          /\ (is_array (at_key j "steps") = false -> steps = []))).
  - destruct (contains j "steps" && is_array (at_key j "steps")) eqn:E.
    + apply andb_true_iff in E as [Ec E].
      destruct (at_key j "steps") as [| | | |elems| | | | |] eqn:Hsteps; try discriminate E.
      pose proof (reads_steps elems) as H.
      destruct (deserializeSteps elems); cbn in *.
      * split; [exact H | discriminate].
      * exact H.
      * destruct H as (stepJson & Hin & Hbad). right. right. exists elems, stepJson. auto.
    + cbn. split; [constructor | reflexivity].
  - intros steps (Hsteps & Hnone). cbn. unfold int_fields. cbn.
    split_and!; try reflexivity; try assumption.
    + eapply Forall_impl; [exact Hsteps|]. now intros st [? _].
    + eapply Forall_impl; [exact Hsteps|]. now intros st [_ ?].
Qed.

(** A case whose unwritten members are at their defaults is what it comes
    back as. *)
Lemma round_trip_fixed tc :
  Forall unwritten_defaults (TestCase.steps tc) ->
  TestCase.setup_script tc = EmptyString -> TestCase.teardown_script tc = EmptyString ->
  TestCase.created_at tc = EmptyString -> TestCase.last_modified tc = EmptyString ->
  TestCase.data_set_ids tc = [] ->
  round_trip tc = tc.
Proof.
  destruct tc as [i nm ds steps pj su td ca lm dsi]. cbn. intros Hsteps -> -> -> -> ->.
  unfold round_trip. cbn. f_equal.
  induction Hsteps as [|st steps Hst _ IH]; [reflexivity|].
  rewrite fmap_cons, IH. f_equal.
  destruct st as [si pn [ac tg vl ps to] opt stop].
  destruct Hst as (Hopt & Hps & Hto). cbn in *. subst. reflexivity.
Qed.

End ReadingFacts.

(** X21: a list of cases written by [serializeTestCases] and read back by
    [deserializeTestCases] comes back case by case, in order, as the
    single-case round trip leaves each of them; and what has come back
    once comes back unchanged ever after. *)
Theorem serializeTestCases_round_trip (testCases : list TestCase.t) :
  Forall TestCaseSerializer.int_fields testCases ->
  TestCaseSerializer.deserializeTestCases (TestCaseSerializer.serializeTestCases testCases)
  = Ok (TestCaseSerializer.round_trip <$> testCases)
  /\ TestCaseSerializer.deserializeTestCases
       (TestCaseSerializer.serializeTestCases (TestCaseSerializer.round_trip <$> testCases))
     = Ok (TestCaseSerializer.round_trip <$> testCases).
Proof.
  intros Hint. unfold TestCaseSerializer.deserializeTestCases,
    TestCaseSerializer.serializeTestCases.
  split; [now apply deserializeCases_serialize|].
  rewrite deserializeCases_serialize.
  - rewrite <- list_fmap_compose. f_equal. apply list_fmap_ext.
    intros i tc _. apply round_trip_idem.
  - rewrite Forall_fmap. eapply Forall_impl; [exact Hint|].
    intros tc. apply int_fields_round_trip.
Qed.

Lemma serializeTestCases_round_trip_witness :
  TestCaseSerializer.deserializeTestCases
    (TestCaseSerializer.serializeTestCases [Examples.case_stop; Examples.case_optional_stop])
  = Ok [TestCaseSerializer.round_trip Examples.case_stop;
        TestCaseSerializer.round_trip Examples.case_optional_stop].
Proof.
  apply (serializeTestCases_round_trip [Examples.case_stop; Examples.case_optional_stop]).
  repeat constructor; cbn; unfold Json.is_int; cbn; lia.
Defined.

(** X22: what a case read from JSON can never have.  Whatever the JSON
    value, numbers of every kind included, a case that
    [deserializeTestCase] returns has 32-bit ids, no
    setup or teardown script, no timestamps, no dataset ids and no steps
    when [steps] is not an array, and each of its steps is mandatory, has
    no [params] and the default timeout.  Such a case loses nothing more:
    written and read again it comes back as it is. *)
Theorem deserializeTestCase_range (j : Json.json) (testCase : TestCase.t) :
  TestCaseSerializer.deserializeTestCase j = Ok testCase ->
  TestCaseSerializer.int_fields testCase
  /\ Forall TestCaseSerializer.unwritten_defaults (TestCase.steps testCase)
  /\ TestCase.setup_script testCase = EmptyString
  /\ TestCase.teardown_script testCase = EmptyString
  /\ TestCase.created_at testCase = EmptyString
  /\ TestCase.last_modified testCase = EmptyString
  /\ TestCase.data_set_ids testCase = []
  /\ (Json.is_array (Json.at_key j "steps") = false -> TestCase.steps testCase = [])
  /\ TestCaseSerializer.deserializeTestCase (TestCaseSerializer.serializeTestCase testCase)
     = Ok testCase.
Proof.
  intros H. pose proof (reads_case j) as Hr. rewrite H in Hr. cbn in Hr.
  destruct Hr as (Hint & Hsteps & Hsu & Htd & Hca & Hlm & Hds & Hnone).
  split_and!; try assumption.
  rewrite (deserializeTestCase_serializeTestCase _ Hint).
  f_equal. now apply round_trip_fixed.
Qed.

(** An object with a name, an integer id beyond 32 bits, the double
    [7.5] as project id and a non-array [steps]. *)
Lemma deserializeTestCase_range_witness :
  exists testCase,
    TestCaseSerializer.deserializeTestCase
      (Json.JObject [("name", Json.JString "login"); ("id", Json.JInt (2 ^ 32 + 7));
                     ("project_id", Json.JFloat (Json.Finite 15 (-1)));
                     ("steps", Json.JString "none")])
    = Ok testCase
    /\ TestCase.id testCase = 7 /\ TestCase.project_id testCase = 7
    /\ TestCase.steps testCase = []
    /\ TestCaseSerializer.deserializeTestCase (TestCaseSerializer.serializeTestCase testCase)
       = Ok testCase.
Proof.
  eexists. split; [vm_compute; reflexivity|]. split; [reflexivity|].
  split; [reflexivity|].
  match goal with
  | |- _ /\ TestCaseSerializer.deserializeTestCase
              (TestCaseSerializer.serializeTestCase ?tc) = _ =>
      destruct (deserializeTestCase_range
                  (Json.JObject [("name", Json.JString "login");
                                 ("id", Json.JInt (2 ^ 32 + 7));
                                 ("project_id", Json.JFloat (Json.Finite 15 (-1)));
                                 ("steps", Json.JString "none")]) tc eq_refl)
        as (_ & _ & _ & _ & _ & _ & _ & Hnone & Hback)
  end.
  split; [exact (Hnone eq_refl) | exact Hback].
Defined.

(** X23: how reading a case can fail.  The only exception
    [deserializeTestCase] throws is a [json::type_error] for a member that
    is present with the wrong type; a string under [id] is reported
    whatever else the object holds.  Its only undefined behaviour is the
    conversion to [int] of a floating-point number whose integer part is no
    [int], or that is NaN or infinite, found under [id], under [project_id]
    or under the [id] of a step; such a number under [id] makes the reading
    undefined whatever else the object holds.  A value that is not an
    object reads as the default case, and [deserializeTestCases] reads a
    value that is not an array as no cases; a list of cases is read only if
    every case is. *)
Theorem deserializeTestCase_failures (j : Json.json) :
  (TestCaseSerializer.deserializeTestCase j = Undefined -> TestCaseSerializer.unconvertible j)
  /\ (TestCaseSerializer.float_beyond_int j "id" ->
      TestCaseSerializer.deserializeTestCase j = Undefined)
  /\ (forall e, TestCaseSerializer.deserializeTestCase j = Throw e ->
        exists expected v, e = Json.type_error expected v)
  /\ ((forall fields, j <> Json.JObject fields) ->
      TestCaseSerializer.deserializeTestCase j = Ok TestCase.default)
  /\ (forall s, Json.contains j "id" = true -> Json.at_key j "id" = Json.JString s ->
        TestCaseSerializer.deserializeTestCase j
        = Throw (Json.type_error "number" (Json.JString s)))
  /\ (Json.is_array j = false -> TestCaseSerializer.deserializeTestCases j = Ok [])
  /\ (forall before after e,
        TestCaseSerializer.deserializeTestCase j = Throw e ->
        Forall (fun j' => exists tc, TestCaseSerializer.deserializeTestCase j' = Ok tc) before ->
        TestCaseSerializer.deserializeTestCases (Json.JArray (before ++ j :: after))
        = Throw e)
  /\ (forall before after,
        TestCaseSerializer.deserializeTestCase j = Undefined ->
        Forall (fun j' => exists tc, TestCaseSerializer.deserializeTestCase j' = Ok tc) before ->
        TestCaseSerializer.deserializeTestCases (Json.JArray (before ++ j :: after))
        = Undefined).
Proof.
  pose proof (reads_case j) as Hr. split_and!.
  - intros E. rewrite E in Hr. exact Hr.
  - intros (Hc & x & Hx & Hno). unfold TestCaseSerializer.deserializeTestCase,
      TestCaseSerializer.read_field. rewrite Hc, Hx.
    assert (Hu : Json.get_int (Json.JFloat x) = Undefined)
      by (apply get_int_Undefined; eauto).
    now rewrite Hu.
  - intros e E. rewrite E in Hr. exact Hr.
  - intros Hno. destruct j; try reflexivity. now destruct (Hno fields).
  - intros s Hc Hs. unfold TestCaseSerializer.deserializeTestCase,
      TestCaseSerializer.read_field. now rewrite Hc, Hs.
  - intros Ha. destruct j; try reflexivity. discriminate Ha.
  - intros before after e He Hbefore. cbn [TestCaseSerializer.deserializeTestCases].
    induction Hbefore as [|j' before (tc & Htc) _ IH].
    + cbn. now rewrite He.
    + cbn [app TestCaseSerializer.deserializeCases]. rewrite Htc. cbn. now rewrite IH.
  - intros before after He Hbefore. cbn [TestCaseSerializer.deserializeTestCases].
    induction Hbefore as [|j' before (tc & Htc) _ IH].
    + cbn. now rewrite He.
    + cbn [app TestCaseSerializer.deserializeCases]. rewrite Htc. cbn. now rewrite IH.
Qed.

(** A case whose id is the double [2^40]: no [int] takes it. *)
Lemma deserializeTestCase_failures_witness :
  TestCaseSerializer.deserializeTestCase
    (Json.JObject [("name", Json.JString "login");
                   ("id", Json.JFloat (Json.Finite 1 40))])
  = Undefined.
Proof.
  destruct (deserializeTestCase_failures
              (Json.JObject [("name", Json.JString "login");
                             ("id", Json.JFloat (Json.Finite 1 40))]))
    as (_ & Hbad & _).
  apply Hbad. split; [reflexivity|]. exists (Json.Finite 1 40). split; [reflexivity|].
  intros (z & Hz & Hint). cbn in Hz. injection Hz as <-. unfold Json.is_int in Hint. lia.
Defined.

(** X24: [serializeTestCase] writes exactly what the round trip keeps: two
    cases are written as the same JSON value if and only if they agree on
    id, name, description, project id and, step by step, on id, plugin
    name, action, target, value and [stop_on_failure]. *)
Theorem serializeTestCase_keeps (testCase1 testCase2 : TestCase.t) :
  TestCaseSerializer.serializeTestCase testCase1 = TestCaseSerializer.serializeTestCase testCase2
  <-> TestCaseSerializer.round_trip testCase1 = TestCaseSerializer.round_trip testCase2.
Proof.
  assert (Hsteps : forall steps1 steps2 : list TestStep.t,
            TestCaseSerializer.serializeTestStep <$> steps1
            = TestCaseSerializer.serializeTestStep <$> steps2
            <-> TestCaseSerializer.round_trip_step <$> steps1
                = TestCaseSerializer.round_trip_step <$> steps2).
  { induction steps1 as [|s1 steps1 IH]; intros [|s2 steps2]; try (split; discriminate);
      [split; reflexivity|].
    rewrite !fmap_cons. split; intros H; injection H as; f_equal;
      try (now apply IH).
    - unfold TestCaseSerializer.round_trip_step. congruence.
    - unfold TestCaseSerializer.serializeTestStep. cbn. congruence. }
  unfold TestCaseSerializer.serializeTestCase, TestCaseSerializer.round_trip. cbn.
  split; intros H; injection H as;
    match goal with
    | Hs : _ <$> _ = _ <$> _ |- _ => apply Hsteps in Hs
    end; congruence.
Qed.

(** ** The Win32 plugin *)

Section Win32Facts.
Import Win32Plugin.

Lemma missing_param_None requiredParams params :
  missing_param requiredParams params = None <->
  forall key, key ∈ requiredParams -> present params key.
Proof.
  induction requiredParams as [|param rest IH]; cbn [missing_param].
  - split; [|reflexivity]. intros _ key Hk. now apply elem_of_nil in Hk.
  - destruct (params !! param) as [v|] eqn:Hp.
    + destruct (String.eqb v EmptyString) eqn:Hv.
      * apply String.eqb_eq in Hv. subst v. split; [discriminate|].
        intros H. destruct (H param) as (v & Hv & Hne); [left|]. congruence.
      * apply String.eqb_neq in Hv. rewrite IH. split.
        -- intros H key Hk. apply elem_of_cons in Hk as [->|Hk]; [now exists v | now apply H].
        -- intros H key Hk. apply H. now right.
    + split; [discriminate|]. intros H. destruct (H param) as (v & Hv & _); [left|].
      congruence.
Qed.

Lemma missing_param_Some requiredParams params key :
  missing_param requiredParams params = Some key ->
  exists before after,
    requiredParams = before ++ key :: after
    /\ (forall k, k ∈ before -> present params k)
    /\ ~ present params key.
Proof.
  induction requiredParams as [|param rest IH]; cbn [missing_param]; [discriminate|].
  destruct (params !! param) as [v|] eqn:Hp.
  - destruct (String.eqb v EmptyString) eqn:Hv.
    + intros [= <-]. apply String.eqb_eq in Hv. subst v. exists [], rest.
      split_and!; [reflexivity | intros k Hk; now apply elem_of_nil in Hk |].
      intros (v & Hv & Hne). congruence.
    + intros H. destruct (IH H) as (before & after & -> & Hb & Hk).
      apply String.eqb_neq in Hv. exists (param :: before), after.
      split_and!; [reflexivity | | exact Hk].
      intros k Hin. apply elem_of_cons in Hin as [->|Hin]; [now exists v | now apply Hb].
  - intros [= <-]. exists [], rest.
    split_and!; [reflexivity | intros k Hk; now apply elem_of_nil in Hk |].
    intros (v & Hv & _). congruence.
Qed.

Lemma convert_success o params k r :
  convert o params k = Returns r -> StepResult.success r = true ->
  exists hwnd controlId,
    stoull16 o (at_ params "WindowHandle") = Parsed hwnd
    /\ stoi o (at_ params "ControlId") = Parsed controlId
    /\ k hwnd controlId = Returns r.
Proof.
  unfold convert. intros H Hs.
  destruct (stoull16 o _) as [hwnd|what|what]; [| injection H as <-; discriminate Hs | discriminate H].
  destruct (stoi o _) as [controlId|what|what];
    [| injection H as <-; discriminate Hs | discriminate H].
  eauto.
Qed.

Lemma SimulateButtonClick_success o params r :
  SimulateButtonClick o params = Returns r -> StepResult.success r = true ->
  handled o params ["WindowHandle"; "ControlId"] r
  /\ StepResult.message r = "Button click success"
  /\ StepResult.extra_data r = at_ params "ControlId".
Proof.
  unfold SimulateButtonClick. intros H Hs.
  destruct (missing_param _ params) eqn:Hm; [injection H as <-; discriminate Hs|].
  pose proof (proj1 (missing_param_None _ _) Hm) as Hall. clear Hm.
  destruct (convert_success _ _ _ _ H Hs) as (hwnd & controlId & Hh & _ & Hk).
  destruct (IsWindowValid o hwnd) eqn:Hv; cbn [negb] in Hk;
    [|injection Hk as <-; discriminate Hs].
  destruct (GetDlgItem o hwnd controlId =? 0); [injection Hk as <-; discriminate Hs|].
  destruct (SendMessage_BM_CLICK o _ =? 0); [injection Hk as <-; discriminate Hs|].
  injection Hk as <-. unfold handled. cbn. split_and!; eauto.
Qed.

Lemma SetTextBoxContent_success o params r :
  SetTextBoxContent o params = Returns r -> StepResult.success r = true ->
  handled o params ["WindowHandle"; "ControlId"; "Text"] r
  /\ StepResult.message r = "Set text success"
  /\ StepResult.extra_data r = at_ params "Text".
Proof.
  unfold SetTextBoxContent. intros H Hs.
  destruct (missing_param _ params) eqn:Hm; [injection H as <-; discriminate Hs|].
  pose proof (proj1 (missing_param_None _ _) Hm) as Hall. clear Hm.
  destruct (convert_success _ _ _ _ H Hs) as (hwnd & controlId & Hh & _ & Hk).
  destruct (IsWindowValid o hwnd) eqn:Hv; cbn [negb] in Hk;
    [|injection Hk as <-; discriminate Hs].
  destruct (GetDlgItem o hwnd controlId =? 0); [injection Hk as <-; discriminate Hs|].
  destruct (negb (String.eqb _ "EDIT")); [injection Hk as <-; discriminate Hs|].
  destruct (negb (SetWindowText o _ _)); [injection Hk as <-; discriminate Hs|].
  injection Hk as <-. unfold handled. cbn. split_and!; eauto.
Qed.

Lemma GetWindowTitle_success o params r :
  GetWindowTitle o params = Returns r -> StepResult.success r = true ->
  handled o params ["WindowHandle"] r
  /\ StepResult.message r = "Get window title success".
Proof.
  unfold GetWindowTitle. intros H Hs.
  destruct (missing_param _ params) eqn:Hm; [injection H as <-; discriminate Hs|].
  pose proof (proj1 (missing_param_None _ _) Hm) as Hall. clear Hm.
  destruct (stoull16 o _) as [hwnd|what|what] eqn:Hh;
    [| injection H as <-; discriminate Hs | discriminate H].
  destruct (IsWindowValid o hwnd) eqn:Hv; cbn [negb] in H;
    [|injection H as <-; discriminate Hs].
  destruct (_ && _); [injection H as <-; discriminate Hs|].
  injection H as <-. unfold handled. cbn. split_and!; eauto.
Qed.

Lemma supported_cases target :
  existsb (String.eqb target) supportedActions = true ->
  target = "Win32_Click" \/ target = "Win32_SetText" \/ target = "Win32_GetWindowTitle".
Proof.
  unfold supportedActions. cbn [existsb]. rewrite orb_false_r, !orb_true_iff, !String.eqb_eq.
  tauto.
Qed.

Lemma ops_text_supportedActions :
  ops_text supportedActions = "Win32_Click, Win32_SetText, Win32_GetWindowTitle".
Proof. vm_compute. reflexivity. Qed.

(** The two checks in front of the handlers. *)
Lemma executeStep_uninitialized o s param :
  m_isInitialized s = false ->
  executeStep o s param
  = Returns {| StepResult.success := false; StepResult.message := "Plugin not initialized";
               StepResult.error_code := 0; StepResult.extra_data := EmptyString;
               StepResult.err_info := "Call Initialize() before executing steps";
               StepResult.action := StepParam.action param |}.
Proof. intros H. unfold executeStep. now rewrite H. Qed.

Lemma executeStep_unsupported o s param :
  m_isInitialized s = true ->
  existsb (String.eqb (StepParam.target param)) supportedActions = false ->
  executeStep o s param
  = Returns {| StepResult.success := false; StepResult.message := "Unsupported operation";
               StepResult.error_code := 0; StepResult.extra_data := EmptyString;
               StepResult.err_info :=
                 "Operation: " +:+ StepParam.target param
                 +:+ ", supported: Win32_Click, Win32_SetText, Win32_GetWindowTitle";
               StepResult.action := StepParam.action param |}.
Proof.
  intros Hi Hs. unfold executeStep. rewrite Hi, Hs. cbn [negb].
  now rewrite ops_text_supportedActions.
Qed.

Lemma executeStep_dispatch o s param :
  m_isInitialized s = true ->
  existsb (String.eqb (StepParam.target param)) supportedActions = true ->
  executeStep o s param
  = if String.eqb (StepParam.target param) "Win32_Click"
    then SimulateButtonClick o (StepParam.params param)
    else if String.eqb (StepParam.target param) "Win32_SetText"
    then SetTextBoxContent o (StepParam.params param)
    else GetWindowTitle o (StepParam.params param).
Proof.
  intros Hi Hs. unfold executeStep. rewrite Hi, Hs. cbn [negb].
  destruct (supported_cases _ Hs) as [-> | [-> | ->]]; reflexivity.
Qed.

Lemma executeStep_success o s param r :
  executeStep o s param = Returns r -> StepResult.success r = true ->
  m_isInitialized s = true
  /\ existsb (String.eqb (StepParam.target param)) supportedActions = true
  /\ handled o (StepParam.params param) (required (StepParam.target param)) r.
Proof.
  intros H Hs.
  destruct (m_isInitialized s) eqn:Hi.
  2: { rewrite executeStep_uninitialized in H by exact Hi. injection H as <-. discriminate Hs. }
  destruct (existsb (String.eqb (StepParam.target param)) supportedActions) eqn:Hsup.
  2: { rewrite executeStep_unsupported in H by assumption. injection H as <-. discriminate Hs. }
  rewrite executeStep_dispatch in H by assumption.
  split; [reflexivity|]. split; [reflexivity|].
  destruct (supported_cases _ Hsup) as [E | [E | E]]; rewrite E in H |- *; cbn in H.
  - now apply SimulateButtonClick_success.
  - now apply SetTextBoxContent_success.
  - now apply GetWindowTitle_success.
Qed.

End Win32Facts.

Section Win32Steps.
Import Win32Plugin.

Lemma existsb_eqb_elem_of (t : string) (l : list string) :
  existsb (String.eqb t) l = true <-> t ∈ l.
Proof.
  induction l as [|x l IH]; cbn [existsb].
  - split; [discriminate | intros H; now apply elem_of_nil in H].
  - rewrite orb_true_iff, String.eqb_eq, IH, elem_of_cons. tauto.
Qed.

Lemma existsb_eqb_not_elem_of (t : string) (l : list string) :
  existsb (String.eqb t) l = false <-> t ∉ l.
Proof.
  rewrite <- existsb_eqb_elem_of. destruct (existsb _ l); split; congruence.
Qed.

Lemma missing_param_first requiredParams params before key after :
  requiredParams = before ++ key :: after ->
  (forall k, k ∈ before -> present params k) -> ~ present params key ->
  missing_param requiredParams params = Some key.
Proof.
  intros -> Hb Hk. induction before as [|k before IH]; cbn [app missing_param].
  - destruct (params !! key) as [v|] eqn:Hp; [|reflexivity].
    destruct (String.eqb v EmptyString) eqn:Hv; [reflexivity|].
    apply String.eqb_neq in Hv. destruct Hk. now exists v.
  - destruct (Hb k) as (v & -> & Hv); [left|].
    apply String.eqb_neq in Hv. rewrite Hv. apply IH. intros k' Hk'. apply Hb. now right.
Qed.

Lemma executeStep_missing o s param key :
  m_isInitialized s = true ->
  existsb (String.eqb (StepParam.target param)) supportedActions = true ->
  missing_param (required (StepParam.target param)) (StepParam.params param) = Some key ->
  executeStep o s param
  = Returns (failed "Missing required parameter" ("Parameter: " +:+ key)).
Proof.
  intros Hi Hs Hm. rewrite executeStep_dispatch by assumption.
  destruct (supported_cases _ Hs) as [E | [E | E]]; rewrite E in Hm |- *.
  - change (missing_param ["WindowHandle"; "ControlId"] (StepParam.params param) = Some key)
      in Hm.
    change (SimulateButtonClick o (StepParam.params param) = Returns
              (failed "Missing required parameter" ("Parameter: " +:+ key))).
    unfold SimulateButtonClick. now rewrite Hm.
  - change (missing_param ["WindowHandle"; "ControlId"; "Text"] (StepParam.params param)
            = Some key) in Hm.
    change (SetTextBoxContent o (StepParam.params param) = Returns
              (failed "Missing required parameter" ("Parameter: " +:+ key))).
    unfold SetTextBoxContent. now rewrite Hm.
  - change (missing_param ["WindowHandle"] (StepParam.params param) = Some key) in Hm.
    change (GetWindowTitle o (StepParam.params param) = Returns
              (failed "Missing required parameter" ("Parameter: " +:+ key))).
    unfold GetWindowTitle. now rewrite Hm.
Qed.

End Win32Steps.

(** X25: what a successful step of the Win32 plugin needed.  If
    [executeStep] returns a result with [success] set, the plugin was
    initialized, [param.target] (not [param.action]) named one of the
    three operations, every parameter the operation requires was there
    and not empty, and [WindowHandle] parsed to a non-null handle of an
    existing, visible window.  The result then has error code [0], no
    error text, and an empty [action]: the action recorded at the start of
    [executeStep] is lost when a handler's result is assigned. *)
Theorem Win32Plugin_success_requires
    (o : Win32Plugin.os) (s : Win32Plugin.state) (param : StepParam.t) (r : StepResult.t) :
  Win32Plugin.executeStep o s param = Returns r ->
  StepResult.success r = true ->
  Win32Plugin.m_isInitialized s = true
  /\ StepParam.target param ∈ Win32Plugin.supportedActions
  /\ (forall key, key ∈ Win32Plugin.required (StepParam.target param) ->
        Win32Plugin.present (StepParam.params param) key)
  /\ (exists hwnd,
        Win32Plugin.stoull16 o (Win32Plugin.at_ (StepParam.params param) "WindowHandle")
        = Win32Plugin.Parsed hwnd
        /\ hwnd <> 0 /\ Win32Plugin.IsWindow o hwnd = true
        /\ Win32Plugin.IsWindowVisible o hwnd = true)
  /\ StepResult.error_code r = 0
  /\ StepResult.err_info r = EmptyString
  /\ StepResult.action r = EmptyString.
Proof.
  intros H Hs. destruct (executeStep_success _ _ _ _ H Hs)
    as (Hi & Hsup & Hreq & (hwnd & Hh & Hv) & Hcode & Hact & Herr).
  split_and!; try assumption.
  - now apply existsb_eqb_elem_of.
  - exists hwnd. unfold Win32Plugin.IsWindowValid in Hv.
    apply andb_true_iff in Hv as [Hv Hvis]. apply andb_true_iff in Hv as [Hnz Hw].
    apply negb_true_iff, Z.eqb_neq in Hnz. auto.
Qed.

(** Setting the text of control [1] in window [0x10] succeeds, under an
    action that is not even an operation name. *)
Lemma Win32Plugin_success_requires_witness :
  Win32Plugin.executeStep Examples.desktop Examples.win32_ready
    (TestStep.param (Examples.win32_step "type" "Win32_SetText"
                       [("WindowHandle", "0x10"); ("ControlId", "1"); ("Text", "hello")]))
  = Returns (Win32Plugin.succeeded "Set text success" "hello")
  /\ Win32Plugin.m_isInitialized Examples.win32_ready = true.
Proof.
  split; [reflexivity|].
  destruct (Win32Plugin_success_requires Examples.desktop Examples.win32_ready
              (TestStep.param (Examples.win32_step "type" "Win32_SetText"
                 [("WindowHandle", "0x10"); ("ControlId", "1"); ("Text", "hello")]))
              (Win32Plugin.succeeded "Set text success" "hello") eq_refl eq_refl)
    as (Hi & _).
  exact Hi.
Defined.

(** X26: the plugin's state and the two checks in front of its handlers.
    [initialize] always answers [true] and leaves the plugin initialized,
    [uninitialize] leaves it uninitialized, both do nothing when repeated,
    and [uninitialize] after [initialize] on a fresh plugin gives back the
    fresh plugin.  An uninitialized plugin answers every step with
    "Plugin not initialized", and an initialized one answers a step whose
    target is not an operation with "Unsupported operation" and the list
    of the three operations; both results name the step's action, carry
    error code [0], and do not depend on the desktop. *)
Theorem Win32Plugin_guards
    (o : Win32Plugin.os) (s : Win32Plugin.state) (param : StepParam.t) :
  ((Win32Plugin.initialize s).1 = true
   /\ Win32Plugin.m_isInitialized (Win32Plugin.initialize s).2 = true
   /\ Win32Plugin.initialize (Win32Plugin.initialize s).2
      = (true, (Win32Plugin.initialize s).2))
  /\ (Win32Plugin.m_isInitialized (Win32Plugin.uninitialize s) = false
      /\ Win32Plugin.uninitialize (Win32Plugin.uninitialize s) = Win32Plugin.uninitialize s)
  /\ Win32Plugin.uninitialize (Win32Plugin.initialize Win32Plugin.created).2
     = Win32Plugin.created
  /\ Win32Plugin.executeStep o (Win32Plugin.uninitialize s) param
     = Returns {| StepResult.success := false;
                  StepResult.message := "Plugin not initialized";
                  StepResult.error_code := 0; StepResult.extra_data := EmptyString;
                  StepResult.err_info := "Call Initialize() before executing steps";
                  StepResult.action := StepParam.action param |}
  /\ (StepParam.target param ∉ Win32Plugin.supportedActions ->
      Win32Plugin.executeStep o (Win32Plugin.initialize s).2 param
      = Returns {| StepResult.success := false;
                   StepResult.message := "Unsupported operation";
                   StepResult.error_code := 0; StepResult.extra_data := EmptyString;
                   StepResult.err_info :=
                     "Operation: " +:+ StepParam.target param
                     +:+ ", supported: Win32_Click, Win32_SetText, Win32_GetWindowTitle";
                   StepResult.action := StepParam.action param |}).
Proof.
  assert (Hinit : Win32Plugin.m_isInitialized (Win32Plugin.initialize s).2 = true).
  { unfold Win32Plugin.initialize. now destruct (Win32Plugin.m_isInitialized s) eqn:E. }
  assert (Hun : Win32Plugin.m_isInitialized (Win32Plugin.uninitialize s) = false).
  { unfold Win32Plugin.uninitialize. now destruct (Win32Plugin.m_isInitialized s) eqn:E. }
  split_and!.
  - unfold Win32Plugin.initialize. now destruct (Win32Plugin.m_isInitialized s).
  - exact Hinit.
  - unfold Win32Plugin.initialize at 1. now rewrite Hinit.
  - exact Hun.
  - unfold Win32Plugin.uninitialize at 1. now rewrite Hun.
  - reflexivity.
  - now apply executeStep_uninitialized.
  - intros Hno. apply executeStep_unsupported; [exact Hinit|].
    now apply existsb_eqb_not_elem_of.
Qed.

(** X27: the first thing a handler checks.  When the plugin is
    initialized and the target is an operation, a step that lacks one of
    the operation's required parameters, or has it empty, fails with
    "Missing required parameter" naming the first such parameter in the
    order [WindowHandle], [ControlId], [Text]; the desktop is not
    consulted, and the result does not name the step's action. *)
Theorem Win32Plugin_missing_parameter
    (o : Win32Plugin.os) (s : Win32Plugin.state) (param : StepParam.t)
    (before after : list string) (key : string) :
  Win32Plugin.m_isInitialized s = true ->
  StepParam.target param ∈ Win32Plugin.supportedActions ->
  Win32Plugin.required (StepParam.target param) = before ++ key :: after ->
  (forall k, k ∈ before -> Win32Plugin.present (StepParam.params param) k) ->
  ~ Win32Plugin.present (StepParam.params param) key ->
  Win32Plugin.executeStep o s param
  = Returns {| StepResult.success := false;
               StepResult.message := "Missing required parameter";
               StepResult.error_code := 0; StepResult.extra_data := EmptyString;
               StepResult.err_info := "Parameter: " +:+ key;
               StepResult.action := EmptyString |}.
Proof.
  intros Hi Hsup Hreq Hb Hk.
  apply executeStep_missing; [exact Hi | now apply existsb_eqb_elem_of |].
  exact (missing_param_first _ _ _ _ _ Hreq Hb Hk).
Qed.

(** A click with a window handle and an empty control id. *)
Lemma Win32Plugin_missing_parameter_witness :
  Win32Plugin.executeStep Examples.desktop Examples.win32_ready
    (TestStep.param (Examples.win32_step "Win32_Click" "Win32_Click"
                       [("WindowHandle", "0x10"); ("ControlId", EmptyString)]))
  = Returns (Win32Plugin.failed "Missing required parameter" "Parameter: ControlId").
Proof.
  apply (Win32Plugin_missing_parameter Examples.desktop Examples.win32_ready
           (TestStep.param (Examples.win32_step "Win32_Click" "Win32_Click"
                              [("WindowHandle", "0x10"); ("ControlId", EmptyString)]))
           ["WindowHandle"] [] "ControlId").
  - reflexivity.
  - apply existsb_eqb_elem_of. reflexivity.
  - reflexivity.
  - intros k Hk. apply list_elem_of_singleton in Hk as ->.
    exists "0x10". split; [reflexivity | discriminate].
  - intros (v & Hv & Hne). vm_compute in Hv. injection Hv as <-. now apply Hne.
Defined.

(** X28: a step sent through the engine to a plugin that behaves as the
    Win32 plugin must name an operation twice.  The engine looks for
    [param.action] among the supported actions and answers [-2] without
    calling the plugin when it is not there; the plugin looks for
    [param.target] there and answers "Unsupported operation", with error
    code [0], when it is not.  So a step succeeds only if both are
    operation names, and it is the target that selects the handler.  A
    window handle too large for [std::stoull] is not caught by the plugin:
    the engine reports it as exception [-3]. *)
Theorem executeTestStep_Win32Plugin
    (eng : TestEngine.engine) (step : TestStep.t) (w : PluginManager.world)
    (p : IAutomationPlugin.t) (o : Win32Plugin.os) (s : Win32Plugin.state) :
  PluginManager.getPlugin w (TestStep.plugin_name step) = Some p ->
  IAutomationPlugin.supportedActions p = Win32Plugin.supportedActions ->
  IAutomationPlugin.executeStep p (PluginManager.trace w) (TestStep.param step)
  = Win32Plugin.executeStep o s (TestStep.param step) ->
  Win32Plugin.m_isInitialized s = true ->
  (StepParam.action (TestStep.param step) ∉ Win32Plugin.supportedActions ->
   StepResult.error_code (StepExecutionResult.result (TestEngine.executeTestStep eng step w).1)
   = -2
   /\ (TestEngine.executeTestStep eng step w).2 = w)
  /\ (StepParam.action (TestStep.param step) ∈ Win32Plugin.supportedActions ->
      StepParam.target (TestStep.param step) ∉ Win32Plugin.supportedActions ->
      StepExecutionResult.result (TestEngine.executeTestStep eng step w).1
      = {| StepResult.success := false; StepResult.message := "Unsupported operation";
           StepResult.error_code := 0; StepResult.extra_data := EmptyString;
           StepResult.err_info :=
             "Operation: " +:+ StepParam.target (TestStep.param step)
             +:+ ", supported: Win32_Click, Win32_SetText, Win32_GetWindowTitle";
           StepResult.action := StepParam.action (TestStep.param step) |})
  /\ (StepResult.success
        (StepExecutionResult.result (TestEngine.executeTestStep eng step w).1) = true ->
      StepParam.action (TestStep.param step) ∈ Win32Plugin.supportedActions
      /\ StepParam.target (TestStep.param step) ∈ Win32Plugin.supportedActions
      /\ forall key, key ∈ Win32Plugin.required (StepParam.target (TestStep.param step)) ->
           Win32Plugin.present (StepParam.params (TestStep.param step)) key)
  /\ (forall what,
        StepParam.action (TestStep.param step) ∈ Win32Plugin.supportedActions ->
        StepParam.target (TestStep.param step) = "Win32_GetWindowTitle" ->
        Win32Plugin.present (StepParam.params (TestStep.param step)) "WindowHandle" ->
        Win32Plugin.stoull16 o
          (Win32Plugin.at_ (StepParam.params (TestStep.param step)) "WindowHandle")
        = Win32Plugin.out_of_range what ->
        StepExecutionResult.result (TestEngine.executeTestStep eng step w).1
        = TestEngine.failure (-3) ("Exception occurred: " +:+ what)).
Proof.
  intros Hp Hacts Hbehaves Hi.
  unfold TestEngine.executeTestStep, TestEngine.is_supported. rewrite Hp, Hacts, Hbehaves.
  destruct (existsb (String.eqb (StepParam.action (TestStep.param step)))
              Win32Plugin.supportedActions) eqn:Hact; cbn [negb].
  - assert (Hin : StepParam.action (TestStep.param step) ∈ Win32Plugin.supportedActions)
      by now apply existsb_eqb_elem_of.
    split_and!.
    + intros Hno. now destruct Hno.
    + intros _ Hno. apply existsb_eqb_not_elem_of in Hno.
      rewrite (executeStep_unsupported _ _ _ Hi Hno). reflexivity.
    + destruct (Win32Plugin.executeStep o s (TestStep.param step)) as [r|e] eqn:Hrun;
        cbn [fst StepExecutionResult.result].
      * intros Hs. destruct (executeStep_success _ _ _ _ Hrun Hs) as (_ & Hsup & Hreq & _).
        split_and!; [exact Hin | now apply existsb_eqb_elem_of | exact Hreq].
      * intros Hs. destruct e; discriminate Hs.
    + intros what _ Ht (v & Hv & Hne) Hbig.
      assert (Hsup : existsb (String.eqb (StepParam.target (TestStep.param step)))
                       Win32Plugin.supportedActions = true) by now rewrite Ht.
      rewrite (executeStep_dispatch _ _ _ Hi Hsup), Ht.
      change (if String.eqb "Win32_GetWindowTitle" "Win32_Click" then _ else _)
        with (Win32Plugin.GetWindowTitle o (StepParam.params (TestStep.param step))).
      unfold Win32Plugin.GetWindowTitle. cbn [Win32Plugin.missing_param].
      rewrite Hv. apply String.eqb_neq in Hne. rewrite Hne, Hbig. reflexivity.
  - apply existsb_eqb_not_elem_of in Hact. cbn [fst snd StepExecutionResult.result].
    split_and!.
    + intros _. split; reflexivity.
    + intros Hin. now destruct Hact.
    + discriminate.
    + intros what Hin. now destruct Hact.
Qed.

(** Through the engine into the registry that holds the plugin: an action
    that is no operation name is refused by the engine, an operation name
    with a window title as target is refused by the plugin, and a handle
    of seventeen hexadecimal digits ends as exception [-3]. *)
Lemma executeTestStep_Win32Plugin_witness :
  StepResult.error_code
    (StepExecutionResult.result
       (TestEngine.executeTestStep Examples.engine_plain
          (Examples.win32_step "click" "Win32_Click" []) Examples.world_W).1) = -2
  /\ StepResult.message
       (StepExecutionResult.result
          (TestEngine.executeTestStep Examples.engine_plain
             (Examples.win32_step "Win32_Click" "Editor" []) Examples.world_W).1)
     = "Unsupported operation"
  /\ StepExecutionResult.result
       (TestEngine.executeTestStep Examples.engine_plain
          (Examples.win32_step "Win32_GetWindowTitle" "Win32_GetWindowTitle"
             [("WindowHandle", "0x10000000000000000")]) Examples.world_W).1
     = TestEngine.failure (-3) "Exception occurred: stoull argument out of range".
Proof.
  split_and!.
  - destruct (executeTestStep_Win32Plugin Examples.engine_plain
                (Examples.win32_step "click" "Win32_Click" []) Examples.world_W
                Examples.win32 Examples.desktop Examples.win32_ready
                eq_refl eq_refl eq_refl eq_refl) as (H & _).
    apply H. apply existsb_eqb_not_elem_of. reflexivity.
  - destruct (executeTestStep_Win32Plugin Examples.engine_plain
                (Examples.win32_step "Win32_Click" "Editor" []) Examples.world_W
                Examples.win32 Examples.desktop Examples.win32_ready
                eq_refl eq_refl eq_refl eq_refl) as (_ & H & _).
    rewrite H; [reflexivity | |].
    + apply existsb_eqb_elem_of. reflexivity.
    + apply existsb_eqb_not_elem_of. reflexivity.
  - destruct (executeTestStep_Win32Plugin Examples.engine_plain
                (Examples.win32_step "Win32_GetWindowTitle" "Win32_GetWindowTitle"
                   [("WindowHandle", "0x10000000000000000")]) Examples.world_W
                Examples.win32 Examples.desktop Examples.win32_ready
                eq_refl eq_refl eq_refl eq_refl) as (_ & _ & _ & H).
    apply H.
    + apply existsb_eqb_elem_of. reflexivity.
    + reflexivity.
    + exists "0x10000000000000000". split; [reflexivity | discriminate].
    + reflexivity.
Defined.

(** ** Renaming and listing datasets *)

Section DataSetFacts.
Import TestData.

#[local] Instance id_le_transitive : Transitive id_le.
Proof. intros a b c. unfold id_le. lia. Qed.

#[local] Instance id_le_total : Total id_le.
Proof. intros a b. unfold id_le. lia. Qed.

Lemma in_getAllDataSets m ds :
  ds ∈ getAllDataSets m <-> exists k, dataSets_ m !! k = Some ds.
Proof.
  unfold getAllDataSets. rewrite list_elem_of_fmap. split.
  - intros ([k x] & -> & Hin). rewrite merge_sort_Permutation in Hin.
    apply elem_of_map_to_list in Hin. eauto.
  - intros (k & Hk). exists (k, ds). split; [reflexivity|].
    rewrite merge_sort_Permutation. now apply elem_of_map_to_list.
Qed.

Lemma sorted_by_id (pairs : list (Z * TestDataSet)) :
  StronglySorted id_le pairs -> NoDup pairs.*1 ->
  (forall k ds, (k, ds) ∈ pairs -> id ds = k) ->
  StronglySorted (fun a b => id a < id b) pairs.*2.
Proof.
  induction 1 as [|[k ds] pairs Hs IH Hall]; intros Hnd Hid; [constructor|].
  rewrite fmap_cons in Hnd. apply NoDup_cons in Hnd as [Hk Hnd].
  rewrite fmap_cons. constructor.
  - apply IH; [exact Hnd|]. intros k' ds' Hin. apply Hid. now right.
  - rewrite Forall_fmap. rewrite Forall_forall in Hall |- *.
    intros [k' ds'] Hin. cbn. specialize (Hall _ Hin). unfold id_le in Hall. cbn in Hall.
    rewrite (Hid k ds), (Hid k' ds'); [| now right | left].
    assert (k <> k').
    { intros ->. apply Hk. apply list_elem_of_fmap. now exists (k', ds'). }
    lia.
Qed.

Lemma StronglySorted_filter {A} (R : A -> A -> Prop) (f : A -> bool) l :
  StronglySorted R l -> StronglySorted R (List.filter f l).
Proof.
  induction 1 as [|x l Hs IH Hall]; cbn [List.filter]; [constructor|].
  destruct (f x); [|exact IH]. constructor; [exact IH|].
  rewrite Forall_forall in Hall |- *. intros y Hy.
  apply list_elem_of_In, filter_In in Hy as [Hy _]. apply Hall. now apply list_elem_of_In.
Qed.

Lemma getAllDataSets_sorted m :
  indexed m -> StronglySorted (fun a b => id a < id b) (getAllDataSets m).
Proof.
  intros Hx. unfold getAllDataSets. apply sorted_by_id.
  - apply StronglySorted_merge_sort; apply _.
  - rewrite merge_sort_Permutation. apply NoDup_fst_map_to_list.
  - intros k ds Hk. rewrite merge_sort_Permutation in Hk.
    apply elem_of_map_to_list in Hk. now destruct (Hx _ _ Hk).
Qed.

End DataSetFacts.

(** X29: [updateDataSet] by cases, in a store where every dataset is
    listed under its own name.  An unknown id throws.  A new name that
    another entry of the name map holds throws "already exists".
    Otherwise the update succeeds: the dataset then reads as the given
    one with the old creation time and the new modification time, the new
    name leads to its id, the old name, if it differs, is free again, and
    all other datasets and names are untouched. *)
Theorem updateDataSet_spec
    (now : string) (m : TestData.TestDataManager) (dataSet : TestData.TestDataSet) :
  TestData.indexed m ->
  (TestData.dataSets_ m !! TestData.id dataSet = None ->
   TestData.updateDataSet now m dataSet
   = Throw (TestData.no_such_dataSet (TestData.id dataSet)))
  /\ (forall existing other,
        TestData.dataSets_ m !! TestData.id dataSet = Some existing ->
        TestData.name existing <> TestData.name dataSet ->
        TestData.dataSetNameMap_ m !! TestData.name dataSet = Some other ->
        TestData.updateDataSet now m dataSet
        = Throw (TestDataException
                   ("DataSet with name '" +:+ TestData.name dataSet +:+ "' already exists")))
  /\ (forall existing,
        TestData.dataSets_ m !! TestData.id dataSet = Some existing ->
        TestData.name existing = TestData.name dataSet
        \/ TestData.dataSetNameMap_ m !! TestData.name dataSet = None ->
        exists m',
          TestData.updateDataSet now m dataSet = Ok (true, m')
          /\ TestData.getDataSet m' (TestData.id dataSet)
             = Ok {| TestData.id := TestData.id dataSet;
                     TestData.name := TestData.name dataSet;
                     TestData.description := TestData.description dataSet;
                     TestData.project_id := TestData.project_id dataSet;
                     TestData.items := TestData.items dataSet;
                     TestData.created_at := TestData.created_at existing;
                     TestData.last_modified := now |}
          /\ TestData.dataSetNameMap_ m' !! TestData.name dataSet
             = Some (TestData.id dataSet)
          /\ (TestData.name existing <> TestData.name dataSet ->
              TestData.dataSetNameMap_ m' !! TestData.name existing = None)
          /\ (forall j, j <> TestData.id dataSet ->
                TestData.dataSets_ m' !! j = TestData.dataSets_ m !! j)
          /\ (forall n, n <> TestData.name dataSet -> n <> TestData.name existing ->
                TestData.dataSetNameMap_ m' !! n = TestData.dataSetNameMap_ m !! n)).
Proof.
  intros Hx. unfold TestData.updateDataSet, TestData.checked_dataSet. split_and!.
  - now intros ->.
  - intros existing other -> Hne Hother. cbn.
    apply String.eqb_neq in Hne. now rewrite Hne, Hother.
  - intros existing He Hfree. rewrite He. cbn.
    destruct (Hx _ _ He) as [_ Hname].
    destruct (String.eqb (TestData.name existing) (TestData.name dataSet)) eqn:En.
    + apply String.eqb_eq in En. cbn. eexists. split; [reflexivity|].
      unfold TestData.getDataSet, TestData.checked_dataSet. cbn.
      rewrite lookup_insert_eq. split_and!.
      * reflexivity.
      * now rewrite <- En.
      * intros Hne. now destruct Hne.
      * intros j Hj. now apply lookup_insert_ne.
      * reflexivity.
    + apply String.eqb_neq in En. destruct Hfree as [Hsame | Hnone]; [now destruct En|].
      rewrite Hnone. cbn. eexists. split; [reflexivity|].
      unfold TestData.getDataSet, TestData.checked_dataSet. cbn.
      rewrite lookup_insert_eq. split_and!.
      * reflexivity.
      * apply lookup_insert_eq.
      * intros _. rewrite lookup_insert_ne by congruence. apply lookup_delete_eq.
      * intros j Hj. now apply lookup_insert_ne.
      * intros n Hn1 Hn2. rewrite lookup_insert_ne, lookup_delete_ne by congruence.
        reflexivity.
Qed.

(** Renaming the dataset [A] of the store [{A: {x: "5"}}] to [B]. *)
Lemma updateDataSet_spec_witness :
  exists m',
    TestData.updateDataSet Examples.clock Examples.plain_store
      {| TestData.id := 1; TestData.name := "B"; TestData.description := EmptyString;
         TestData.project_id := 1; TestData.items := [];
         TestData.created_at := EmptyString; TestData.last_modified := EmptyString |}
    = Ok (true, m')
    /\ TestData.dataSetNameMap_ m' !! "B" = Some 1
    /\ TestData.dataSetNameMap_ m' !! "A" = None.
Proof.
  destruct (updateDataSet_spec Examples.clock Examples.plain_store
              {| TestData.id := 1; TestData.name := "B"; TestData.description := EmptyString;
                 TestData.project_id := 1; TestData.items := [];
                 TestData.created_at := EmptyString; TestData.last_modified := EmptyString |}
              plain_store_indexed) as (_ & _ & H).
  destruct (TestData.dataSets_ Examples.plain_store !! 1) as [existing|] eqn:He;
    [|vm_compute in He; discriminate He].
  assert (Hname : TestData.name existing = "A").
  { vm_compute in He. injection He as <-. reflexivity. }
  destruct (H existing He (or_intror eq_refl)) as (m' & Hrun & _ & Hnew & Hold & _).
  exists m'. split_and!; [exact Hrun | exact Hnew |].
  cbn [TestData.name] in Hold. rewrite Hname in Hold. apply Hold. discriminate.
Defined.

(** X30: listing datasets, in a store where every dataset sits under its
    own id.  [getAllDataSets] returns every stored dataset exactly once, by
    rising id; [getProjectDataSets] returns, in the same order, those of
    them that belong to the project. *)
Theorem getAllDataSets_spec (m : TestData.TestDataManager) (projectId : Z) :
  TestData.indexed m ->
  (forall ds, ds ∈ TestData.getAllDataSets m
              <-> TestData.dataSets_ m !! TestData.id ds = Some ds)
  /\ length (TestData.getAllDataSets m) = size (TestData.dataSets_ m)
  /\ StronglySorted (fun a b => TestData.id a < TestData.id b) (TestData.getAllDataSets m)
  /\ (forall ds, ds ∈ TestData.getProjectDataSets m projectId
                 <-> TestData.dataSets_ m !! TestData.id ds = Some ds
                     /\ TestData.project_id ds = projectId)
  /\ StronglySorted (fun a b => TestData.id a < TestData.id b)
       (TestData.getProjectDataSets m projectId).
Proof.
  intros Hx.
  assert (Hin : forall ds, ds ∈ TestData.getAllDataSets m
                           <-> TestData.dataSets_ m !! TestData.id ds = Some ds).
  { intros ds. rewrite in_getAllDataSets. split; [|eauto].
    intros (k & Hk). destruct (Hx _ _ Hk) as [-> _]. exact Hk. }
  pose proof (getAllDataSets_sorted m Hx) as Hsorted.
  split_and!.
  - exact Hin.
  - unfold TestData.getAllDataSets.
    now rewrite length_fmap, merge_sort_Permutation, length_map_to_list.
  - exact Hsorted.
  - intros ds. unfold TestData.getProjectDataSets.
    rewrite list_elem_of_In, filter_In, <- list_elem_of_In, Hin, Z.eqb_eq. reflexivity.
  - unfold TestData.getProjectDataSets. now apply StronglySorted_filter.
Qed.

(** The store [{A: {x: "5"}}] lists its one dataset. *)
Lemma getAllDataSets_spec_witness :
  length (TestData.getAllDataSets Examples.plain_store) = 1%nat.
Proof.
  destruct (getAllDataSets_spec Examples.plain_store 1 plain_store_indexed)
    as (_ & Hlen & _).
  rewrite Hlen. vm_compute. reflexivity.
Defined.
